(** * Zeal settings dialog: the docset acquisition pipeline

    A shallow embedding of [src/ui/settingsdialog.cpp].  The dialog is
    driven by one control thread: every slot runs to completion before the
    next signal is delivered, so a slot is a function on the dialog's state
    and the dialog's history is a sequence of slot calls.

    Qt types are modelled by what the dialog reads and writes of them:
    [QString] and [QByteArray] are strings, a [QMap] or [QHash] keyed by
    [QString] is a [gmap string], a [QList] is a list, a pointer to a
    [QNetworkReply] is a number naming an object of a store, and a
    [QVariant] property that may be unset is an [option]. *)

From Stdlib Require Import ZArith Lia SpecFloat Ascii String.
From stdpp Require Import base option list sorting gmap strings.

Local Open Scope Z_scope.
Local Open Scope string_scope.
Local Open Scope list_scope.

(** ** Strings *)

Definition QString := string.
Definition QByteArray := string.

(** [tr] looks a text up in the installed translation; the model runs with
    no translation installed, where [tr] returns the source text. *)
Definition tr (s : string) : string := s.

(** [QString("..%1..").arg(a)]: the lowest numbered place marker is
    replaced by [a].  The dialog only uses patterns with the marker in one
    place, so the pattern is given as the text before and after it. *)
Definition arg1 (before a after : string) : string := before +:+ a +:+ after.

Definition ascii_lower (c : ascii) : ascii :=
  let n := Ascii.nat_of_ascii c in
  if (65 <=? n)%nat && (n <=? 90)%nat then Ascii.ascii_of_nat (n + 32) else c.

Fixpoint toLower (s : string) : string :=
  match s with
  | EmptyString => EmptyString
  | String c s' => String (ascii_lower c) (toLower s')
  end.

(** Comparison under [Qt::MatchFixedString] without
    [Qt::MatchCaseSensitive]: equal up to letter case (ASCII letters in
    the model). *)
Definition matchFixedString (a b : string) : bool :=
  bool_decide (toLower a = toLower b).

Fixpoint startsWith (p s : string) : bool :=
  match p, s with
  | EmptyString, _ => true
  | String a p', String b s' => bool_decide (a = b) && startsWith p' s'
  | String _ _, EmptyString => false
  end.

Fixpoint dropChars (n : nat) (s : string) : string :=
  match n, s with
  | O, _ => s
  | S n', String _ s' => dropChars n' s'
  | S _, EmptyString => EmptyString
  end.

(** The part of [s] after its last ['/'] ([QFileInfo::fileName]). *)
Fixpoint fileNameOf (s : string) : string :=
  match s with
  | EmptyString => EmptyString
  | String c s' =>
      if existsb (λ d, bool_decide (d = "/"%char)) (list_ascii_of_string s')
      then fileNameOf s'
      else if bool_decide (c = "/"%char) then s' else s
  end.

Fixpoint upToDot (s : string) : string :=
  match s with
  | EmptyString => EmptyString
  | String c s' => if bool_decide (c = "."%char) then EmptyString else String c (upToDot s')
  end.

(** [QFileInfo(path).baseName()]: the file name without the path, up to
    (not including) its first ['.']. *)
Definition baseName (path : string) : string := upToDot (fileNameOf path).

(** ** Integers of 64 bits

    [qint64] is a signed integer of 64 bits.  An overflow of its
    arithmetic is undefined in C++; the compiled code computes in two's
    complement, where the result wraps around. *)
Definition wrap64 (n : Z) : Z := ((n + 2 ^ 63) mod 2 ^ 64 - 2 ^ 63)%Z.

(** ** Percentages

    [percent] computes in [double]: the dividend is converted by the usual
    arithmetic conversions, then divided, multiplied by [100] and converted
    to [int], which truncates toward zero.  Doubles are IEEE 754 binary64
    numbers with round to nearest even, as specified by [SpecFloat]. *)

Module Double.
Definition prec : Z := 53.
Definition emax : Z := 1024.

Definition t := spec_float.

(** [static_cast<double>(n)] *)
Definition of_int (n : Z) : t := binary_normalize prec emax n 0 false.

Definition div (x y : t) : t := SFdiv prec emax x y.
Definition mul (x y : t) : t := SFmul prec emax x y.

(** The integral part of a double: the fractional part is dropped. *)
Definition truncate (x : t) : Z :=
  match x with
  | S754_finite s m e =>
      let a := if decide (0 <= e)%Z then Z.pos m * 2 ^ e else Z.pos m / 2 ^ (- e) in
      if s then - a else a
  | _ => 0
  end%Z.

(** The range of [int], 32 bits wide. *)
Definition INT_MIN : Z := (- 2 ^ 31)%Z.
Definition INT_MAX : Z := (2 ^ 31 - 1)%Z.

(** A double that [int] can take: a number whose integral part lies in
    the range of [int]. *)
Definition fitsInt (x : t) : bool :=
  match x with
  | S754_zero _ | S754_finite _ _ _ =>
      bool_decide (INT_MIN <= truncate x)%Z && bool_decide (truncate x <= INT_MAX)%Z
  | _ => false
  end.

(** Conversion to [int] drops the fractional part.  The conversion of a
    double that [int] cannot take (an infinity, a NaN, an integral part
    out of range) is undefined in C++; the conversion instruction of
    x86-64 gives [INT_MIN] then, and so does the model. *)
Definition to_int (x : t) : Z := if fitsInt x then truncate x else INT_MIN.
End Double.

(** [fraction / static_cast<double>(total) * 100], a double. *)
Definition percentage (fraction total : Z) : Double.t :=
  Double.mul (Double.div (Double.of_int fraction) (Double.of_int total))
             (Double.of_int 100).

Definition percent (fraction total : Z) : Z :=
  if decide (total = 0) then 0 else Double.to_int (percentage fraction total).

(** ** URLs

    A [QUrl] is kept as its scheme and the text after the scheme; a text
    that [QUrl] could not parse is flagged.  The default constructed URL is
    empty, and an empty URL is not valid. *)

Record QUrl := mkQUrl {
  url_scheme : string;
  url_rest : string;          (* authority, path, query and fragment *)
  url_malformed : bool
}.

Global Instance QUrl_eq_dec : EqDecision QUrl.
Proof. solve_decision. Defined.

Definition QUrl_empty : QUrl := mkQUrl "" "" false.

Definition url_isEmpty (u : QUrl) : bool :=
  bool_decide (url_scheme u = "") && bool_decide (url_rest u = "").

Definition url_isValid (u : QUrl) : bool :=
  negb (url_isEmpty u) && negb (url_malformed u).

(** A URL is relative when its scheme is undefined. *)
Definition url_isRelative (u : QUrl) : bool := bool_decide (url_scheme u = "").

Definition url_setScheme (s : string) (u : QUrl) : QUrl :=
  mkQUrl s (url_rest u) (url_malformed u).

(** ** Docset metadata ([registry/docsetmetadata.h]) *)

Record DocsetMetadata := mkMetadata {
  md_name : string;
  md_title : string;
  md_icon : string;
  md_version : string;
  md_feedUrl : QUrl;
  md_urls : list QUrl;
  md_source : string
}.

Global Instance DocsetMetadata_eq_dec : EqDecision DocsetMetadata.
Proof. solve_decision. Defined.

(** The default constructed metadata: every field empty. *)
Definition DocsetMetadata_default : DocsetMetadata :=
  mkMetadata "" "" "" "" QUrl_empty [] "".

(** A [QJsonObject] restricted to its text members: member name to text.
    A [QJsonValue] of the catalog array is an object or something else;
    [toObject] of something else is the empty object. *)
Inductive QJsonValue :=
  | JsonObject (members : gmap string string)
  | JsonOther.

Definition toObject (v : QJsonValue) : gmap string string :=
  match v with JsonObject o => o | JsonOther => ∅ end.

(** [object[key].toString()]: the text of the member, empty when absent. *)
Definition member (o : gmap string string) (key : string) : string :=
  default "" (o !! key).

(** Modelled from the spec: the constructor [DocsetMetadata(QJsonObject)]
    is declared in [registry/docsetmetadata.h] and its body is not part of
    the dialog; a catalog entry gives the name, title, icon, version and
    source of a docset, and no feed URL. *)
Definition DocsetMetadata_fromJson (o : gmap string string) : DocsetMetadata :=
  mkMetadata (member o "name") (member o "title") (member o "icon")
             (member o "version") QUrl_empty [] (member o "source").

(** ** The registry of installed docsets ([registry/docsetregistry.h]) *)

Record Docset := mkDocset {
  docset_name : string;
  docset_title : string;
  docset_hasMetadata : bool;
  docset_metadata : DocsetMetadata
}.

(** Modelled from the spec: [DocsetRegistry] is a collaborator with
    [addDocset], [remove], [contains] and [docsets]; it holds at most one
    docset per name, so it is a finite map from the name. *)
Module DocsetRegistry.
Definition contains (name : string) (r : gmap string Docset) : bool :=
  bool_decide (is_Some (r !! name)).
Definition remove (name : string) (r : gmap string Docset) : gmap string Docset :=
  delete name r.
Definition add (d : Docset) (r : gmap string Docset) : gmap string Docset :=
  <[docset_name d := d]> r.
Definition docsets (r : gmap string Docset) : list Docset :=
  (map_to_list r).*2.
End DocsetRegistry.

(** ** Network replies *)

Inductive DownloadType := DownloadDashFeed | DownloadDocset | DownloadDocsetList.

Global Instance DownloadType_eq_dec : EqDecision DownloadType.
Proof. solve_decision. Defined.

(** [QNetworkReply::NetworkError], as far as the dialog tells the values
    apart. *)
Inductive NetworkError :=
  | NoError
  | OperationCanceledError
  | OtherNetworkError (code : nat).

Global Instance NetworkError_eq_dec : EqDecision NetworkError.
Proof. solve_decision. Defined.

Definition ReplyPtr := nat.

(** The request of a reply and the dynamic properties the dialog attaches
    to it.  A property that was never set reads as an invalid [QVariant]:
    [None]. *)
Record QNetworkReply := mkReply {
  request_url : QUrl;
  DocsetMetadataProperty : option DocsetMetadata;
  DownloadTypeProperty : option DownloadType;
  DownloadPreviousReceived : option Z;
  ListItemIndexProperty : option Z
}.

(** What the network reports of a reply when it emits [finished]. *)
Record Response := mkResponse {
  rsp_error : NetworkError;
  rsp_errorString : string;
  rsp_redirectionTarget : QUrl;   (* RedirectionTargetAttribute, as a URL *)
  rsp_body : QByteArray
}.

(** ** The view *)

Record QListWidgetItem := mkItem {
  item_text : string;
  item_docsetName : string;       (* ListModel::DocsetNameRole *)
  item_checked : bool;
  item_hidden : bool;
  item_showProgress : bool;       (* ProgressItemDelegate::ShowProgressRole *)
  item_value : Z;                 (* ProgressItemDelegate::ValueRole *)
  item_format : string            (* ProgressItemDelegate::FormatRole *)
}.

Record Ui := mkUi {
  availableDocsetList : list QListWidgetItem;
  availableDocsetList_enabled : bool;
  downloadableGroup_visible : bool;
  docsetsProgress_value : Z;
  docsetsProgress_maximum : Z;
  docsetsProgress_visible : bool;
  downloadButton_visible : bool;
  downloadButton_enabled : bool;
  downloadDocsetButton_text : string;
  updateButton_enabled : bool;
  addFeedButton_enabled : bool;
  deleteButton_visible : bool
}.

Inductive Icon := Information | Question | Warning | Critical.

(** What the dialog does to its collaborators, in the order it does it. *)
Inductive Effect :=
  | MessageBox (icon : Icon) (title text : string)
  | Download (url : QUrl) (reply : ReplyPtr)        (* m_application->download *)
  | Abort (reply : ReplyPtr)                        (* reply->abort() *)
  | Extract (archive destination name : string)     (* m_application->extract *)
  | MetadataToFile (path : string) (m : DocsetMetadata)
  | RemoveRecursively (dir name : string)           (* queued on the worker *)
  | AwaitCatalog.                                   (* the watcher of updateFeedDocsets *)

(** ** The dialog *)

Record QTemporaryFile := mkTmp { fileName : string }.

Record State := mkState {
  replies : list ReplyPtr;
  objects : gmap nat QNetworkReply;          (* the live reply objects *)
  nextReply : ReplyPtr;                      (* the next object to be created *)
  m_availableDocsets : gmap string DocsetMetadata;
  m_userFeeds : gmap string DocsetMetadata;
  m_tmpFiles : gmap string QTemporaryFile;
  m_combinedReceived : Z;
  m_combinedTotal : Z;
  m_docsetRegistry : gmap string Docset;
  docsetPath : string;                       (* m_application->settings()->docsetPath *)
  ui : Ui;
  disk : gmap string QByteArray;             (* the temporary files that exist *)
  tmpCreated : nat;                          (* temporary files created so far *)
  qrandCalls : nat;                          (* calls of qrand() so far *)
  effects : list Effect                      (* oldest first *)
}.

(** Field updates. *)

Definition with_replies (f : list ReplyPtr → list ReplyPtr) (s : State) : State :=
  mkState (f (replies s)) (objects s) (nextReply s) (m_availableDocsets s) (m_userFeeds s)
    (m_tmpFiles s) (m_combinedReceived s) (m_combinedTotal s) (m_docsetRegistry s)
    (docsetPath s) (ui s) (disk s) (tmpCreated s) (qrandCalls s) (effects s).

Definition with_objects (f : gmap nat QNetworkReply → gmap nat QNetworkReply) (s : State) : State :=
  mkState (replies s) (f (objects s)) (nextReply s) (m_availableDocsets s) (m_userFeeds s)
    (m_tmpFiles s) (m_combinedReceived s) (m_combinedTotal s) (m_docsetRegistry s)
    (docsetPath s) (ui s) (disk s) (tmpCreated s) (qrandCalls s) (effects s).

Definition with_nextReply (f : ReplyPtr → ReplyPtr) (s : State) : State :=
  mkState (replies s) (objects s) (f (nextReply s)) (m_availableDocsets s) (m_userFeeds s)
    (m_tmpFiles s) (m_combinedReceived s) (m_combinedTotal s) (m_docsetRegistry s)
    (docsetPath s) (ui s) (disk s) (tmpCreated s) (qrandCalls s) (effects s).

Definition with_availableDocsets
    (f : gmap string DocsetMetadata → gmap string DocsetMetadata) (s : State) : State :=
  mkState (replies s) (objects s) (nextReply s) (f (m_availableDocsets s)) (m_userFeeds s)
    (m_tmpFiles s) (m_combinedReceived s) (m_combinedTotal s) (m_docsetRegistry s)
    (docsetPath s) (ui s) (disk s) (tmpCreated s) (qrandCalls s) (effects s).

Definition with_userFeeds
    (f : gmap string DocsetMetadata → gmap string DocsetMetadata) (s : State) : State :=
  mkState (replies s) (objects s) (nextReply s) (m_availableDocsets s) (f (m_userFeeds s))
    (m_tmpFiles s) (m_combinedReceived s) (m_combinedTotal s) (m_docsetRegistry s)
    (docsetPath s) (ui s) (disk s) (tmpCreated s) (qrandCalls s) (effects s).

Definition with_tmpFiles
    (f : gmap string QTemporaryFile → gmap string QTemporaryFile) (s : State) : State :=
  mkState (replies s) (objects s) (nextReply s) (m_availableDocsets s) (m_userFeeds s)
    (f (m_tmpFiles s)) (m_combinedReceived s) (m_combinedTotal s) (m_docsetRegistry s)
    (docsetPath s) (ui s) (disk s) (tmpCreated s) (qrandCalls s) (effects s).

Definition with_combined (received total : Z) (s : State) : State :=
  mkState (replies s) (objects s) (nextReply s) (m_availableDocsets s) (m_userFeeds s)
    (m_tmpFiles s) received total (m_docsetRegistry s)
    (docsetPath s) (ui s) (disk s) (tmpCreated s) (qrandCalls s) (effects s).

Definition with_registry (f : gmap string Docset → gmap string Docset) (s : State) : State :=
  mkState (replies s) (objects s) (nextReply s) (m_availableDocsets s) (m_userFeeds s)
    (m_tmpFiles s) (m_combinedReceived s) (m_combinedTotal s) (f (m_docsetRegistry s))
    (docsetPath s) (ui s) (disk s) (tmpCreated s) (qrandCalls s) (effects s).

Definition with_ui (f : Ui → Ui) (s : State) : State :=
  mkState (replies s) (objects s) (nextReply s) (m_availableDocsets s) (m_userFeeds s)
    (m_tmpFiles s) (m_combinedReceived s) (m_combinedTotal s) (m_docsetRegistry s)
    (docsetPath s) (f (ui s)) (disk s) (tmpCreated s) (qrandCalls s) (effects s).

Definition with_disk (f : gmap string QByteArray → gmap string QByteArray) (s : State) : State :=
  mkState (replies s) (objects s) (nextReply s) (m_availableDocsets s) (m_userFeeds s)
    (m_tmpFiles s) (m_combinedReceived s) (m_combinedTotal s) (m_docsetRegistry s)
    (docsetPath s) (ui s) (f (disk s)) (tmpCreated s) (qrandCalls s) (effects s).

Definition with_tmpCreated (f : nat → nat) (s : State) : State :=
  mkState (replies s) (objects s) (nextReply s) (m_availableDocsets s) (m_userFeeds s)
    (m_tmpFiles s) (m_combinedReceived s) (m_combinedTotal s) (m_docsetRegistry s)
    (docsetPath s) (ui s) (disk s) (f (tmpCreated s)) (qrandCalls s) (effects s).

Definition with_qrandCalls (f : nat → nat) (s : State) : State :=
  mkState (replies s) (objects s) (nextReply s) (m_availableDocsets s) (m_userFeeds s)
    (m_tmpFiles s) (m_combinedReceived s) (m_combinedTotal s) (m_docsetRegistry s)
    (docsetPath s) (ui s) (disk s) (tmpCreated s) (f (qrandCalls s)) (effects s).

Definition with_effects (f : list Effect → list Effect) (s : State) : State :=
  mkState (replies s) (objects s) (nextReply s) (m_availableDocsets s) (m_userFeeds s)
    (m_tmpFiles s) (m_combinedReceived s) (m_combinedTotal s) (m_docsetRegistry s)
    (docsetPath s) (ui s) (disk s) (tmpCreated s) (qrandCalls s) (f (effects s)).

Definition ui_items (f : list QListWidgetItem → list QListWidgetItem) (u : Ui) : Ui :=
  mkUi (f (availableDocsetList u)) (availableDocsetList_enabled u) (downloadableGroup_visible u)
    (docsetsProgress_value u) (docsetsProgress_maximum u) (docsetsProgress_visible u)
    (downloadButton_visible u) (downloadButton_enabled u) (downloadDocsetButton_text u)
    (updateButton_enabled u) (addFeedButton_enabled u) (deleteButton_visible u).

Definition ui_listEnabled (b : bool) (u : Ui) : Ui :=
  mkUi (availableDocsetList u) b (downloadableGroup_visible u)
    (docsetsProgress_value u) (docsetsProgress_maximum u) (docsetsProgress_visible u)
    (downloadButton_visible u) (downloadButton_enabled u) (downloadDocsetButton_text u)
    (updateButton_enabled u) (addFeedButton_enabled u) (deleteButton_visible u).

Definition ui_groupVisible (b : bool) (u : Ui) : Ui :=
  mkUi (availableDocsetList u) (availableDocsetList_enabled u) b
    (docsetsProgress_value u) (docsetsProgress_maximum u) (docsetsProgress_visible u)
    (downloadButton_visible u) (downloadButton_enabled u) (downloadDocsetButton_text u)
    (updateButton_enabled u) (addFeedButton_enabled u) (deleteButton_visible u).

Definition ui_progressValue (v : Z) (u : Ui) : Ui :=
  mkUi (availableDocsetList u) (availableDocsetList_enabled u) (downloadableGroup_visible u)
    v (docsetsProgress_maximum u) (docsetsProgress_visible u)
    (downloadButton_visible u) (downloadButton_enabled u) (downloadDocsetButton_text u)
    (updateButton_enabled u) (addFeedButton_enabled u) (deleteButton_visible u).

Definition ui_progressMaximum (v : Z) (u : Ui) : Ui :=
  mkUi (availableDocsetList u) (availableDocsetList_enabled u) (downloadableGroup_visible u)
    (docsetsProgress_value u) v (docsetsProgress_visible u)
    (downloadButton_visible u) (downloadButton_enabled u) (downloadDocsetButton_text u)
    (updateButton_enabled u) (addFeedButton_enabled u) (deleteButton_visible u).

Definition ui_progressVisible (b : bool) (u : Ui) : Ui :=
  mkUi (availableDocsetList u) (availableDocsetList_enabled u) (downloadableGroup_visible u)
    (docsetsProgress_value u) (docsetsProgress_maximum u) b
    (downloadButton_visible u) (downloadButton_enabled u) (downloadDocsetButton_text u)
    (updateButton_enabled u) (addFeedButton_enabled u) (deleteButton_visible u).

Definition ui_downloadButtonVisible (b : bool) (u : Ui) : Ui :=
  mkUi (availableDocsetList u) (availableDocsetList_enabled u) (downloadableGroup_visible u)
    (docsetsProgress_value u) (docsetsProgress_maximum u) (docsetsProgress_visible u)
    b (downloadButton_enabled u) (downloadDocsetButton_text u)
    (updateButton_enabled u) (addFeedButton_enabled u) (deleteButton_visible u).

Definition ui_downloadButtonEnabled (b : bool) (u : Ui) : Ui :=
  mkUi (availableDocsetList u) (availableDocsetList_enabled u) (downloadableGroup_visible u)
    (docsetsProgress_value u) (docsetsProgress_maximum u) (docsetsProgress_visible u)
    (downloadButton_visible u) b (downloadDocsetButton_text u)
    (updateButton_enabled u) (addFeedButton_enabled u) (deleteButton_visible u).

Definition ui_downloadDocsetButtonText (t : string) (u : Ui) : Ui :=
  mkUi (availableDocsetList u) (availableDocsetList_enabled u) (downloadableGroup_visible u)
    (docsetsProgress_value u) (docsetsProgress_maximum u) (docsetsProgress_visible u)
    (downloadButton_visible u) (downloadButton_enabled u) t
    (updateButton_enabled u) (addFeedButton_enabled u) (deleteButton_visible u).

Definition ui_updateButtonEnabled (b : bool) (u : Ui) : Ui :=
  mkUi (availableDocsetList u) (availableDocsetList_enabled u) (downloadableGroup_visible u)
    (docsetsProgress_value u) (docsetsProgress_maximum u) (docsetsProgress_visible u)
    (downloadButton_visible u) (downloadButton_enabled u) (downloadDocsetButton_text u)
    b (addFeedButton_enabled u) (deleteButton_visible u).

Definition ui_addFeedButtonEnabled (b : bool) (u : Ui) : Ui :=
  mkUi (availableDocsetList u) (availableDocsetList_enabled u) (downloadableGroup_visible u)
    (docsetsProgress_value u) (docsetsProgress_maximum u) (docsetsProgress_visible u)
    (downloadButton_visible u) (downloadButton_enabled u) (downloadDocsetButton_text u)
    (updateButton_enabled u) b (deleteButton_visible u).

Definition ui_deleteButtonVisible (b : bool) (u : Ui) : Ui :=
  mkUi (availableDocsetList u) (availableDocsetList_enabled u) (downloadableGroup_visible u)
    (docsetsProgress_value u) (docsetsProgress_maximum u) (docsetsProgress_visible u)
    (downloadButton_visible u) (downloadButton_enabled u) (downloadDocsetButton_text u)
    (updateButton_enabled u) (addFeedButton_enabled u) b.

Definition item_setHidden (b : bool) (i : QListWidgetItem) : QListWidgetItem :=
  mkItem (item_text i) (item_docsetName i) (item_checked i) b
         (item_showProgress i) (item_value i) (item_format i).

Definition item_setChecked (b : bool) (i : QListWidgetItem) : QListWidgetItem :=
  mkItem (item_text i) (item_docsetName i) b (item_hidden i)
         (item_showProgress i) (item_value i) (item_format i).

Definition item_setShowProgress (b : bool) (i : QListWidgetItem) : QListWidgetItem :=
  mkItem (item_text i) (item_docsetName i) (item_checked i) (item_hidden i)
         b (item_value i) (item_format i).

Definition item_setValue (v : Z) (i : QListWidgetItem) : QListWidgetItem :=
  mkItem (item_text i) (item_docsetName i) (item_checked i) (item_hidden i)
         (item_showProgress i) v (item_format i).

Definition item_setFormat (t : string) (i : QListWidgetItem) : QListWidgetItem :=
  mkItem (item_text i) (item_docsetName i) (item_checked i) (item_hidden i)
         (item_showProgress i) (item_value i) t.

(** ** What the dialog takes from its surroundings

    Functions of Qt and of the application that the dialog calls and whose
    bodies are no part of it. *)

Class Platform := {
  (** [base.resolved(relative)] *)
  resolved : QUrl → QUrl → QUrl;
  (** [QUrl(const QString &)] *)
  QUrl_fromString : string → QUrl;
  (** [QUrl::fromPercentEncoding] *)
  fromPercentEncoding : string → string;
  (** [DocsetMetadata::fromDashFeed(feedUrl, data)] *)
  fromDashFeed : QUrl → QByteArray → DocsetMetadata;
  (** [DocsetMetadata::url()]: the URL to download the docset from *)
  DocsetMetadata_url : DocsetMetadata → QUrl;
  (** [QJsonDocument::fromJson]: the parse error, or the array of the document *)
  fromJson : QByteArray → string + list QJsonValue;
  (** [QDir(dir).absoluteFilePath(name)] *)
  absoluteFilePath : string → string → string;
  (** the docset that [DocsetRegistry::addDocset(path)] reads at [path] *)
  loadDocset : string → Docset;
  (** the name of the n-th [QTemporaryFile] *)
  tempFileName : nat → string;
  (** the value of the n-th call of [qrand()] *)
  qrand_value : nat → Z;
  (** the [DownloadType] whose value is [0] ([settingsdialog.h]) *)
  downloadTypeOfZero : DownloadType
}.

(** ** Slots as state transformers *)

Definition M (A : Type) : Type := State → A * State.

Definition ret {A} (a : A) : M A := λ s, (a, s).
Definition bind {A B} (c : M A) (k : A → M B) : M B :=
  λ s, let (a, s') := c s in k a s'.
Definition get : M State := λ s, (s, s).
Definition modify (f : State → State) : M unit := λ s, (tt, f s).
Definition exec {A} (c : M A) (s : State) : State := (c s).2.

Notation "'let*' x := c 'in' k" := (bind c (λ x, k))
  (at level 10, x name, c at level 100, k at level 200).
Notation "c ;; k" := (bind c (λ _, k))
  (at level 100, k at level 200, right associativity).

Definition when (b : bool) (c : M unit) : M unit := if b then c else ret tt.

Fixpoint forEach {A} (l : list A) (body : A → M unit) : M unit :=
  match l with
  | [] => ret tt
  | x :: l' => body x ;; forEach l' body
  end.

Definition emit (e : Effect) : M unit := modify (with_effects (λ l, (l ++ [e])%list)).

Definition setUi (f : Ui → Ui) : M unit := modify (with_ui f).

(** [QList::removeOne]: removes the first occurrence. *)
Fixpoint removeOne (p : ReplyPtr) (l : list ReplyPtr) : list ReplyPtr :=
  match l with
  | [] => []
  | q :: l' => if decide (q = p) then l' else q :: removeOne p l'
  end.

(** *** List items

    A [QListWidgetItem *] of the list of available docsets is the row of
    the item; the null pointer is [None]. *)

(** [ui->availableDocsetList->item(row)]: null when out of range. *)
Definition item (row : Z) (s : State) : option nat :=
  if decide (0 <= row < Z.of_nat (length (availableDocsetList (ui s))))%Z
  then Some (Z.to_nat row) else None.

(** [ui->availableDocsetList->row(item)]: [-1] for the null pointer. *)
Definition row (it : option nat) : Z :=
  match it with Some i => Z.of_nat i | None => (-1)%Z end.

Fixpoint findItems (title : string) (from : nat) (items : list QListWidgetItem) : list nat :=
  match items with
  | [] => []
  | i :: items' =>
      if matchFixedString (item_text i) title
      then from :: findItems title (S from) items'
      else findItems title (S from) items'
  end.

Definition findDocsetListItem (title : string) (s : State) : option nat :=
  head (findItems title 0 (availableDocsetList (ui s))).

Definition setItem (i : nat) (f : QListWidgetItem → QListWidgetItem) : M unit :=
  setUi (ui_items (alter f i)).

(** [if (item) item->...]: nothing is done for the null pointer. *)
Definition ifItem (it : option nat) (f : QListWidgetItem → QListWidgetItem) : M unit :=
  match it with Some i => setItem i f | None => ret tt end.

(** *** Reply properties

    [toInt] of an invalid [QVariant] is [0]. *)
Definition listItemIndex (r : QNetworkReply) : Z := default 0%Z (ListItemIndexProperty r).

Definition reply_setMetadata (v : option DocsetMetadata) (r : QNetworkReply) : QNetworkReply :=
  mkReply (request_url r) v (DownloadTypeProperty r) (DownloadPreviousReceived r)
          (ListItemIndexProperty r).

Definition reply_setDownloadType (v : option DownloadType) (r : QNetworkReply) : QNetworkReply :=
  mkReply (request_url r) (DocsetMetadataProperty r) v (DownloadPreviousReceived r)
          (ListItemIndexProperty r).

Definition reply_setPreviousReceived (v : option Z) (r : QNetworkReply) : QNetworkReply :=
  mkReply (request_url r) (DocsetMetadataProperty r) (DownloadTypeProperty r) v
          (ListItemIndexProperty r).

Definition reply_setListItemIndex (v : option Z) (r : QNetworkReply) : QNetworkReply :=
  mkReply (request_url r) (DocsetMetadataProperty r) (DownloadTypeProperty r)
          (DownloadPreviousReceived r) v.

(** [reply->setProperty(..)] through the pointer. *)
Definition setProperty (p : ReplyPtr) (f : QNetworkReply → QNetworkReply) : M unit :=
  modify (with_objects (alter f p)).

(** [map[key]] on a map that is not [const]: a missing key is inserted
    with a default constructed value. *)
Definition index_userFeeds (key : string) : M DocsetMetadata :=
  let* s := get in
  match m_userFeeds s !! key with
  | Some m => ret m
  | None =>
      modify (with_userFeeds (insert key DocsetMetadata_default)) ;;
      ret DocsetMetadata_default
  end.

(** The values of a [QMap] in the order of its keys. *)
Definition key_le (a b : string * DocsetMetadata) : Prop := String.leb a.1 b.1 = true.

Global Instance key_le_dec a b : Decision (key_le a b).
Proof. unfold key_le. apply _. Defined.

Definition qmap_values (m : gmap string DocsetMetadata) : list DocsetMetadata :=
  (merge_sort key_le (map_to_list m)).*2.

(** *** The progress bar

    [QProgressBar], as Qt documents it.  The dialog never sets the
    minimum of the bar: it is the [0] that a [QProgressBar] is
    constructed with. *)

(** [QProgressBar::setValue]: a value outside the range of the bar is
    ignored, unless minimum and maximum are both [0]. *)
Definition QProgressBar_setValue (value : Z) (u : Ui) : Ui :=
  let maximum := docsetsProgress_maximum u in
  ui_progressValue
    (if bool_decide (maximum < value ∨ value < 0)%Z && negb (bool_decide (maximum = 0%Z))
     then docsetsProgress_value u else value) u.

(** [QProgressBar::setMaximum], for a maximum that is not below the
    minimum: when the range changes, a value that is above the new
    maximum or more than one below the minimum is reset, to one below
    the minimum. *)
Definition QProgressBar_setMaximum (maximum : Z) (u : Ui) : Ui :=
  let value := docsetsProgress_value u in
  ui_progressMaximum maximum
    (ui_progressValue
       (if negb (bool_decide (maximum = docsetsProgress_maximum u))
           && bool_decide (value < -1 ∨ maximum < value)%Z
        then (-1)%Z else value) u).

Section Dialog.
Context `{Platform}.

(** *** Progress *)

Definition displayProgress : M unit :=
  let* s := get in
  setUi (QProgressBar_setValue (percent (m_combinedReceived s) (m_combinedTotal s))) ;;
  setUi (QProgressBar_setMaximum 100) ;;
  setUi (ui_progressVisible (negb (bool_decide (replies s = [])))).

Definition resetProgress : M unit :=
  modify (with_combined 0 0) ;;
  displayProgress ;;
  let* s := get in
  setUi (ui_downloadButtonVisible (bool_decide (m_availableDocsets s = ∅))) ;;
  setUi (ui_downloadDocsetButtonText (tr "Download")) ;;
  setUi (ui_downloadButtonEnabled true) ;;
  setUi (ui_updateButtonEnabled true) ;;
  setUi (ui_addFeedButtonEnabled true) ;;
  setUi (ui_listEnabled true).

(** *** Transfers *)

Definition startDownload (url : QUrl) : M ReplyPtr :=
  displayProgress ;;
  let* s := get in
  let reply := nextReply s in
  (* m_application->download(url) *)
  modify (with_nextReply S) ;;
  modify (with_objects (insert reply (mkReply url None None None None))) ;;
  emit (Download url reply) ;;
  modify (with_replies (λ l, (l ++ [reply])%list)) ;;
  setUi (ui_downloadDocsetButtonText (tr "Stop downloads")) ;;
  setUi (ui_downloadButtonEnabled false) ;;
  setUi (ui_updateButtonEnabled false) ;;
  setUi (ui_addFeedButtonEnabled false) ;;
  ret reply.

(** The slot of [QNetworkReply::downloadProgress]; [sender] is the reply
    that emitted the signal, [received] and [total] are values of
    [qint64], and so are the two counters of the dialog. *)
Definition on_downloadProgress (sender : ReplyPtr) (received total : Z) : M unit :=
  if bool_decide (total = -1)%Z || bool_decide (received < 10240)%Z then ret tt
  else
    let* s := get in
    match objects s !! sender with
    | None => ret tt
    | Some reply =>
        ifItem (item (listItemIndex reply) s) (item_setValue (percent received total)) ;;
        let previousReceived := default 0%Z (DownloadPreviousReceived reply) in
        let* s := get in
        when (bool_decide (DownloadPreviousReceived reply = None))
             (modify (with_combined (m_combinedReceived s)
                                    (wrap64 (m_combinedTotal s + total)))) ;;
        let* s := get in
        modify (with_combined
                  (wrap64 (m_combinedReceived s + wrap64 (received - previousReceived)))
                  (m_combinedTotal s)) ;;
        setProperty sender (reply_setPreviousReceived (Some received)) ;;
        displayProgress
    end.

(** *** The catalog *)

Definition processDocsetList (list : list QJsonValue) : M unit :=
  forEach list (λ v,
    let docsetJson := <["source" := "kapeli"]> (toObject v) in
    let metadata := DocsetMetadata_fromJson docsetJson in
    modify (with_availableDocsets (insert (md_name metadata) metadata))) ;;
  let* s := get in
  forEach (qmap_values (m_availableDocsets s)) (λ metadata,
    let* s := get in
    let listItem :=
      mkItem (md_title metadata) (md_name metadata) false
             (DocsetRegistry.contains (md_name metadata) (m_docsetRegistry s))
             false 0 "" in
    setUi (ui_items (λ l, (l ++ [listItem])%list))).

Definition downloadDocsetList : M unit :=
  setUi (ui_downloadButtonVisible false) ;;
  setUi (ui_items (λ _, [])) ;;
  modify (with_availableDocsets (λ _, ∅)) ;;
  let* reply := startDownload (QUrl_fromString ("http://api.zealdocs.org" +:+ "/docsets")) in
  setProperty reply (reply_setDownloadType (Some DownloadDocsetList)).

Definition kapeliUrls : list string :=
  [ "http://sanfrancisco.kapeli.com"; "http://sanfrancisco2.kapeli.com";
    "http://london.kapeli.com"; "http://london2.kapeli.com"; "http://london3.kapeli.com";
    "http://newyork.kapeli.com"; "http://newyork2.kapeli.com";
    "http://sydney.kapeli.com"; "http://tokyo.kapeli.com"; "http://tokyo2.kapeli.com" ].

Definition downloadDashDocset (name : string) : M unit :=
  let* s := get in
  match m_availableDocsets s !! name with
  | None => ret tt
  | Some metadata =>
      let r := qrand_value (qrandCalls s) in
      modify (with_qrandCalls S) ;;
      let mirror :=
        default "" (kapeliUrls !! Z.to_nat (Z.rem r (Z.of_nat (length kapeliUrls)))) in
      let url := QUrl_fromString (mirror +:+ "/feeds/" +:+ name +:+ ".tgz") in
      let* reply := startDownload url in
      setProperty reply (reply_setMetadata (Some metadata)) ;;
      setProperty reply (reply_setDownloadType (Some DownloadDocset)) ;;
      let* s := get in
      setProperty reply
        (reply_setListItemIndex (Some (row (findDocsetListItem (md_title metadata) s))))
  end.

(** *** Completion of a transfer *)

Definition completedDocsetList (rsp : Response) : M unit :=
  match fromJson (rsp_body rsp) with
  | inl errorString =>
      emit (MessageBox Warning (tr "Error") (tr "Corrupted docset list: " +:+ errorString))
  | inr array =>
      processDocsetList array ;;
      let* s := get in
      when (negb (bool_decide (m_availableDocsets s = ∅))) (setUi (ui_groupVisible true)) ;;
      resetProgress
  end.

Definition completedDashFeed (reply : QNetworkReply) (rsp : Response) : M unit :=
  let metadata := fromDashFeed (request_url reply) (rsp_body rsp) in
  if bool_decide (md_urls metadata = []) then
    emit (MessageBox Critical "Zeal" (tr "Invalid docset feed!"))
  else
    let oldMetadata := default DocsetMetadata_default (DocsetMetadataProperty reply) in
    when (bool_decide (md_version metadata = "")
          || negb (bool_decide (md_version oldMetadata = md_version metadata)))
      (modify (with_userFeeds (insert (md_name metadata) metadata)) ;;
       let* newReply := startDownload (DocsetMetadata_url metadata) in
       setProperty newReply (reply_setMetadata (Some metadata)) ;;
       setProperty newReply (reply_setDownloadType (Some DownloadDocset))).

Definition completedDocset (reply : QNetworkReply) (rsp : Response) : M unit :=
  let metadata := default DocsetMetadata_default (DocsetMetadataProperty reply) in
  (* the temporary file receives the whole body, chunk by chunk *)
  let* s := get in
  let tmpFile := mkTmp (tempFileName (tmpCreated s)) in
  modify (with_tmpCreated S) ;;
  modify (with_disk (insert (fileName tmpFile) (rsp_body rsp))) ;;
  let* s := get in
  ifItem (findDocsetListItem (md_title metadata) s)
         (λ i, item_setFormat (tr "Installing: %p%") (item_setValue 0 i)) ;;
  modify (with_tmpFiles (insert (md_name metadata) tmpFile)) ;;
  let* s := get in
  emit (Extract (fileName tmpFile) (docsetPath s) (md_name metadata +:+ ".docset")).

(** The redirection of a transfer: a new transfer to the target, with the
    properties of the old one. *)
Definition redirectTarget (reply : QNetworkReply) (redirectUrl : QUrl) : QUrl :=
  let redirectUrl :=
    if url_isRelative redirectUrl then resolved (request_url reply) redirectUrl
    else redirectUrl in
  if bool_decide (url_scheme redirectUrl = "")
  then url_setScheme (url_scheme (request_url reply)) redirectUrl
  else redirectUrl.

Definition followRedirect (reply : QNetworkReply) (redirectUrl : QUrl) : M unit :=
  let* newReply := startDownload (redirectTarget reply redirectUrl) in
  setProperty newReply (reply_setMetadata (DocsetMetadataProperty reply)) ;;
  setProperty newReply (reply_setDownloadType (DownloadTypeProperty reply)) ;;
  setProperty newReply (reply_setListItemIndex (ListItemIndexProperty reply)).

(** [static_cast<DownloadType>(property.toUInt())] *)
Definition downloadType (reply : QNetworkReply) : DownloadType :=
  default downloadTypeOfZero (DownloadTypeProperty reply).

(** The slot of [QNetworkReply::finished].  [sender] is the reply that
    finished, a live object; the scoped pointer hands it to [deleteLater]
    on every path. *)
Definition downloadCompleted (sender : ReplyPtr) (rsp : Response) : M unit :=
  let* s := get in
  match objects s !! sender with
  | None => ret tt
  | Some reply =>
      modify (with_replies (removeOne sender)) ;;
      (if negb (bool_decide (rsp_error rsp = NoError)) then
         when (negb (bool_decide (rsp_error rsp = OperationCanceledError)))
              (emit (MessageBox Warning (tr "Network Error") (rsp_errorString rsp)))
       else
         let redirectUrl := rsp_redirectionTarget rsp in
         if url_isValid redirectUrl then followRedirect reply redirectUrl
         else
           match downloadType reply with
           | DownloadDocsetList => completedDocsetList rsp
           | DownloadDashFeed => completedDashFeed reply rsp
           | DownloadDocset => completedDocset reply rsp
           end ;;
           (* If all enqueued downloads have finished executing *)
           let* s := get in
           when (bool_decide (replies s = [])) resetProgress) ;;
      modify (with_objects (delete sender))
  end.

(** *** Stopping *)

(** [reply->abort()] makes the reply finish with [OperationCanceledError].
    The model records the abort and leaves the completion that it causes
    to a later call of [downloadCompleted]; it does not describe a
    completion that is delivered inside the loop, where it would change
    [replies] under the iteration. *)
Definition stopDownloads : M unit :=
  let* s := get in
  forEach (replies s) (λ reply,
    let* s := get in
    match objects s !! reply with
    | None => ret tt
    | Some r =>
        (* Hide progress bar *)
        match item (listItemIndex r) s with
        | None => ret tt                       (* continue *)
        | Some listItem =>
            setItem listItem (item_setShowProgress false) ;;
            emit (Abort reply)
        end
    end) ;;
  resetProgress.

Definition on_downloadDocsetButton_clicked : M unit :=
  let* s := get in
  if negb (bool_decide (replies s = [])) then stopDownloads
  else
    (* Find each checked item, and create a NetworkRequest for it. *)
    forEach (seq 0 (length (availableDocsetList (ui s)))) (λ i,
      let* s := get in
      match availableDocsetList (ui s) !! i with
      | None => ret tt
      | Some it =>
          if negb (item_checked it) then ret tt
          else
            setItem i (λ x, item_setShowProgress true
                              (item_setValue 0 (item_setFormat (tr "Downloading: %p%") x))) ;;
            downloadDashDocset (item_docsetName it)
      end) ;;
    let* s := get in
    when (negb (bool_decide (replies s = [])))
         (setUi (ui_downloadDocsetButtonText (tr "Stop downloads"))).

Definition on_tabWidget_currentChanged (isDocsetsTab : bool) : M unit :=
  let* s := get in
  if negb isDocsetsTab || negb (bool_decide (availableDocsetList (ui s) = []))
  then ret tt
  else downloadDocsetList.

(** *** Feeds *)

(** [clipboard] is the text of the clipboard and [getText] the answer of
    the input dialog to the text it is opened with. *)
Definition addDashFeed (clipboard : string) (getText : string → string) : M unit :=
  let txt := if startsWith "dash-feed://" clipboard then clipboard else "" in
  let feedUrl := getText txt in
  if bool_decide (feedUrl = "") then ret tt
  else
    let feedUrl :=
      if startsWith "dash-feed://" feedUrl
      then fromPercentEncoding (dropChars 12 feedUrl) else feedUrl in
    let* reply := startDownload (QUrl_fromString feedUrl) in
    setProperty reply (reply_setDownloadType (Some DownloadDashFeed)).

Inductive StandardButton := Yes | No.

Definition updateFeedDocsets (answer : StandardButton) : M unit :=
  setUi (ui_groupVisible true) ;;
  let* s := get in
  let docsets := DocsetRegistry.docsets (m_docsetRegistry s) in
  forEach docsets (λ docset,
    if negb (docset_hasMetadata docset) then ret tt
    else
      let feedUrl := md_feedUrl (docset_metadata docset) in
      (* Skip not manually added feeds *)
      if url_isEmpty feedUrl then ret tt
      else
        let* reply := startDownload feedUrl in
        setProperty reply (reply_setDownloadType (Some DownloadDashFeed)) ;;
        let* s := get in
        match findDocsetListItem (docset_title docset) s with
        | Some listItem =>
            setProperty reply (reply_setListItemIndex (Some (row (Some listItem))))
        | None => ret tt
        end ;;
        setProperty reply (reply_setMetadata (Some (docset_metadata docset)))) ;;
  let missingMetadata := existsb (λ d, negb (docset_hasMetadata d)) docsets in
  if negb missingMetadata then ret tt
  else
    emit (MessageBox Information "Zeal"
            (tr "Some docsets are missing metadata, would you like to redownload all docsets with missing metadata?")) ;;
    match answer with
    | No => ret tt
    | Yes =>
        let* s := get in
        when (bool_decide (m_availableDocsets s = ∅)) downloadDocsetList ;;
        emit AwaitCatalog
    end.

(** What the watcher of [updateFeedDocsets] runs once the catalog is
    loaded and no transfer is active. *)
Definition updateFeedDocsets_finished : M unit :=
  let* s := get in
  forEach (DocsetRegistry.docsets (m_docsetRegistry s)) (λ docset,
    let* s := get in
    when (negb (bool_decide (md_source (docset_metadata docset) = ""))
          && bool_decide (is_Some (m_availableDocsets s !! docset_name docset)))
         (downloadDashDocset (docset_name docset))).

(** *** Extraction *)

(** The key of the temporary file named [filePath], the empty text when
    there is none. *)
Definition tmpFileKey (filePath : string) (s : State) : string :=
  default "" (fst <$> List.find (λ kv, bool_decide (fileName kv.2 = filePath))
                                (map_to_list (m_tmpFiles s))).

(** [m_availableDocsets.contains(n) ? m_availableDocsets[n] : m_userFeeds[n]] *)
Definition metadataOf (docsetName : string) : M DocsetMetadata :=
  let* s := get in
  match m_availableDocsets s !! docsetName with
  | Some m => ret m
  | None => index_userFeeds docsetName
  end.

(** [delete m_tmpFiles.take(key)]: the entry leaves the table, and the
    destructor of the temporary file removes the file. *)
Definition deleteTmpFile (key : string) : M unit :=
  let* s := get in
  match m_tmpFiles s !! key with
  | None => ret tt
  | Some tmpFile =>
      modify (with_tmpFiles (delete key)) ;;
      modify (with_disk (delete (fileName tmpFile)))
  end.

Definition extractionCompleted (filePath : string) : M unit :=
  let* s := get in
  let docsetName := tmpFileKey filePath s in
  let docsetPath := absoluteFilePath (docsetPath s) (docsetName +:+ ".docset") in
  (* Write metadata about docset *)
  let* metadata := metadataOf docsetName in
  emit (MetadataToFile (docsetPath +:+ "/meta.json") metadata) ;;
  modify (with_registry (DocsetRegistry.add (loadDocset docsetPath))) ;;
  let* s := get in
  ifItem (findDocsetListItem (md_title metadata) s)
         (λ i, item_setShowProgress false (item_setChecked false (item_setHidden true i))) ;;
  resetProgress ;;
  deleteTmpFile docsetName.

Definition extractionError (filePath errorString : string) : M unit :=
  let docsetName := baseName filePath +:+ ".docset" in
  emit (MessageBox Warning (tr "Extraction Error")
          (tr "Cannot extract docset <b>" +:+ docsetName +:+ "</b>: " +:+ errorString)) ;;
  deleteTmpFile docsetName.

Definition extractionProgress (filePath : string) (extracted total : Z) : M unit :=
  let* s := get in
  let docsetName := tmpFileKey filePath s in
  let* metadata := metadataOf docsetName in
  let* s := get in
  ifItem (findDocsetListItem (md_title metadata) s) (item_setValue (percent extracted total)).

(** *** Deleting a docset

    [docsetTitle] and [docsetName] are the data of the current row of the
    list of installed docsets, [answer] is the answer to the question and
    [dataDirExists] tells if the directory of the docsets exists. *)
Definition on_deleteButton_clicked
    (docsetTitle docsetName : string) (answer : StandardButton) (dataDirExists : bool)
    : M unit :=
  emit (MessageBox Question (tr "Remove Docset")
          (arg1 (tr "Do you really want to remove <b>") docsetTitle "</b> docset?")) ;;
  match answer with
  | No => ret tt
  | Yes =>
      modify (with_registry (DocsetRegistry.remove docsetName)) ;;
      when dataDirExists
        (setUi (ui_progressVisible true) ;;
         setUi (ui_deleteButtonVisible false) ;;
         displayProgress ;;
         let* s := get in
         emit (RemoveRecursively (docsetPath s) (docsetName +:+ ".docset")))
  end.

(** What the watcher of the removal runs when the worker is done;
    [result] tells if the directory was removed. *)
Definition on_deleteButton_finished (docsetTitle : string) (result : bool) : M unit :=
  when (negb result)
       (emit (MessageBox Warning (tr "Error")
                (arg1 (tr "Cannot delete docset <b>") docsetTitle "</b>!"))) ;;
  resetProgress ;;
  setUi (ui_deleteButtonVisible true) ;;
  let* s := get in
  ifItem (findDocsetListItem docsetTitle s) (item_setHidden false).

End Dialog.

(** ** Runs of the dialog *)

Section Runs.
Context `{Platform}.

(** A response that [downloadCompleted] treats as a redirection: no error,
    and a valid URL as the redirection target. *)
Definition isRedirect (rsp : Response) : bool :=
  bool_decide (rsp_error rsp = NoError) && url_isValid (rsp_redirectionTarget rsp).

(** The completions of one transfer and of the transfers that continue
    it: the first response answers [sender], and each further response
    answers the reply that the dialog created on the response before it
    (the object [nextReply] named then).  The result is the reply that the
    next response would answer. *)
Fixpoint followChain (sender : ReplyPtr) (rsps : list Response) : M ReplyPtr :=
  match rsps with
  | [] => ret sender
  | rsp :: rsps' =>
      let* s := get in
      downloadCompleted sender rsp ;;
      followChain (nextReply s) rsps'
  end.

Definition isDownload (e : Effect) : bool :=
  match e with Download _ _ => true | _ => false end.

Definition isAbort (e : Effect) : bool :=
  match e with Abort _ => true | _ => false end.

Definition isMessageBox (e : Effect) : bool :=
  match e with MessageBox _ _ _ => true | _ => false end.

(** The transfers started so far. *)
Definition transfersStarted (s : State) : nat :=
  length (filter (λ e, isDownload e = true) (effects s)).

End Runs.

(** Every live reply was created before the reply that [nextReply]
    names. *)
Definition wellFormed (s : State) : Prop :=
  map_Forall (λ p _, (p < nextReply s)%nat) (objects s).

Global Instance wellFormed_dec s : Decision (wellFormed s).
Proof. unfold wellFormed. apply _. Defined.

(** ** The wording of the specification, for comparison *)

(** The percentage as the specification words it:
    [floor(received / total * 100)] clamped to [0..100], and [0] when
    [total] is [0]. *)
Definition percent_spec (received total : Z) : Z :=
  if decide (total = 0) then 0 else Z.max 0 (Z.min 100 (received * 100 / total)).

(** The [name] field of an element of a catalog array, if it has one. *)
Definition nameField (v : QJsonValue) : option string :=
  match v with JsonObject o => o !! "name" | JsonOther => None end.

(** The [name] fields that occur in a catalog array. *)
Definition catalogNames (array : list QJsonValue) : gset string :=
  list_to_set (omap nameField array).

(** A valid catalog array: its elements are objects with at least a
    [name] and a [title]. *)
Definition validEntry (v : QJsonValue) : bool :=
  match v with
  | JsonObject o => bool_decide (is_Some (o !! "name")) && bool_decide (is_Some (o !! "title"))
  | JsonOther => false
  end.

Definition validCatalog (array : list QJsonValue) : bool := forallb validEntry array.

(** The entry that the dialog makes of an element of the catalog array. *)
Definition catalogEntry (v : QJsonValue) : DocsetMetadata :=
  DocsetMetadata_fromJson (<["source" := "kapeli"]> (toObject v)).

(** ** A platform to run the dialog on

    Small stand-ins for the functions of [Platform]: URLs are split at the
    first [':'], a relative reference replaces what follows the scheme of
    the base, a feed is the version and the download URL separated by
    [';'] and takes its name from the file name of its URL, and a catalog
    is the comma separated names of its docsets (['!'] alone is a
    document that does not parse). *)
Module Sample.

Fixpoint splitAt (sep : ascii) (s : string) : string * option string :=
  match s with
  | EmptyString => (EmptyString, None)
  | String c s' =>
      if bool_decide (c = sep) then (EmptyString, Some s')
      else let '(a, b) := splitAt sep s' in (String c a, b)
  end.

Fixpoint splitAll (fuel : nat) (sep : ascii) (s : string) : list string :=
  match fuel with
  | O => [s]
  | S fuel' =>
      match splitAt sep s with
      | (a, None) => [a]
      | (a, Some b) => a :: splitAll fuel' sep b
      end
  end.

Definition urlOf (s : string) : QUrl :=
  match splitAt ":" s with
  | (a, Some b) => mkQUrl a b false
  | (a, None) => mkQUrl "" a false
  end.

Definition feedOf (url : QUrl) (data : QByteArray) : DocsetMetadata :=
  let name := baseName (url_rest url) in
  match splitAt ";" data with
  | (version, Some download) =>
      mkMetadata name name "" version url
                 (if bool_decide (download = "") then [] else [urlOf download]) ""
  | (version, None) => mkMetadata name name "" version url [] ""
  end.

Definition catalogOf (data : QByteArray) : string + list QJsonValue :=
  if bool_decide (data = "!") then inl "illegal value"
  else if bool_decide (data = "") then inr []
  else inr ((λ n, JsonObject {[ "name" := n; "title" := n ]})
              <$> splitAll (String.length data) "," data).

Fixpoint stars (n : nat) : string :=
  match n with O => "" | S n' => String "x" (stars n') end.

Global Instance platform : Platform := {|
  resolved base relative := mkQUrl (url_scheme base) (url_rest relative) false;
  QUrl_fromString := urlOf;
  fromPercentEncoding s := s;
  fromDashFeed := feedOf;
  DocsetMetadata_url m := default QUrl_empty (head (md_urls m));
  fromJson := catalogOf;
  absoluteFilePath dir name := dir +:+ "/" +:+ name;
  loadDocset path := mkDocset (baseName path) (baseName path) false DocsetMetadata_default;
  tempFileName n := "/tmp/zeal." +:+ stars (S n);
  qrand_value n := Z.of_nat n;
  downloadTypeOfZero := DownloadDashFeed
|}.

Definition ui0 : Ui :=
  mkUi [] true false 0 100 false true true "Download" true true true.

(** The dialog as it is opened: nothing in flight, nothing installed. *)
Definition opened : State :=
  mkState [] ∅ 0%nat ∅ ∅ ∅ 0 0 ∅ "/docsets" ui0 ∅ 0%nat 0%nat [].

Definition ok (body : QByteArray) : Response := mkResponse NoError "" QUrl_empty body.

Definition redirectTo (target : string) : Response :=
  mkResponse NoError "" (urlOf target) "".

Definition failed (code : nat) (text : string) : Response :=
  mkResponse (OtherNetworkError code) text QUrl_empty "".

Definition cancelled : Response :=
  mkResponse OperationCanceledError "Operation canceled" QUrl_empty "".

(** A redirection whose connection broke after the headers: the reply
    has its redirection target and an error. *)
Definition brokenRedirect : Response :=
  mkResponse (OtherNetworkError 2) "Connection closed"
             (urlOf "http://mirror.example/go.xml") "".

(** The dialog after a feed was added: one transfer, the reply [0]. *)
Definition fetching : State :=
  exec (addDashFeed "" (λ _, "http://feeds.example/go.xml")) opened.

(** The feed transfer after 20480 of 40960 bytes. *)
Definition downloading : State := exec (on_downloadProgress 0%nat 20480 40960) fetching.

(** The feed was fetched, and then the archive: the docset [go] is
    being extracted from the temporary file [/tmp/zeal.x]. *)
Definition extracting : State :=
  exec (downloadCompleted 1%nat (ok "BYTES"))
       (exec (downloadCompleted 0%nat (ok ";http://x/go.tgz")) fetching).

(** A version [7] of the feed [go], stored by an earlier fetch. *)
Definition go7 : DocsetMetadata :=
  mkMetadata "go" "go" "" "7" (urlOf "http://feeds.example/go.xml")
             [urlOf "http://x/go-7.tgz"] "".

Definition fetchingAgain : State := with_userFeeds (insert "go" go7) fetching.

(** The docsets tab was shown twice while the list was empty: two
    catalog fetches are in flight, the replies [0] and [1]. *)
Definition twoCatalogFetches : State :=
  exec (on_tabWidget_currentChanged true) (exec (on_tabWidget_currentChanged true) opened).

(** The first of them has completed, with the docsets [a] and [c]. *)
Definition firstCatalogLoaded : State :=
  exec (downloadCompleted 0%nat (ok "a,c")) twoCatalogFetches.

(** The docset [go] is installed, with the metadata of its feed. *)
Definition installed : State :=
  with_registry (insert "go" (mkDocset "go" "go" true go7)) opened.

(** The docset [go] is installed at version [7].  Its feed was added
    by hand and answered with version [6], which was stored, and the
    archive was fetched; then the update of the feeds was requested: the
    reply [2] fetches the feed of [go] and carries the metadata of the
    installed docset. *)
Definition updating : State :=
  exec (updateFeedDocsets No)
    (exec (downloadCompleted 1%nat (ok "BYTES"))
       (exec (downloadCompleted 0%nat (ok "6;http://x/go-6.tgz"))
          (exec (addDashFeed "" (λ _, "http://feeds.example/go.xml")) installed))).

Definition redirections (n : nat) : list Response :=
  replicate n (redirectTo "http://mirror.example/go.xml").

End Sample.

(** The percentage of [received] of [total] is the exact floor or falls
    one below it; checked by evaluation for [received = 0 .. total] and
    every [total] from [1] to [bound]. *)
Definition percentRowOk (total received : nat) : bool :=
  let p := percent (Z.of_nat received) (Z.of_nat total) in
  let q := percent_spec (Z.of_nat received) (Z.of_nat total) in
  (q - 1 <=? p)%Z && (p <=? q)%Z.

Definition percentTableOk (bound : nat) : bool :=
  forallb (λ total, forallb (percentRowOk total) (seq 0 (S total))) (seq 1 bound).

(** The replies for which [stopDownloads] finds a list item: live
    replies whose list item index is a row of the list of available
    docsets. *)
Definition listed (s : State) (p : ReplyPtr) : bool :=
  match objects s !! p with
  | Some r => bool_decide (is_Some (item (listItemIndex r) s))
  | None => false
  end.

(** The catalog after the entries of an array were inserted, one after
    the other. *)
Definition insertEntries (m : gmap string DocsetMetadata) (array : list QJsonValue)
    : gmap string DocsetMetadata :=
  foldl (λ m v, <[md_name (catalogEntry v) := catalogEntry v]> m) m array.

(** ** Redirections, as relations between states *)

(** The state [s'] after the reply [sender] of [s], with properties
    [reply], was redirected to [url]: one transfer more, to [url] and with
    the properties of [reply]; the docsets, feeds, temporary files,
    registry and counters of [s]. *)
Record Redirected (sender : ReplyPtr) (reply : QNetworkReply) (url : QUrl) (s s' : State)
    : Prop := {
  redirected_effects : effects s' = (effects s ++ [Download url (nextReply s)])%list;
  redirected_replies : replies s' = (removeOne sender (replies s) ++ [nextReply s])%list;
  redirected_next : nextReply s' = S (nextReply s);
  redirected_objects :
    objects s' =
      delete sender
        (<[nextReply s := mkReply url (DocsetMetadataProperty reply)
                            (DownloadTypeProperty reply) None (ListItemIndexProperty reply)]>
           (objects s));
  redirected_available : m_availableDocsets s' = m_availableDocsets s;
  redirected_feeds : m_userFeeds s' = m_userFeeds s;
  redirected_tmp : m_tmpFiles s' = m_tmpFiles s;
  redirected_registry : m_docsetRegistry s' = m_docsetRegistry s;
  redirected_disk : disk s' = disk s;
  redirected_combined :
    (m_combinedReceived s', m_combinedTotal s') = (m_combinedReceived s, m_combinedTotal s)
}.

(** What [n] redirections in a row leave of [s]: [r] is the reply to be
    answered next and the state.  That reply is live and active and
    carries the properties of [reply]; nothing but transfers was started,
    one for each redirection; the docsets, feeds, temporary files,
    registry and counters are those of [s]. *)
Record Continued (reply : QNetworkReply) (n : nat) (s : State) (r : ReplyPtr * State)
    : Prop := {
  continued_wf : wellFormed r.2;
  continued_reply :
    ∃ reply', objects r.2 !! r.1 = Some reply'
      ∧ DocsetMetadataProperty reply' = DocsetMetadataProperty reply
      ∧ DownloadTypeProperty reply' = DownloadTypeProperty reply
      ∧ ListItemIndexProperty reply' = ListItemIndexProperty reply;
  continued_effects :
    ∃ started, effects r.2 = (effects s ++ started)%list
      ∧ Forall (λ e, isDownload e = true) started ∧ length started = n;
  continued_active : (0 < n)%nat → r.1 ∈ replies r.2;
  continued_available : m_availableDocsets r.2 = m_availableDocsets s;
  continued_feeds : m_userFeeds r.2 = m_userFeeds s;
  continued_tmp : m_tmpFiles r.2 = m_tmpFiles s;
  continued_registry : m_docsetRegistry r.2 = m_docsetRegistry s;
  continued_disk : disk r.2 = disk s;
  continued_combined :
    (m_combinedReceived r.2, m_combinedTotal r.2) = (m_combinedReceived s, m_combinedTotal s)
}.

(** ** The rounding of doubles *)

(** A fraction [N / D] lies at the location [l] above the integer [m]. *)
Definition inLoc (N D m : Z) (l : location) : Prop :=
  match l with
  | loc_Exact => N = m * D
  | loc_Inexact Lt => 2 * (m * D) < 2 * N < 2 * (m * D) + D
  | loc_Inexact Eq => 2 * N = 2 * (m * D) + D
  | loc_Inexact Gt => 2 * (m * D) + D < 2 * N < 2 * (m * D) + 2 * D
  end%Z.

(** The integer and the location as one number: the quarter in which the
    fraction lies. *)
Definition locRank (l : location) : Z :=
  match l with
  | loc_Exact => 0
  | loc_Inexact Lt => 1
  | loc_Inexact Eq => 2
  | loc_Inexact Gt => 3
  end.

(** The same for the mantissa and the two bits of a shift record. *)
Definition inRec (N D : Z) (mrs : shr_record) : Prop :=
  inLoc N D (shr_m mrs) (loc_of_shr_record mrs).

(** A mantissa of 53 digits. *)
Definition canonical (m : Z) : Prop := (2 ^ 52 ≤ m < 2 ^ 53)%Z.

(** The rounding to nearest even of a fraction at a location above a
    canonical mantissa: the mantissa and the exponent of the double. *)
Definition roundC (m : Z) (l : location) (e : Z) : Z * Z :=
  let m' := round_nearest_even m l in
  if (m' =? 2 ^ 53)%Z then ((2 ^ 52)%Z, (e + 1)%Z) else (m', e).

(** The order of the positive doubles with canonical mantissas, on the
    pairs of mantissa and exponent. *)
Definition fle (a b : Z * Z) : Prop := (a.2 < b.2 ∨ (a.2 = b.2 ∧ a.1 ≤ b.1))%Z.

(** The unit of the exact values: [2 ^ (- scale)]. *)
Definition scale : Z := 2000.

(** The double [x] is the rounding of the exact value [A / B], counted in
    units of [2 ^ (- scale)]: the value lies at a location above a
    canonical mantissa at the exponent [e], and [x] is its rounding to
    nearest even. *)
Definition Rounded (x : spec_float) (A B e : Z) : Prop :=
  ∃ m l N D,
    x = S754_finite false (Z.to_pos (roundC m l e).1) (roundC m l e).2
    ∧ canonical m ∧ (0 < D)%Z ∧ inLoc N D m l
    ∧ (N * B * 2 ^ (e + scale) = A * D)%Z.

(** A positive double with a canonical mantissa. *)
Definition isDouble (x : spec_float) (m e : Z) : Prop :=
  x = S754_finite false (Z.to_pos m) e ∧ canonical m.


(** ** The signals of the pipeline

    What the constructor and the slots connect: the buttons of the docsets
    tab, the signals of the replies, of the application and of the two
    watchers, each with the data the slot reads of its surroundings.  The
    slots of the settings ([loadSettings], [saveSettings]) and of the
    selections are not among them. *)
Inductive Signal :=
  | DownloadProgress (sender : ReplyPtr) (received total : Z)
  | Finished (sender : ReplyPtr) (rsp : Response)
  | DownloadButtonClicked
  | DownloadDocsetButtonClicked
  | UpdateButtonClicked (answer : StandardButton)
  | UpdateWatcherFinished
  | AddFeedButtonClicked (clipboard : string) (getText : string → string)
  | TabWidgetCurrentChanged (isDocsetsTab : bool)
  | ExtractionCompleted (filePath : string)
  | ExtractionError (filePath errorString : string)
  | ExtractionProgress (filePath : string) (extracted total : Z)
  | DeleteButtonClicked (docsetTitle docsetName : string) (answer : StandardButton)
                        (dataDirExists : bool)
  | DeleteWatcherFinished (docsetTitle : string) (result : bool).

Section Signals.
Context `{Platform}.

(** The slot that a signal is connected to. *)
Definition slot (e : Signal) : M unit :=
  match e with
  | DownloadProgress sender received total => on_downloadProgress sender received total
  | Finished sender rsp => downloadCompleted sender rsp
  | DownloadButtonClicked => downloadDocsetList
  | DownloadDocsetButtonClicked => on_downloadDocsetButton_clicked
  | UpdateButtonClicked answer => updateFeedDocsets answer
  | UpdateWatcherFinished => updateFeedDocsets_finished
  | AddFeedButtonClicked clipboard getText => addDashFeed clipboard getText
  | TabWidgetCurrentChanged isDocsetsTab => on_tabWidget_currentChanged isDocsetsTab
  | ExtractionCompleted filePath => extractionCompleted filePath
  | ExtractionError filePath errorString => extractionError filePath errorString
  | ExtractionProgress filePath extracted total => extractionProgress filePath extracted total
  | DeleteButtonClicked docsetTitle docsetName answer dataDirExists =>
      on_deleteButton_clicked docsetTitle docsetName answer dataDirExists
  | DeleteWatcherFinished docsetTitle result => on_deleteButton_finished docsetTitle result
  end.

(** A history of the dialog: the slots run one after the other. *)
Definition run (signals : list Signal) : M unit := forEach signals slot.

End Signals.

Definition isFinished (e : Signal) : bool :=
  match e with Finished _ _ => true | _ => false end.

(** ** Histories of the catalog *)

Section CatalogHistory.
Context `{Platform}.

(** A signal that completes a catalog fetch in the state [s]: a live
    reply of a catalog fetch finishes without an error and without a
    redirection, and its document parses, so that [processDocsetList]
    runs. *)
Definition completesCatalog (e : Signal) (s : State) : bool :=
  match e with
  | Finished sender rsp =>
      match objects s !! sender with
      | Some reply =>
          bool_decide (rsp_error rsp = NoError)
          && negb (url_isValid (rsp_redirectionTarget rsp))
          && bool_decide (downloadType reply = DownloadDocsetList)
          && match fromJson (rsp_body rsp) with inr _ => true | inl _ => false end
      | None => false
      end
  | _ => false
  end.

(** No signal of the history completes a catalog fetch in the state it
    arrives in. *)
Fixpoint noCatalogCompleted (signals : list Signal) (s : State) : bool :=
  match signals with
  | [] => true
  | e :: signals' =>
      negb (completesCatalog e s) && noCatalogCompleted signals' (exec (slot e) s)
  end.

End CatalogHistory.

(** A computation that leaves an empty catalog empty. *)
Definition keepsEmpty {A} (c : M A) : Prop :=
  ∀ s, m_availableDocsets s = ∅ → m_availableDocsets (exec c s) = ∅.

(** From [s] to [s'], [n] transfers were started and none was removed:
    the new replies are the next [n] objects, they are live and active,
    behind the transfers that were active, and each was handed to the
    application once. *)
Record Started (n : nat) (s s' : State) : Prop := {
  started_replies : replies s' = replies s ++ seq (nextReply s) n;
  started_next : nextReply s' = (nextReply s + n)%nat;
  started_live : ∀ p, is_Some (objects s' !! p)
                      ↔ is_Some (objects s !! p) ∨ (nextReply s ≤ p < nextReply s + n)%nat;
  started_transfers : transfersStarted s' = (transfersStarted s + n)%nat
}.

(** A computation that starts transfers and removes none. *)
Definition starts {A} (c : M A) : Prop := ∀ s, ∃ n, Started n s (exec c s).

(** The active transfers are the live replies, each of them once, and
    every live reply was created before the next one. *)
Record activeLive (s : State) : Prop := {
  active_nodup : NoDup (replies s);
  active_live : ∀ p, p ∈ replies s ↔ is_Some (objects s !! p);
  active_wf : wellFormed s
}.

(** ** Reports of progress *)

(** A report that [on_downloadProgress] takes into the counters. *)
Definition counted (report : Z * Z) : bool :=
  negb (bool_decide (report.2 = -1) || bool_decide (report.1 < 10240)).

Section Reports.
Context `{Platform}.

(** The reports of one reply, in the order they arrive. *)
Definition progressReports (sender : ReplyPtr) (reports : list (Z * Z)) : M unit :=
  forEach reports (λ report, on_downloadProgress sender report.1 report.2).

End Reports.

(** ** The list of available docsets *)

(** The list item that [processDocsetList] creates for a docset of the
    catalog: its title and name, not checked, and hidden when the docset
    is installed. *)
Definition catalogItem (registry : gmap string Docset) (metadata : DocsetMetadata)
    : QListWidgetItem :=
  mkItem (md_title metadata) (md_name metadata) false
         (DocsetRegistry.contains (md_name metadata) registry) false 0 "".

(** A list item that [on_downloadDocsetButton_clicked] starts a transfer
    for: it is checked and the catalog knows its docset. *)
Definition toDownload (catalog : gmap string DocsetMetadata) (it : QListWidgetItem) : bool :=
  item_checked it && bool_decide (is_Some (catalog !! item_docsetName it)).

(** An installed docset that [updateFeedDocsets] requests the feed of:
    it has metadata, and the metadata names a feed. *)
Definition hasFeed (docset : Docset) : bool :=
  docset_hasMetadata docset && negb (url_isEmpty (md_feedUrl (docset_metadata docset))).

(** An installed docset that the watcher of [updateFeedDocsets] loads
    again: its metadata names a source and the catalog knows its name. *)
Definition fromCatalog (catalog : gmap string DocsetMetadata) (docset : Docset) : bool :=
  negb (bool_decide (md_source (docset_metadata docset) = ""))
  && bool_decide (is_Some (catalog !! docset_name docset)).

(** The reply of the feed of an installed docset, as [updateFeedDocsets]
    sets it up: the metadata of the installed docset goes with it, and
    the row of the list item of the docset when there is one. *)
Definition feedReply (s : State) (docset : Docset) : QNetworkReply :=
  mkReply (md_feedUrl (docset_metadata docset)) (Some (docset_metadata docset))
          (Some DownloadDashFeed) None
          ((λ listItem, row (Some listItem)) <$> findDocsetListItem (docset_title docset) s).

(** The requests of the feeds of [feeds], the first for the reply [from]. *)
Definition feedRequests (from : ReplyPtr) (feeds : list Docset) : list Effect :=
  imap (λ k docset, Download (md_feedUrl (docset_metadata docset)) (from + k)%nat) feeds.

(** ** Requests of archives *)

Section ArchiveRequests.
Context `{Platform}.

(** The URL that [downloadDashDocset] requests for the docset [name]
    when [qrand()] was called [calls] times before: the archive of the
    docset on the mirror that the next call picks. *)
Definition archiveUrl (calls : nat) (name : string) : QUrl :=
  let mirror :=
    default "" (kapeliUrls !! Z.to_nat (Z.rem (qrand_value calls)
                                              (Z.of_nat (length kapeliUrls)))) in
  QUrl_fromString (mirror +:+ "/feeds/" +:+ name +:+ ".tgz").

(** The reply of that request, as [downloadDashDocset] sets it up: the
    metadata of the catalog goes with it, and the row of the first list
    item with the title of the docset. *)
Definition archiveReply (s : State) (calls : nat) (name : string) (metadata : DocsetMetadata)
    : QNetworkReply :=
  mkReply (archiveUrl calls name) (Some metadata) (Some DownloadDocset) None
          (Some (row (findDocsetListItem (md_title metadata) s))).

(** The requests of the archives of [names], the first for the reply
    [from] and with the call [calls] of [qrand()]. *)
Definition archiveRequests (from : ReplyPtr) (calls : nat) (names : list string)
    : list Effect :=
  imap (λ k name, Download (archiveUrl (calls + k) name) (from + k)%nat) names.

(** What a list item is for the requests: its text, the name of its
    docset and its check mark. *)
Definition itemKey (it : QListWidgetItem) : string * string * bool :=
  (item_text it, item_docsetName it, item_checked it).

(** From [t] to [t'] the archives of [names] were requested, one after
    the other, and nothing else was done to the transfers: the requests
    are the effects, the new replies are active behind the others and
    carry the metadata of the catalog, the replies that were live are
    as they were, and the catalog, the registry and the texts, names
    and check marks of the list items are kept. *)
Record Requested (names : list string) (t t' : State) : Prop := {
  req_effects : effects t' = effects t ++ archiveRequests (nextReply t) (qrandCalls t) names;
  req_next : nextReply t' = (nextReply t + length names)%nat;
  req_calls : qrandCalls t' = (qrandCalls t + length names)%nat;
  req_replies : replies t' = replies t ++ seq (nextReply t) (length names);
  req_objects : ∀ k name metadata,
    names !! k = Some name → m_availableDocsets t !! name = Some metadata →
    objects t' !! (nextReply t + k)%nat
    = Some (archiveReply t (qrandCalls t + k) name metadata);
  req_old : ∀ p, (p < nextReply t)%nat → objects t' !! p = objects t !! p;
  req_catalog : m_availableDocsets t' = m_availableDocsets t;
  req_registry : m_docsetRegistry t' = m_docsetRegistry t;
  req_items : itemKey <$> availableDocsetList (ui t') = itemKey <$> availableDocsetList (ui t)
}.

(** The docset that the button of the downloads requests for a list
    item: the docset of a checked item that the catalog knows. *)
Definition requestedOf (catalog : gmap string DocsetMetadata) (it : QListWidgetItem)
    : option string :=
  if toDownload catalog it then Some (item_docsetName it) else None.

End ArchiveRequests.

(** ** More runs of the dialog on the platform [Sample] *)

Module Cases.
Import Sample.

(** The reply of the feed that [fetching] waits for. *)
Definition goFeed : QNetworkReply :=
  mkReply (urlOf "http://feeds.example/go.xml") None (Some DownloadDashFeed) None None.

(** The feed was fetched: the archive of [go] is requested, the
    reply [1]. *)
Definition feedFetched : State :=
  exec (downloadCompleted 0%nat (ok ";http://x/go.tgz")) fetching.

Definition goMetadata : DocsetMetadata :=
  mkMetadata "go" "go" "" "" (urlOf "http://feeds.example/go.xml") [urlOf "http://x/go.tgz"] "".

Definition goArchive : QNetworkReply :=
  mkReply (urlOf "http://x/go.tgz") (Some goMetadata) (Some DownloadDocset) None None.

(** The catalog with the docsets [a] and [c]. *)
Definition acArray : list QJsonValue :=
  (λ n, JsonObject {[ "name" := n; "title" := n ]}) <$> ["a"; "c"].

(** The catalog was requested and has arrived. *)
Definition catalogLoaded : State :=
  exec (downloadCompleted 0%nat (ok "a,c")) (exec downloadDocsetList opened).

Definition docsetA : DocsetMetadata := mkMetadata "a" "a" "" "" QUrl_empty [] "kapeli".

(** The item of [a] is checked. *)
Definition aChecked : State := exec (setItem 0 (item_setChecked true)) catalogLoaded.

Definition goInstalled : Docset := mkDocset "go" "go" true go7.

(** The catalog is loaded and the docset [a] is installed, from the
    catalog. *)
Definition aInstalled : State :=
  with_registry (insert "a" (mkDocset "a" "a" true docsetA)) catalogLoaded.

(** The array of a catalog that names [a] twice. *)
Definition abaArray : list QJsonValue :=
  (λ n, JsonObject {[ "name" := n; "title" := n ]}) <$> ["a"; "b"; "a"].

(** What happens while a catalog fetch is in flight, the reply [2] of
    [firstCatalogLoaded]: the docsets tab is shown again, which starts
    another fetch, and a feed is added, makes progress and fails. *)
Definition meanwhile : list Signal :=
  [TabWidgetCurrentChanged true; AddFeedButtonClicked "" (λ _, "http://feeds.example/go.xml");
   DownloadProgress 4%nat 20480 40960; Finished 4%nat (failed 3 "Host not found")].

End Cases.

(** ** Temporary files *)

Section TmpFiles.
Context `{Platform}.

(** The table of the temporary files is in order: every file of the
    table was created by the dialog, exists, and belongs to one entry. *)
Record tmpFilesOk (s : State) : Prop := {
  tmp_created : ∀ key tmpFile, m_tmpFiles s !! key = Some tmpFile →
                  ∃ n, (n < tmpCreated s)%nat ∧ fileName tmpFile = tempFileName n;
  tmp_exists : ∀ key tmpFile, m_tmpFiles s !! key = Some tmpFile →
                 is_Some (disk s !! fileName tmpFile);
  tmp_distinct : ∀ key key' tmpFile tmpFile',
                   m_tmpFiles s !! key = Some tmpFile → m_tmpFiles s !! key' = Some tmpFile' →
                   fileName tmpFile = fileName tmpFile' → key = key'
}.

(** A computation that keeps the table in order. *)
Definition keepsTmpFiles {A} (c : M A) : Prop := ∀ s, tmpFilesOk s → tmpFilesOk (exec c s).

End TmpFiles.
(** * The rounding of doubles: lemmas *)

Section RoundingFacts.
Local Open Scope Z_scope.

Lemma digits2_pos_bounds (p : positive) :
  2 ^ (Z.pos (digits2_pos p) - 1) ≤ Z.pos p < 2 ^ Z.pos (digits2_pos p).
Proof.
  induction p as [p IH|p IH|]; cbn [digits2_pos].
  - rewrite Pos2Z.inj_succ. change (Z.pos p~1) with (2 * Z.pos p + 1).
    generalize dependent (digits2_pos p). intros d IH.
    replace (Z.succ (Z.pos d) - 1) with (Z.succ (Z.pos d - 1)) by lia.
    rewrite !Z.pow_succ_r by lia. lia.
  - rewrite Pos2Z.inj_succ. change (Z.pos p~0) with (2 * Z.pos p).
    generalize dependent (digits2_pos p). intros d IH.
    replace (Z.succ (Z.pos d) - 1) with (Z.succ (Z.pos d - 1)) by lia.
    rewrite !Z.pow_succ_r by lia. lia.
  - cbn. lia.
Qed.

Lemma pow2_pos (k : Z) : 0 ≤ k → 0 < 2 ^ k.
Proof. intros Hk. apply Z.pow_pos_nonneg; lia. Qed.

Lemma pow2_le (a b : Z) : 0 ≤ a ≤ b → 2 ^ a ≤ 2 ^ b.
Proof. intros Hab. apply Z.pow_le_mono_r; lia. Qed.

Lemma pow2_lt (a b : Z) : 0 ≤ a < b → 2 ^ a < 2 ^ b.
Proof. intros Hab. apply Z.pow_lt_mono_r; lia. Qed.

(** The number of digits is determined by the bounds. *)
Lemma digits2_pos_unique (p : positive) (k : Z) :
  2 ^ (k - 1) ≤ Z.pos p < 2 ^ k → Z.pos (digits2_pos p) = k.
Proof.
  intros [Hlo Hhi]. pose proof (digits2_pos_bounds p) as [Dlo Dhi].
  assert (Hd : 0 < Z.pos (digits2_pos p)) by done.
  generalize dependent (Z.pos (digits2_pos p)). intros d Dlo Dhi Hd.
  assert (Hk : 0 < k).
  { destruct (Z.lt_trichotomy k 0) as [Hn|[->|Hp]]; [|cbn in Hhi; lia|done].
    rewrite Z.pow_neg_r in Hhi by done. lia. }
  destruct (Z.lt_trichotomy d k) as [Hlt|[Heq|Hgt]]; [|done|].
  - assert (2 ^ d ≤ 2 ^ (k - 1)) by (apply pow2_le; lia). lia.
  - assert (2 ^ k ≤ 2 ^ (d - 1)) by (apply pow2_le; lia). lia.
Qed.

Lemma inLoc_scale (c N D m : Z) (l : location) :
  0 < c → inLoc N D m l → inLoc (c * N) (c * D) m l.
Proof. intros Hc. destruct l as [|[]]; cbn; nia. Qed.

(** Fractions of one denominator are ordered as their quarters. *)
Lemma inLoc_mono (N N' D m m' : Z) (l l' : location) :
  0 < D → inLoc N D m l → inLoc N' D m' l' → N ≤ N' →
  4 * m + locRank l ≤ 4 * m' + locRank l'.
Proof.
  intros HD Hl Hl' Hle.
  assert (Hcases : m < m' ∨ m = m' ∨ m' < m) by lia.
  destruct Hcases as [Hlt|[->|Hgt]].
  - destruct l as [|[]], l' as [|[]]; cbn; lia.
  - destruct l as [|[]], l' as [|[]]; cbn in *; nia.
  - exfalso. assert (m' + 1 ≤ m) by lia.
    assert ((m' + 1) * D ≤ m * D) by nia.
    destruct l as [|[]], l' as [|[]]; cbn in *; nia.
Qed.

(** One step of [shr]: the denominator doubles. *)
Lemma shr_1_spec (N D : Z) (mrs : shr_record) :
  0 < D → 0 ≤ shr_m mrs → inRec N D mrs →
  inRec N (2 * D) (shr_1 mrs) ∧ 0 ≤ shr_m (shr_1 mrs)
  ∧ 2 * shr_m (shr_1 mrs) ≤ shr_m mrs < 2 * shr_m (shr_1 mrs) + 2.
Proof.
  intros HD Hm. destruct mrs as [m r s]. unfold inRec. cbn [shr_m] in *.
  destruct m as [|[p|p|]|p]; [| | | |lia].
  - destruct r, s; cbn -[Z.mul]; intros Hin; (split; [lia|lia]).
  - destruct r, s; cbn -[Z.mul];
      change (Z.pos p~1) with (2 * Z.pos p + 1);
      replace ((2 * Z.pos p + 1) * D) with (2 * (Z.pos p * D) + D) by ring;
      replace (Z.pos p * (2 * D)) with (2 * (Z.pos p * D)) by ring;
      intros Hin; (split; [lia|lia]).
  - destruct r, s; cbn -[Z.mul];
      change (Z.pos p~0) with (2 * Z.pos p);
      replace (2 * Z.pos p * D) with (2 * (Z.pos p * D)) by ring;
      replace (Z.pos p * (2 * D)) with (2 * (Z.pos p * D)) by ring;
      intros Hin; (split; [lia|lia]).
  - destruct r, s; cbn -[Z.mul]; intros Hin; (split; [lia|lia]).
Qed.

End RoundingFacts.

Section RoundingSteps.
Local Open Scope Z_scope.

Lemma loc_of_shr_record_of_loc (m : Z) (l : location) :
  loc_of_shr_record (shr_record_of_loc m l) = l
  ∧ shr_m (shr_record_of_loc m l) = m.
Proof. by destruct l as [|[]]. Qed.

Lemma shift_bounds_compose (m m1 m2 P Q : Z) :
  0 < P → 0 < Q →
  m1 * P ≤ m < (m1 + 1) * P → m2 * Q ≤ m1 < (m2 + 1) * Q →
  m2 * (Q * P) ≤ m < (m2 + 1) * (Q * P).
Proof.
  intros HP HQ [H1 H2] [H3 H4]. split.
  - assert (m2 * Q * P ≤ m1 * P) by (apply Z.mul_le_mono_nonneg_r; lia). lia.
  - assert ((m1 + 1) * P ≤ (m2 + 1) * Q * P) by (apply Z.mul_le_mono_nonneg_r; lia). lia.
Qed.

(** [p] steps of [shr]: the denominator is multiplied by [2 ^ p]. *)
Lemma iter_shr_1_spec (p : positive) (N D : Z) (mrs : shr_record) :
  0 < D → 0 ≤ shr_m mrs → inRec N D mrs →
  inRec N (2 ^ Z.pos p * D) (SpecFloat.iter_pos shr_1 p mrs)
  ∧ 0 ≤ shr_m (SpecFloat.iter_pos shr_1 p mrs)
  ∧ shr_m (SpecFloat.iter_pos shr_1 p mrs) * 2 ^ Z.pos p ≤ shr_m mrs
      < (shr_m (SpecFloat.iter_pos shr_1 p mrs) + 1) * 2 ^ Z.pos p.
Proof.
  revert N D mrs.
  induction p as [p IH|p IH|]; intros N D mrs HD Hm Hin; cbn [SpecFloat.iter_pos].
  - destruct (shr_1_spec N D mrs HD Hm Hin) as (H1 & H1m & H1b).
    destruct (IH N (2 * D) (shr_1 mrs) ltac:(lia) H1m H1) as (H2 & H2m & H2b).
    assert (HP : 0 < 2 ^ Z.pos p) by (apply pow2_pos; lia).
    destruct (IH N (2 ^ Z.pos p * (2 * D)) _ ltac:(lia) H2m H2) as (H3 & H3m & H3b).
    change (Z.pos p~1) with (2 * Z.pos p + 1).
    replace (2 ^ (2 * Z.pos p + 1)) with (2 ^ Z.pos p * (2 ^ Z.pos p * 2)).
    2:{ replace (2 * Z.pos p + 1) with (Z.pos p + (Z.pos p + 1)) by lia.
        rewrite !Z.pow_add_r by lia. by change (2 ^ 1) with 2. }
    split; [|split; [done|]].
    + by replace (2 ^ Z.pos p * (2 ^ Z.pos p * 2) * D)
        with (2 ^ Z.pos p * (2 ^ Z.pos p * (2 * D))) by ring.
    + apply (shift_bounds_compose _ (shr_m (SpecFloat.iter_pos shr_1 p (shr_1 mrs))));
        [lia|done| |done].
      apply (shift_bounds_compose _ (shr_m (shr_1 mrs))); [lia|done|lia|done].
  - destruct (IH N D mrs HD Hm Hin) as (H2 & H2m & H2b).
    assert (HP : 0 < 2 ^ Z.pos p) by (apply pow2_pos; lia).
    destruct (IH N (2 ^ Z.pos p * D) _ ltac:(lia) H2m H2) as (H3 & H3m & H3b).
    change (Z.pos p~0) with (2 * Z.pos p).
    replace (2 ^ (2 * Z.pos p)) with (2 ^ Z.pos p * 2 ^ Z.pos p).
    2:{ rewrite <- Z.pow_add_r by lia. f_equal. lia. }
    split; [|split; [done|]].
    + by replace (2 ^ Z.pos p * 2 ^ Z.pos p * D) with (2 ^ Z.pos p * (2 ^ Z.pos p * D)) by ring.
    + by apply (shift_bounds_compose _ (shr_m (SpecFloat.iter_pos shr_1 p mrs))).
  - destruct (shr_1_spec N D mrs HD Hm Hin) as (H1 & H1m & H1b).
    change (2 ^ 1) with 2. split; [done|]. split; [done|]. lia.
Qed.

End RoundingSteps.

Section RoundAux.
Local Open Scope Z_scope.

Lemma fexp_normal (e : Z) : -1021 ≤ e → fexp 53 1024 e = e - 53.
Proof. intros He. unfold fexp, emin. lia. Qed.

Lemma Zdigits2_bounds (m : Z) :
  0 < m → 2 ^ (Zdigits2 m - 1) ≤ m < 2 ^ Zdigits2 m.
Proof. intros Hm. destruct m as [|p|p]; [lia| |lia]. apply digits2_pos_bounds. Qed.

Lemma Zdigits2_unique (m k : Z) :
  0 < m → 2 ^ (k - 1) ≤ m < 2 ^ k → Zdigits2 m = k.
Proof. intros Hm Hk. destruct m as [|p|p]; [lia| |lia]. by apply digits2_pos_unique. Qed.

Lemma shr_fexp_spec (m e N D : Z) (l : location) :
  0 < D → 0 < m → 53 ≤ Zdigits2 m → -1021 ≤ Zdigits2 m + e → inLoc N D m l →
  (shr_fexp 53 1024 m e l).2 = e + (Zdigits2 m - 53)
  ∧ inRec N (2 ^ (Zdigits2 m - 53) * D) (shr_fexp 53 1024 m e l).1
  ∧ canonical (shr_m (shr_fexp 53 1024 m e l).1).
Proof.
  intros HD Hm Hd He Hin. unfold shr_fexp. rewrite fexp_normal by done.
  pose proof (Zdigits2_bounds m Hm) as Hbounds.
  replace (Zdigits2 m + e - 53 - e) with (Zdigits2 m - 53) by lia.
  destruct (loc_of_shr_record_of_loc m l) as [Hloc Hmm].
  assert (Hrec : inRec N D (shr_record_of_loc m l)).
  { unfold inRec. by rewrite Hloc, Hmm. }
  destruct (Zdigits2 m - 53) as [|p|p] eqn:Hn; [| |lia]; cbn [shr fst snd].
  - split; [lia|]. split.
    + change (2 ^ 0) with 1. by rewrite Z.mul_1_l.
    + rewrite Hmm. unfold canonical. replace (Zdigits2 m) with 53 in Hbounds by lia.
      exact Hbounds.
  - destruct (iter_shr_1_spec p N D _ HD ltac:(rewrite Hmm; lia) Hrec) as (H1 & H1m & H1b).
    split; [lia|]. split; [done|].
    rewrite Hmm in H1b. unfold canonical.
    replace (Zdigits2 m) with (53 + Z.pos p) in Hbounds by lia.
    replace (53 + Z.pos p - 1) with (52 + Z.pos p) in Hbounds by lia.
    rewrite !Z.pow_add_r in Hbounds by lia.
    assert (HP : 0 < 2 ^ Z.pos p) by (apply pow2_pos; lia).
    split; nia.
Qed.

Lemma round_nearest_even_bounds (m : Z) (l : location) :
  m ≤ round_nearest_even m l ≤ m + 1.
Proof. destruct l as [|[]]; cbn; try lia. destruct (Z.even m); lia. Qed.

(** [binary_round_aux] on a positive number of at least 53 digits, in
    the range of the normal doubles. *)
Lemma binary_round_aux_spec (mx ex N D : Z) (lx : location) :
  0 < D → 0 < mx → 53 ≤ Zdigits2 mx →
  -1021 ≤ Zdigits2 mx + ex → Zdigits2 mx + ex ≤ 1023 →
  inLoc N D mx lx →
  ∃ m l,
    inLoc N (2 ^ (Zdigits2 mx - 53) * D) m l
    ∧ canonical m
    ∧ binary_round_aux 53 1024 false mx ex lx
      = S754_finite false (Z.to_pos (roundC m l (ex + (Zdigits2 mx - 53))).1)
                    (roundC m l (ex + (Zdigits2 mx - 53))).2.
Proof.
  intros HD Hmx Hd Hlo Hhi Hin.
  destruct (shr_fexp_spec mx ex N D lx HD Hmx Hd Hlo Hin) as (He & Hrec & Hcan).
  unfold binary_round_aux.
  destruct (shr_fexp 53 1024 mx ex lx) as [mrs e'] eqn:Hshr. cbn [fst snd] in *.
  exists (shr_m mrs), (loc_of_shr_record mrs).
  split; [exact Hrec|]. split; [exact Hcan|].
  pose proof (round_nearest_even_bounds (shr_m mrs) (loc_of_shr_record mrs)) as Hround.
  unfold roundC. rewrite <- He.
  set (m' := round_nearest_even (shr_m mrs) (loc_of_shr_record mrs)) in *.
  unfold canonical in Hcan.
  destruct (Z.eqb_spec m' (2 ^ 53)) as [Heq|Hne].
  - rewrite Heq. unfold shr_fexp. change (Zdigits2 (2 ^ 53)) with 54.
    rewrite fexp_normal by lia.
    replace (54 + e' - 53 - e') with 1 by lia.
    cbn [shr_record_of_loc shr fst snd SpecFloat.iter_pos].
    change (shr_1 _) with (Build_shr_record (2 ^ 52) false false).
    cbn [shr_m]. change (2 ^ 52) with (Z.pos (2 ^ 52)).
    assert (Hle : (e' + 1 <=? 1024 - 53) = true) by (apply Z.leb_le; lia).
    rewrite Hle. reflexivity.
  - assert (Hm' : 2 ^ 52 ≤ m' < 2 ^ 53) by lia.
    assert (Hdig : Zdigits2 m' = 53) by (apply Zdigits2_unique; [lia|exact Hm']).
    unfold shr_fexp. rewrite Hdig. rewrite fexp_normal by lia.
    replace (53 + e' - 53 - e') with 0 by lia. cbn [shr_record_of_loc shr fst snd shr_m].
    destruct m' as [|p|p]; [lia| |lia].
    assert (Hle : (e' <=? 1024 - 53) = true) by (apply Z.leb_le; lia).
    by rewrite Hle.
Qed.

End RoundAux.

Section RoundMono.
Local Open Scope Z_scope.

Lemma inLoc_bounds (N D m : Z) (l : location) :
  0 < D → inLoc N D m l → m * D ≤ N < m * D + D.
Proof. intros HD. destruct l as [|[]]; cbn; lia. Qed.

Lemma mul_cancel_le (a b c : Z) : 0 < c → a * c ≤ b * c → a ≤ b.
Proof. intros Hc H. by apply Z.mul_le_mono_pos_r in H. Qed.

Lemma mul_cancel_lt (a b c : Z) : 0 < c → a * c < b * c → a < b.
Proof. intros Hc H. by apply Z.mul_lt_mono_pos_r in H. Qed.

(** The exact value [A / B] of a fraction [N / D] in units of [P]
    bounds it by the mantissa. *)
Lemma value_bounds (N D m A B P : Z) (l : location) :
  0 < D → 0 < B → 0 < P → inLoc N D m l → N * B * P = A * D →
  m * (B * P) ≤ A < (m + 1) * (B * P).
Proof.
  intros HD HB HP Hin Hval. destruct (inLoc_bounds N D m l HD Hin) as [Hlo Hhi].
  assert (HBP : 0 < B * P) by lia.
  split.
  - apply (mul_cancel_le _ _ D HD). rewrite <- Hval.
    replace (m * (B * P) * D) with (m * D * (B * P)) by ring.
    replace (N * B * P) with (N * (B * P)) by ring.
    apply Z.mul_le_mono_nonneg_r; lia.
  - apply (mul_cancel_lt _ _ D HD). rewrite <- Hval.
    replace ((m + 1) * (B * P) * D) with ((m * D + D) * (B * P)) by ring.
    replace (N * B * P) with (N * (B * P)) by ring.
    apply Z.mul_lt_mono_pos_r; lia.
Qed.

(** Fractions above canonical mantissas are ordered as their exact
    values: by the exponent first, then by the quarter. *)
Lemma canonical_mono (N1 D1 m1 e1 A1 N2 D2 m2 e2 A2 B : Z) (l1 l2 : location) :
  0 < D1 → 0 < D2 → 0 < B → 0 ≤ e1 + scale → 0 ≤ e2 + scale →
  canonical m1 → canonical m2 →
  inLoc N1 D1 m1 l1 → inLoc N2 D2 m2 l2 →
  N1 * B * 2 ^ (e1 + scale) = A1 * D1 →
  N2 * B * 2 ^ (e2 + scale) = A2 * D2 →
  A1 ≤ A2 →
  e1 < e2 ∨ (e1 = e2 ∧ 4 * m1 + locRank l1 ≤ 4 * m2 + locRank l2).
Proof.
  intros HD1 HD2 HB He1 He2 Hc1 Hc2 Hin1 Hin2 Hv1 Hv2 Hle.
  assert (HP1 : 0 < 2 ^ (e1 + scale)) by (by apply pow2_pos).
  assert (HP2 : 0 < 2 ^ (e2 + scale)) by (by apply pow2_pos).
  pose proof (value_bounds _ _ _ _ _ _ _ HD1 HB HP1 Hin1 Hv1) as [Hlo1 Hhi1].
  pose proof (value_bounds _ _ _ _ _ _ _ HD2 HB HP2 Hin2 Hv2) as [Hlo2 Hhi2].
  unfold canonical in Hc1, Hc2.
  destruct (Z.lt_trichotomy e1 e2) as [Hlt|[Heq|Hgt]]; [by left| |].
  - right. split; [done|]. subst e2.
    set (P := 2 ^ (e1 + scale)) in *.
    apply (inLoc_mono (D2 * N1) (D1 * N2) (D2 * D1)); [lia| | |].
    + by apply inLoc_scale.
    + replace (D2 * D1) with (D1 * D2) by ring. by apply inLoc_scale.
    + apply (mul_cancel_le _ _ (B * P)); [lia|].
      replace (D2 * N1 * (B * P)) with (N1 * B * P * D2) by ring.
      replace (D1 * N2 * (B * P)) with (N2 * B * P * D1) by ring.
      rewrite Hv1, Hv2.
      replace (A1 * D1 * D2) with (A1 * (D1 * D2)) by ring.
      replace (A2 * D2 * D1) with (A2 * (D1 * D2)) by ring.
      apply Z.mul_le_mono_nonneg_r; lia.
  - exfalso.
    assert (Hpow : 2 * 2 ^ (e2 + scale) ≤ 2 ^ (e1 + scale)).
    { replace (e1 + scale) with (e2 + scale + 1 + (e1 - e2 - 1)) by lia.
      rewrite (Z.pow_add_r 2 (e2 + scale + 1)), (Z.pow_add_r 2 (e2 + scale) 1) by lia.
      change (2 ^ 1) with 2.
      assert (0 < 2 ^ (e1 - e2 - 1)) by (apply pow2_pos; lia). nia. }
    assert (2 ^ 53 * (B * 2 ^ (e2 + scale)) ≤ m1 * (B * 2 ^ (e1 + scale))).
    { change (2 ^ 53) with (2 ^ 52 * 2).
      transitivity (2 ^ 52 * (B * 2 ^ (e1 + scale))).
      - replace (2 ^ 52 * 2 * (B * 2 ^ (e2 + scale)))
          with (2 ^ 52 * (B * (2 * 2 ^ (e2 + scale)))) by ring.
        apply Z.mul_le_mono_nonneg_l; [lia|]. apply Z.mul_le_mono_nonneg_l; lia.
      - apply Z.mul_le_mono_nonneg_r; lia. }
    assert ((m2 + 1) * (B * 2 ^ (e2 + scale)) ≤ 2 ^ 53 * (B * 2 ^ (e2 + scale))).
    { apply Z.mul_le_mono_nonneg_r; lia. }
    lia.
Qed.

Lemma roundC_canonical (m e : Z) (l : location) :
  canonical m → canonical (roundC m l e).1 ∧ e ≤ (roundC m l e).2 ≤ e + 1.
Proof.
  intros Hc. unfold roundC, canonical in *.
  pose proof (round_nearest_even_bounds m l).
  destruct (Z.eqb_spec (round_nearest_even m l) (2 ^ 53)); cbn; lia.
Qed.

Lemma round_nearest_even_mono (m1 m2 : Z) (l1 l2 : location) :
  4 * m1 + locRank l1 ≤ 4 * m2 + locRank l2 →
  round_nearest_even m1 l1 ≤ round_nearest_even m2 l2.
Proof.
  intros HK.
  pose proof (round_nearest_even_bounds m1 l1).
  pose proof (round_nearest_even_bounds m2 l2).
  assert (Hm : m1 < m2 ∨ m1 = m2).
  { destruct l1 as [|[]], l2 as [|[]]; cbn in HK; lia. }
  destruct Hm as [Hlt| ->]; [lia|].
  destruct l1 as [|[]], l2 as [|[]]; cbn in *; try lia; destruct (Z.even m2); lia.
Qed.

Lemma roundC_mono (m1 e1 m2 e2 : Z) (l1 l2 : location) :
  canonical m1 → canonical m2 →
  e1 < e2 ∨ (e1 = e2 ∧ 4 * m1 + locRank l1 ≤ 4 * m2 + locRank l2) →
  fle (roundC m1 l1 e1) (roundC m2 l2 e2).
Proof.
  intros Hc1 Hc2 Hord. unfold fle, roundC, canonical in *.
  pose proof (round_nearest_even_bounds m1 l1).
  pose proof (round_nearest_even_bounds m2 l2).
  destruct Hord as [Hlt|[-> HK]].
  - destruct (Z.eqb_spec (round_nearest_even m1 l1) (2 ^ 53)),
             (Z.eqb_spec (round_nearest_even m2 l2) (2 ^ 53)); cbn; lia.
  - pose proof (round_nearest_even_mono _ _ _ _ HK).
    destruct (Z.eqb_spec (round_nearest_even m1 l1) (2 ^ 53)),
             (Z.eqb_spec (round_nearest_even m2 l2) (2 ^ 53)); cbn; lia.
Qed.

End RoundMono.

Section RoundedFacts.
Local Open Scope Z_scope.

Lemma Rounded_isDouble x A B e :
  Rounded x A B e → ∃ m' e', isDouble x m' e' ∧ e ≤ e' ≤ e + 1.
Proof.
  intros (m & l & N & D & -> & Hc & _).
  destruct (roundC_canonical m e l Hc) as [Hc' He].
  by exists (roundC m l e).1, (roundC m l e).2.
Qed.

Lemma isDouble_inj x m e m' e' :
  isDouble x m e → isDouble x m' e' → m = m' ∧ e = e'.
Proof.
  intros [-> Hc] [Heq Hc']. unfold canonical in *.
  injection Heq as Hm He. split; [|done].
  assert (0 < m) by lia. assert (0 < m') by lia.
  rewrite <- (Z2Pos.id m), <- (Z2Pos.id m') by done. by rewrite Hm.
Qed.

(** Roundings are ordered as the exact values. *)
Lemma Rounded_mono x1 A1 e1 x2 A2 e2 B m1 f1 m2 f2 :
  0 < B → 0 ≤ e1 + scale → 0 ≤ e2 + scale →
  Rounded x1 A1 B e1 → Rounded x2 A2 B e2 → A1 ≤ A2 →
  isDouble x1 m1 f1 → isDouble x2 m2 f2 →
  fle (m1, f1) (m2, f2).
Proof.
  intros HB He1 He2 (n1 & l1 & N1 & D1 & Hx1 & Hc1 & HD1 & Hin1 & Hv1)
         (n2 & l2 & N2 & D2 & Hx2 & Hc2 & HD2 & Hin2 & Hv2) Hle Hd1 Hd2.
  pose proof (canonical_mono _ _ _ _ _ _ _ _ _ _ _ _ _ HD1 HD2 HB He1 He2 Hc1 Hc2
                Hin1 Hin2 Hv1 Hv2 Hle) as Hord.
  pose proof (roundC_mono _ _ _ _ _ _ Hc1 Hc2 Hord) as Hfle.
  destruct (roundC_canonical n1 e1 l1 Hc1) as [Hc1' _].
  destruct (roundC_canonical n2 e2 l2 Hc2) as [Hc2' _].
  destruct (isDouble_inj x1 _ _ _ _ Hd1 (conj Hx1 Hc1')) as [-> ->].
  destruct (isDouble_inj x2 _ _ _ _ Hd2 (conj Hx2 Hc2')) as [-> ->].
  exact Hfle.
Qed.

(** [binary_round_aux] rounds the exact value of its argument. *)
Lemma binary_round_aux_rounded (mx ex N D A B : Z) (lx : location) :
  0 < D → 0 < mx → 53 ≤ Zdigits2 mx →
  -1021 ≤ Zdigits2 mx + ex → Zdigits2 mx + ex ≤ 1023 →
  0 ≤ ex + scale →
  inLoc N D mx lx →
  N * B * 2 ^ (ex + scale) = A * D →
  Rounded (binary_round_aux 53 1024 false mx ex lx) A B (ex + (Zdigits2 mx - 53)).
Proof.
  intros HD Hmx Hd Hlo Hhi Hs Hin Hval.
  destruct (binary_round_aux_spec mx ex N D lx HD Hmx Hd Hlo Hhi Hin)
    as (m & l & Hin' & Hc & Heq).
  exists m, l, N, (2 ^ (Zdigits2 mx - 53) * D).
  split; [exact Heq|]. split; [exact Hc|].
  assert (HP : 0 < 2 ^ (Zdigits2 mx - 53)) by (apply pow2_pos; lia).
  split; [lia|]. split; [exact Hin'|].
  replace (ex + (Zdigits2 mx - 53) + scale) with (ex + scale + (Zdigits2 mx - 53)) by lia.
  rewrite Z.pow_add_r by lia.
  replace (N * B * (2 ^ (ex + scale) * 2 ^ (Zdigits2 mx - 53)))
    with (N * B * 2 ^ (ex + scale) * 2 ^ (Zdigits2 mx - 53)) by ring.
  rewrite Hval. ring.
Qed.

(** The values of ordered doubles are ordered. *)
Lemma fle_value (m1 e1 m2 e2 c : Z) :
  canonical m1 → canonical m2 → fle (m1, e1) (m2, e2) → 0 ≤ e1 + c →
  m1 * 2 ^ (e1 + c) ≤ m2 * 2 ^ (e2 + c).
Proof.
  unfold canonical, fle. cbn. intros Hc1 Hc2 [Hlt|[-> Hle]] Hc.
  - assert (HP : 0 < 2 ^ (e1 + c)) by (by apply pow2_pos).
    replace (e2 + c) with (e1 + c + 1 + (e2 - e1 - 1)) by lia.
    rewrite (Z.pow_add_r 2 (e1 + c + 1)), (Z.pow_add_r 2 (e1 + c) 1) by lia.
    change (2 ^ 1) with 2.
    assert (HQ : 0 < 2 ^ (e2 - e1 - 1)) by (apply pow2_pos; lia).
    transitivity (2 ^ 53 * 2 ^ (e1 + c)).
    + apply Z.mul_le_mono_nonneg_r; lia.
    + change (2 ^ 53) with (2 ^ 52 * 2).
      transitivity (2 ^ 52 * (2 ^ (e1 + c) * 2 * 2 ^ (e2 - e1 - 1))).
      * replace (2 ^ 52 * 2 * 2 ^ (e1 + c)) with (2 ^ 52 * (2 ^ (e1 + c) * 2 * 1)) by ring.
        apply Z.mul_le_mono_nonneg_l; [lia|]. apply Z.mul_le_mono_nonneg_l; lia.
      * apply Z.mul_le_mono_nonneg_r; [|lia].
        apply Z.mul_nonneg_nonneg; lia.
  - apply Z.mul_le_mono_nonneg_r; [|done]. apply Z.lt_le_incl, pow2_pos. lia.
Qed.

End RoundedFacts.

Section Operations.
Local Open Scope Z_scope.

Lemma iter_xO_pow (p d : positive) : Z.pos (Pos.iter xO p d) = Z.pos p * 2 ^ Z.pos d.
Proof.
  induction d as [|d IH] using Pos.peano_ind.
  - cbn. lia.
  - rewrite Pos.iter_succ, Pos2Z.inj_succ, Z.pow_succ_r by lia.
    change (Z.pos (Pos.iter xO p d)~0) with (2 * Z.pos (Pos.iter xO p d)). lia.
Qed.

(** [static_cast<double>(n)] of a positive 64 bit integer rounds [n]. *)
Lemma of_int_rounded (n : Z) :
  0 < n < 2 ^ 63 →
  ∃ e, -52 ≤ e ≤ 10 ∧ Rounded (Double.of_int n) (n * 2 ^ scale) 1 e.
Proof.
  intros Hn. destruct n as [|p|p]; [lia| |lia].
  unfold Double.of_int, Double.prec, Double.emax. cbn [binary_normalize].
  unfold binary_round.
  pose proof (digits2_pos_bounds p) as Hdig.
  set (d := Z.pos (digits2_pos p)) in *.
  assert (Hd : 1 ≤ d ≤ 63).
  { split; [unfold d; lia|].
    destruct (Z_le_gt_dec d 63) as [|Hgt]; [done|].
    assert (2 ^ 63 ≤ 2 ^ (d - 1)) by (apply pow2_le; lia). lia. }
  exists (d - 53). split; [lia|].
  rewrite Z.add_0_r, fexp_normal by lia.
  unfold shl_align. rewrite Z.sub_0_r.
  destruct (d - 53) as [|k|k] eqn:Hk.
  - (* 53 digits *)
    assert (Hdz : Zdigits2 (Z.pos p) = 53) by (cbn; fold d; lia).
    pose proof (binary_round_aux_rounded (Z.pos p) 0 (Z.pos p) 1 (Z.pos p * 2 ^ scale) 1
                  loc_Exact) as Hr.
    rewrite Hdz in Hr. apply Hr; try done; try lia.
    + cbn. lia.
    + by rewrite Z.add_0_l, !Z.mul_1_r.
  - (* more than 53 digits *)
    assert (Hdz : Zdigits2 (Z.pos p) = 53 + Z.pos k) by (cbn; fold d; lia).
    pose proof (binary_round_aux_rounded (Z.pos p) 0 (Z.pos p) 1 (Z.pos p * 2 ^ scale) 1
                  loc_Exact) as Hr.
    rewrite Hdz in Hr.
    replace (0 + (53 + Z.pos k - 53)) with (Z.pos k) in Hr by lia.
    apply Hr; try done; try lia.
    + cbn. lia.
    + by rewrite Z.add_0_l, !Z.mul_1_r.
  - (* fewer than 53 digits: the mantissa is shifted to 53 digits *)
    assert (Hshift : Z.pos (Pos.iter xO p k) = Z.pos p * 2 ^ Z.pos k) by apply iter_xO_pow.
    assert (HP : 0 < 2 ^ Z.pos k) by (apply pow2_pos; lia).
    assert (Hdz : Zdigits2 (Z.pos (Pos.iter xO p k)) = 53).
    { apply Zdigits2_unique; [lia|]. rewrite Hshift.
      replace 53 with (d + Z.pos k) by lia.
      replace (d + Z.pos k - 1) with (d - 1 + Z.pos k) by lia.
      rewrite !Z.pow_add_r by lia. nia. }
    pose proof (binary_round_aux_rounded (Z.pos (Pos.iter xO p k)) (Z.neg k)
                  (Z.pos (Pos.iter xO p k)) 1 (Z.pos p * 2 ^ scale) 1 loc_Exact) as Hr.
    rewrite Hdz in Hr.
    replace (Z.neg k + (53 - 53)) with (Z.neg k) in Hr by lia.
    apply Hr; try done; try lia.
    + unfold scale. lia.
    + cbn. lia.
    + rewrite Hshift.
      replace scale with (Z.pos k + (Z.neg k + scale)) at 2 by lia.
      rewrite (Z.pow_add_r 2 (Z.pos k)) by (unfold scale; lia). ring.
Qed.

End Operations.

Section Division.
Local Open Scope Z_scope.

Lemma new_location_spec (D q r : Z) :
  0 < D → 0 ≤ r < D → inLoc (q * D + r) D q (new_location D r).
Proof.
  intros HD Hr. unfold new_location, new_location_even, new_location_odd.
  destruct (Z.even D) eqn:Heven; destruct (Z.eqb_spec r 0) as [->|Hr0];
    unfold inLoc; try lia.
  - destruct (Z.compare_spec (2 * r) D); lia.
  - assert (Hodd : D ≠ 2 * r).
    { intros ->. by rewrite Z.even_mul in Heven. }
    destruct (Z.compare_spec (2 * r + 1) D); lia.
Qed.

Lemma canonical_digits (m : Z) : canonical m → Zdigits2 m = 53.
Proof.
  unfold canonical. intros Hm. apply Zdigits2_unique; [lia|].
  change (2 ^ (53 - 1)) with (2 ^ 52). lia.
Qed.

(** The quotient of two doubles is the rounding of the exact quotient. *)
Lemma div_rounded (x y : spec_float) (m1 e1 m2 e2 : Z) :
  isDouble x m1 e1 → isDouble y m2 e2 →
  -200 ≤ e1 ≤ 200 → -200 ≤ e2 ≤ 200 →
  ∃ e, e1 - e2 - 53 ≤ e ≤ e1 - e2 - 52
       ∧ Rounded (Double.div x y) (m1 * 2 ^ (e1 - e2 + scale)) m2 e.
Proof.
  intros [-> Hc1] [-> Hc2] He1 He2.
  pose proof (canonical_digits m1 Hc1) as Hd1.
  pose proof (canonical_digits m2 Hc2) as Hd2.
  unfold canonical in Hc1, Hc2.
  unfold Double.div, Double.prec, Double.emax, SFdiv, SFdiv_core_binary.
  rewrite !Z2Pos.id by lia. rewrite Hd1, Hd2.
  replace (53 + e1 - (53 + e2)) with (e1 - e2) by lia.
  rewrite fexp_normal by lia.
  rewrite Z.min_l by lia.
  replace (e1 - e2 - (e1 - e2 - 53)) with 53 by lia.
  cbv beta iota zeta.
  rewrite Z.shiftl_mul_pow2 by lia.
  pose proof (Z_div_mod (m1 * 2 ^ 53) m2 ltac:(lia)) as Hdiv.
  destruct (Z.div_eucl (m1 * 2 ^ 53) m2) as [q r]. destruct Hdiv as [Hq Hr].
  assert (Hqlo : 2 ^ 52 ≤ q).
  { destruct (Z_lt_le_dec q (2 ^ 52)) as [Hlt|]; [exfalso|done].
    assert (m2 * (q + 1) ≤ m2 * 2 ^ 52) by (apply Z.mul_le_mono_nonneg_l; lia).
    assert (m2 * 2 ^ 52 < 2 ^ 53 * 2 ^ 52) by (apply Z.mul_lt_mono_pos_r; lia).
    assert (2 ^ 52 * 2 ^ 53 ≤ m1 * 2 ^ 53) by (apply Z.mul_le_mono_nonneg_r; lia).
    lia. }
  assert (Hqhi : q < 2 ^ 54).
  { destruct (Z_lt_le_dec q (2 ^ 54)) as [|Hge]; [done|exfalso].
    assert (2 ^ 52 * 2 ^ 54 ≤ m2 * q) by (apply Z.mul_le_mono_nonneg; lia).
    assert (m1 * 2 ^ 53 < 2 ^ 53 * 2 ^ 53) by (apply Z.mul_lt_mono_pos_r; lia).
    change (2 ^ 52 * 2 ^ 54) with (2 ^ 53 * 2 ^ 53) in *. lia. }
  assert (Hdq : 53 ≤ Zdigits2 q ≤ 54).
  { destruct (Z_lt_le_dec q (2 ^ 53)).
    - rewrite (Zdigits2_unique q 53); [lia|lia|]. change (2 ^ (53 - 1)) with (2 ^ 52). lia.
    - rewrite (Zdigits2_unique q 54); [lia|lia|]. change (2 ^ (54 - 1)) with (2 ^ 53). lia. }
  exists (e1 - e2 - 53 + (Zdigits2 q - 53)). split; [lia|].
  cbn [xorb].
  apply (binary_round_aux_rounded q (e1 - e2 - 53) (m1 * 2 ^ 53) m2); try lia.
  - unfold scale. lia.
  - replace (m1 * 2 ^ 53) with (q * m2 + r) by lia. apply new_location_spec; lia.
  - replace (e1 - e2 + scale) with (53 + (e1 - e2 - 53 + scale)) by lia.
    rewrite (Z.pow_add_r 2 53) by (unfold scale; lia). ring.
Qed.

(** The mantissa and the exponent of [100.0]. *)
Lemma of_int_100 : isDouble (Double.of_int 100) 7036874417766400 (-46).
Proof. split; [by vm_compute|]. unfold canonical. by vm_compute. Qed.

(** The product with [100.0] is the rounding of the exact product. *)
Lemma mul100_rounded (x : spec_float) (m e : Z) :
  isDouble x m e → -200 ≤ e ≤ 200 →
  ∃ e', e + 6 ≤ e' ≤ e + 7
        ∧ Rounded (Double.mul x (Double.of_int 100))
            (m * 7036874417766400 * 2 ^ (e - 46 + scale)) 1 e'.
Proof.
  intros [-> Hc] He.
  pose proof of_int_100 as [-> _].
  unfold canonical in Hc.
  unfold Double.mul, Double.prec, Double.emax, SFmul. cbn [xorb].
  rewrite Pos2Z.inj_mul, !Z2Pos.id by lia.
  set (c := 7036874417766400) in *.
  assert (Hc' : 2 ^ 52 ≤ c < 2 ^ 53) by (by vm_compute).
  assert (Hlo : 2 ^ 104 ≤ m * c).
  { change (2 ^ 104) with (2 ^ 52 * 2 ^ 52). apply Z.mul_le_mono_nonneg; lia. }
  assert (Hhi : m * c < 2 ^ 106).
  { change (2 ^ 106) with (2 ^ 53 * 2 ^ 53). apply Z.mul_lt_mono_nonneg; lia. }
  assert (Hd : 105 ≤ Zdigits2 (m * c) ≤ 106).
  { destruct (Z_lt_le_dec (m * c) (2 ^ 105)).
    - rewrite (Zdigits2_unique (m * c) 105); [lia|lia|].
      change (2 ^ (105 - 1)) with (2 ^ 104). lia.
    - rewrite (Zdigits2_unique (m * c) 106); [lia|lia|].
      change (2 ^ (106 - 1)) with (2 ^ 105). lia. }
  exists (e + -46 + (Zdigits2 (m * c) - 53)). split; [lia|].
  apply (binary_round_aux_rounded (m * c) (e + -46) (m * c) 1); try lia.
  - unfold scale. lia.
  - cbn. lia.
  - replace (e - 46 + scale) with (e + -46 + scale) by lia. ring.
Qed.

End Division.

Section PercentOrder.
Local Open Scope Z_scope.

Lemma of_int_double (n : Z) :
  0 < n < 2 ^ 63 → ∃ m e, isDouble (Double.of_int n) m e ∧ -52 ≤ e ≤ 11.
Proof.
  intros Hn. destruct (of_int_rounded n Hn) as (e & He & Hr).
  destruct (Rounded_isDouble _ _ _ _ Hr) as (m' & e' & Hd & He').
  exists m', e'. split; [done|lia].
Qed.

Lemma of_int_mono (n1 n2 m1 e1 m2 e2 : Z) :
  0 < n1 → n1 ≤ n2 → n2 < 2 ^ 63 →
  isDouble (Double.of_int n1) m1 e1 → isDouble (Double.of_int n2) m2 e2 →
  fle (m1, e1) (m2, e2).
Proof.
  intros Hpos Hle Hhi Hd1 Hd2.
  destruct (of_int_rounded n1 ltac:(lia)) as (f1 & Hf1 & Hr1).
  destruct (of_int_rounded n2 ltac:(lia)) as (f2 & Hf2 & Hr2).
  eapply (Rounded_mono _ (n1 * 2 ^ scale) f1 _ (n2 * 2 ^ scale) f2 1);
    [lia|unfold scale; lia|unfold scale; lia|done|done| |done|done].
  apply Z.mul_le_mono_nonneg_r; [|done]. by apply Z.lt_le_incl, pow2_pos.
Qed.

Lemma div_double (x y : spec_float) (m1 e1 m2 e2 : Z) :
  isDouble x m1 e1 → isDouble y m2 e2 →
  -200 ≤ e1 ≤ 200 → -200 ≤ e2 ≤ 200 →
  ∃ m e, isDouble (Double.div x y) m e ∧ e1 - e2 - 53 ≤ e ≤ e1 - e2 - 51.
Proof.
  intros Hx Hy He1 He2.
  destruct (div_rounded x y m1 e1 m2 e2 Hx Hy He1 He2) as (e & He & Hr).
  destruct (Rounded_isDouble _ _ _ _ Hr) as (m' & e' & Hd & He').
  exists m', e'. split; [done|lia].
Qed.

Lemma div_mono (x1 x2 y : spec_float) (m1 e1 m2 e2 my ey n1 f1 n2 f2 : Z) :
  isDouble x1 m1 e1 → isDouble x2 m2 e2 → isDouble y my ey →
  -200 ≤ e1 ≤ 200 → -200 ≤ e2 ≤ 200 → -200 ≤ ey ≤ 200 →
  fle (m1, e1) (m2, e2) →
  isDouble (Double.div x1 y) n1 f1 → isDouble (Double.div x2 y) n2 f2 →
  fle (n1, f1) (n2, f2).
Proof.
  intros Hx1 Hx2 Hy He1 He2 Hey Hfle Hd1 Hd2.
  destruct (div_rounded x1 y m1 e1 my ey Hx1 Hy He1 Hey) as (g1 & Hg1 & Hr1).
  destruct (div_rounded x2 y m2 e2 my ey Hx2 Hy He2 Hey) as (g2 & Hg2 & Hr2).
  assert (Hmy : 0 < my) by (destruct Hy as [_ Hc]; unfold canonical in Hc; lia).
  eapply (Rounded_mono _ (m1 * 2 ^ (e1 - ey + scale)) g1 _ (m2 * 2 ^ (e2 - ey + scale)) g2 my);
    [done|unfold scale; lia|unfold scale; lia|done|done| |done|done].
  replace (e1 - ey + scale) with (e1 + (scale - ey)) by lia.
  replace (e2 - ey + scale) with (e2 + (scale - ey)) by lia.
  apply fle_value; [by destruct Hx1|by destruct Hx2|done|unfold scale; lia].
Qed.

Lemma mul100_double (x : spec_float) (m e : Z) :
  isDouble x m e → -200 ≤ e ≤ 200 →
  ∃ m' e', isDouble (Double.mul x (Double.of_int 100)) m' e' ∧ e + 6 ≤ e' ≤ e + 8.
Proof.
  intros Hx He.
  destruct (mul100_rounded x m e Hx He) as (g & Hg & Hr).
  destruct (Rounded_isDouble _ _ _ _ Hr) as (m' & e' & Hd & He').
  exists m', e'. split; [done|lia].
Qed.

Lemma mul100_mono (x1 x2 : spec_float) (m1 e1 m2 e2 n1 f1 n2 f2 : Z) :
  isDouble x1 m1 e1 → isDouble x2 m2 e2 →
  -200 ≤ e1 ≤ 200 → -200 ≤ e2 ≤ 200 →
  fle (m1, e1) (m2, e2) →
  isDouble (Double.mul x1 (Double.of_int 100)) n1 f1 →
  isDouble (Double.mul x2 (Double.of_int 100)) n2 f2 →
  fle (n1, f1) (n2, f2).
Proof.
  intros Hx1 Hx2 He1 He2 Hfle Hd1 Hd2.
  destruct (mul100_rounded x1 m1 e1 Hx1 He1) as (g1 & Hg1 & Hr1).
  destruct (mul100_rounded x2 m2 e2 Hx2 He2) as (g2 & Hg2 & Hr2).
  eapply (Rounded_mono _ (m1 * 7036874417766400 * 2 ^ (e1 - 46 + scale)) g1
           _ (m2 * 7036874417766400 * 2 ^ (e2 - 46 + scale)) g2 1);
    [lia|unfold scale; lia|unfold scale; lia|done|done| |done|done].
  replace (e1 - 46 + scale) with (e1 + (scale - 46)) by lia.
  replace (e2 - 46 + scale) with (e2 + (scale - 46)) by lia.
  rewrite <- !(Z.mul_assoc _ 7036874417766400), !(Z.mul_comm 7036874417766400).
  rewrite !Z.mul_assoc. apply Z.mul_le_mono_nonneg_r; [lia|].
  apply fle_value; [by destruct Hx1|by destruct Hx2|done|unfold scale; lia].
Qed.

(** The integral part of a double is the floor of its value. *)
Lemma truncate_floor (x : spec_float) (m e : Z) :
  isDouble x m e → - scale ≤ e →
  Double.truncate x = m * 2 ^ (e + scale) / 2 ^ scale.
Proof.
  intros [-> Hc] He. unfold canonical in Hc. unfold Double.truncate.
  rewrite Z2Pos.id by lia.
  assert (HS : 0 < 2 ^ scale) by (by apply pow2_pos).
  destruct (decide (0 ≤ e)) as [Hpos|Hneg].
  - rewrite Z.pow_add_r by (unfold scale; lia).
    rewrite Z.mul_assoc, Z.div_mul; lia.
  - assert (HP : 0 < 2 ^ (e + scale)) by (apply pow2_pos; lia).
    replace scale with (- e + (e + scale)) at 2 by lia.
    rewrite (Z.pow_add_r 2 (- e)) by lia.
    rewrite Z.div_mul_cancel_r; lia.
Qed.

Lemma truncate_mono (x1 x2 : spec_float) (m1 e1 m2 e2 : Z) :
  isDouble x1 m1 e1 → isDouble x2 m2 e2 →
  - scale ≤ e1 → - scale ≤ e2 → fle (m1, e1) (m2, e2) →
  0 ≤ Double.truncate x1 ≤ Double.truncate x2.
Proof.
  intros Hx1 Hx2 He1 He2 Hfle.
  rewrite (truncate_floor x1 m1 e1), (truncate_floor x2 m2 e2) by done.
  assert (HS : 0 < 2 ^ scale) by (by apply pow2_pos).
  destruct Hx1 as [_ Hc1]. destruct Hx2 as [_ Hc2].
  split.
  - apply Z.div_pos; [|done]. unfold canonical in Hc1.
    apply Z.mul_nonneg_nonneg; [lia|]. apply Z.lt_le_incl, pow2_pos. lia.
  - apply Z.div_le_mono; [done|]. apply fle_value; try done. lia.
Qed.

End PercentOrder.

Section PercentGeneral.
Local Open Scope Z_scope.

(** A double divided by itself is [1.0]. *)
Lemma div_self (x : spec_float) (m e : Z) :
  isDouble x m e → Double.div x x = S754_finite false 4503599627370496 (-52).
Proof.
  intros [-> Hc]. pose proof (canonical_digits m Hc) as Hd.
  unfold canonical in Hc.
  unfold Double.div, Double.prec, Double.emax, SFdiv, SFdiv_core_binary.
  rewrite !Z2Pos.id by lia. rewrite Hd.
  replace (53 + e - (53 + e)) with 0 by lia.
  replace (e - e) with 0 by lia.
  change (Z.min (fexp 53 1024 0) 0) with (-53).
  change (0 - -53) with 53.
  cbv beta iota zeta.
  rewrite Z.shiftl_mul_pow2 by lia.
  pose proof (Z_div_mod (m * 2 ^ 53) m ltac:(lia)) as Hdiv.
  destruct (Z.div_eucl (m * 2 ^ 53) m) as [q r]. destruct Hdiv as [Hq Hr].
  assert (Hq' : q = 2 ^ 53).
  { assert (Hmul : m * (2 ^ 53 - q) = r) by lia.
    destruct (Z_lt_le_dec q (2 ^ 53)) as [Hlt|Hge].
    - assert (m * 1 ≤ m * (2 ^ 53 - q)) by (apply Z.mul_le_mono_nonneg_l; lia). lia.
    - destruct (Z_le_lt_eq_dec _ _ Hge) as [Hgt|]; [|done].
      assert (m * (2 ^ 53 - q) ≤ m * (-1)) by (apply Z.mul_le_mono_nonneg_l; lia). lia. }
  subst q. assert (r = 0) as -> by lia.
  assert (Hloc : new_location m 0 = loc_Exact).
  { unfold new_location, new_location_even, new_location_odd. by destruct (Z.even m). }
  rewrite Hloc. by vm_compute.
Qed.

(** The percentage of nothing is the double [0]. *)
Lemma percentage_nothing (total : Z) :
  0 < total < 2 ^ 63 → percentage 0 total = S754_zero false.
Proof.
  intros Ht. unfold percentage.
  destruct (of_int_double total Ht) as (m & e & [-> _] & _). done.
Qed.

(** The percentage of everything is the double [100]. *)
Lemma percentage_everything (total : Z) :
  0 < total < 2 ^ 63 → Double.truncate (percentage total total) = 100.
Proof.
  intros Ht. unfold percentage.
  destruct (of_int_double total Ht) as (m & e & Hd & _).
  rewrite (div_self _ m e Hd). by vm_compute.
Qed.

(** The percentages of positive numbers of bytes are positive doubles,
    in the order of the numbers. *)
Lemma percentage_order (a b total : Z) :
  0 < total < 2 ^ 63 → 0 < a → a ≤ b → b < 2 ^ 63 →
  ∃ pa ga pb gb,
    isDouble (percentage a total) pa ga ∧ isDouble (percentage b total) pb gb
    ∧ 0 ≤ Double.truncate (percentage a total) ≤ Double.truncate (percentage b total).
Proof.
  intros Ht Ha Hab Hb. unfold percentage.
  destruct (of_int_double a ltac:(lia)) as (ma & ea & Hda & Hea).
  destruct (of_int_double b ltac:(lia)) as (mb & eb & Hdb & Heb).
  destruct (of_int_double total Ht) as (mt & et & Hdt & Het).
  pose proof (of_int_mono a b ma ea mb eb Ha Hab Hb Hda Hdb) as Hfle.
  destruct (div_double _ _ ma ea mt et Hda Hdt ltac:(lia) ltac:(lia))
    as (qa & fa & Hqa & Hfa).
  destruct (div_double _ _ mb eb mt et Hdb Hdt ltac:(lia) ltac:(lia))
    as (qb & fb & Hqb & Hfb).
  pose proof (div_mono _ _ _ ma ea mb eb mt et qa fa qb fb Hda Hdb Hdt
                ltac:(lia) ltac:(lia) ltac:(lia) Hfle Hqa Hqb) as Hfle'.
  destruct (mul100_double _ qa fa Hqa ltac:(lia)) as (pa & ga & Hpa & Hga).
  destruct (mul100_double _ qb fb Hqb ltac:(lia)) as (pb & gb & Hpb & Hgb).
  pose proof (mul100_mono _ _ qa fa qb fb pa ga pb gb Hqa Hqb
                ltac:(lia) ltac:(lia) Hfle' Hpa Hpb) as Hfle''.
  exists pa, ga, pb, gb. split; [done|]. split; [done|].
  apply (truncate_mono _ _ pa ga pb gb); try done; unfold scale; lia.
Qed.

(** The integral part of the percentage is monotone in the bytes
    received, over the whole range of [qint64]. *)
Lemma percentage_mono (r1 r2 total : Z) :
  0 < total < 2 ^ 63 → 0 ≤ r1 → r1 ≤ r2 → r2 < 2 ^ 63 →
  0 ≤ Double.truncate (percentage r1 total) ≤ Double.truncate (percentage r2 total).
Proof.
  intros Ht Hr1 Hle Hr2.
  destruct (Z_le_lt_eq_dec 0 r1 Hr1) as [Hlt| <-].
  - destruct (percentage_order r1 r2 total) as (? & ? & ? & ? & _ & _ & Hm); done.
  - rewrite percentage_nothing by done. cbn [Double.truncate].
    destruct (Z_le_lt_eq_dec 0 r2 Hle) as [Hlt| <-].
    + destruct (percentage_order r2 r2 total) as (? & ? & ? & ? & _ & _ & Hm); [done..|lia].
    + by rewrite percentage_nothing.
Qed.

(** The percentage is a number: [int] can take it when its integral
    part is in the range of [int]. *)
Lemma percentage_fitsInt (received total : Z) :
  0 < total < 2 ^ 63 → 0 ≤ received < 2 ^ 63 →
  Double.fitsInt (percentage received total)
  = bool_decide (Double.INT_MIN ≤ Double.truncate (percentage received total))
    && bool_decide (Double.truncate (percentage received total) ≤ Double.INT_MAX).
Proof.
  intros Ht [Hr Hr']. destruct (Z_le_lt_eq_dec 0 received Hr) as [Hlt| <-].
  - destruct (percentage_order received received total)
      as (p & g & _ & _ & [Hp _] & _); [done|done|lia|done|].
    by rewrite Hp.
  - by rewrite percentage_nothing.
Qed.

Lemma to_int_truncate (x : spec_float) :
  Double.fitsInt x = true → Double.to_int x = Double.truncate x.
Proof. intros Hfits. unfold Double.to_int. by rewrite Hfits. Qed.

(** A percentage that [int] can take, and the percentages below it. *)
Lemma percentage_fits_below (r1 r2 total : Z) :
  0 < total < 2 ^ 63 → 0 ≤ r1 → r1 ≤ r2 → r2 < 2 ^ 63 →
  Double.fitsInt (percentage r2 total) = true →
  Double.fitsInt (percentage r1 total) = true.
Proof.
  intros Ht Hr1 Hle Hr2 Hfits.
  pose proof (percentage_mono r1 r2 total Ht Hr1 Hle Hr2) as Hm.
  rewrite percentage_fitsInt in Hfits |- * by lia.
  apply andb_true_iff in Hfits as [_ Hmax%bool_decide_eq_true].
  apply andb_true_iff. unfold Double.INT_MIN, Double.INT_MAX in *.
  split; apply bool_decide_eq_true; lia.
Qed.

(** Nothing received is 0 percent. *)
Lemma percent_nothing (total : Z) : 0 < total < 2 ^ 63 → percent 0 total = 0.
Proof.
  intros Ht. unfold percent. destruct (decide (total = 0)) as [|_]; [done|].
  by rewrite percentage_nothing.
Qed.

(** Everything received is 100 percent. *)
Lemma percent_everything (total : Z) : 0 < total < 2 ^ 63 → percent total total = 100.
Proof.
  intros Ht. unfold percent. destruct (decide (total = 0)) as [|_]; [lia|].
  pose proof (percentage_everything total Ht) as Hall.
  rewrite to_int_truncate; [done|].
  rewrite percentage_fitsInt, Hall by lia. done.
Qed.

(** [percent] is monotone in the bytes received, over the whole range of
    [qint64], up to a percentage that [int] can take. *)
Lemma percent_mono (r1 r2 total : Z) :
  0 < total < 2 ^ 63 → 0 ≤ r1 → r1 ≤ r2 → r2 < 2 ^ 63 →
  Double.fitsInt (percentage r2 total) = true →
  0 ≤ percent r1 total ≤ percent r2 total.
Proof.
  intros Ht Hr1 Hle Hr2 Hfits. unfold percent.
  destruct (decide (total = 0)) as [|_]; [lia|].
  rewrite !to_int_truncate by (done || by apply (percentage_fits_below r1 r2)).
  by apply percentage_mono.
Qed.

(** For a transfer that received no more than its total, [percent] lies
    between 0 and 100. *)
Lemma percent_range (received total : Z) :
  0 < total < 2 ^ 63 → 0 ≤ received ≤ total → 0 ≤ percent received total ≤ 100.
Proof.
  intros Ht Hr.
  assert (Hfits : Double.fitsInt (percentage total total) = true).
  { rewrite percentage_fitsInt, percentage_everything by lia. done. }
  pose proof (percent_mono received total total Ht ltac:(lia) ltac:(lia) ltac:(lia) Hfits)
    as Hm.
  rewrite percent_everything in Hm by done. done.
Qed.

End PercentGeneral.

(** * Properties *)

(** ** Integers of 64 bits *)

Lemma wrap64_small (n : Z) : (- 2 ^ 63 ≤ n < 2 ^ 63)%Z → wrap64 n = n.
Proof. intros Hn. unfold wrap64. rewrite Z.mod_small; lia. Qed.

Lemma wrap64_range (n : Z) : (- 2 ^ 63 ≤ wrap64 n < 2 ^ 63)%Z.
Proof.
  unfold wrap64. pose proof (Z.mod_pos_bound (n + 2 ^ 63) (2 ^ 64) ltac:(lia)). lia.
Qed.

Lemma wrap64_add_l (a b : Z) : wrap64 (wrap64 a + b) = wrap64 (a + b).
Proof.
  unfold wrap64.
  replace ((a + 2 ^ 63) mod 2 ^ 64 - 2 ^ 63 + b + 2 ^ 63)%Z
    with ((a + 2 ^ 63) mod 2 ^ 64 + b)%Z by lia.
  rewrite Zplus_mod_idemp_l. do 2 f_equal. lia.
Qed.

Lemma wrap64_add_r (a b : Z) : wrap64 (a + wrap64 b) = wrap64 (a + b).
Proof. by rewrite (Z.add_comm a), wrap64_add_l, Z.add_comm. Qed.

(** ** The progress bar *)

(** With the maximum [100] the bar takes the values from [0] to [100]
    and keeps its value for the others. *)
Lemma QProgressBar_setValue_100 (value : Z) (u : Ui) :
  docsetsProgress_maximum u = 100%Z →
  docsetsProgress_value (QProgressBar_setValue value u)
  = if bool_decide (0 ≤ value ≤ 100)%Z then value else docsetsProgress_value u.
Proof.
  intros Hmax. unfold QProgressBar_setValue. rewrite Hmax. cbn.
  destruct (bool_decide (0 ≤ value ≤ 100)%Z) eqn:Hin.
  - apply bool_decide_eq_true in Hin.
    rewrite (bool_decide_eq_false_2 (100 < value ∨ value < 0)%Z) by lia. done.
  - apply bool_decide_eq_false in Hin.
    rewrite (bool_decide_eq_true_2 (100 < value ∨ value < 0)%Z) by lia. done.
Qed.

Lemma QProgressBar_setValue_maximum (value : Z) (u : Ui) :
  docsetsProgress_maximum (QProgressBar_setValue value u) = docsetsProgress_maximum u.
Proof. reflexivity. Qed.

(** Setting the maximum that the bar has changes nothing. *)
Lemma QProgressBar_setMaximum_value (maximum : Z) (u : Ui) :
  docsetsProgress_maximum u = maximum →
  docsetsProgress_value (QProgressBar_setMaximum maximum u) = docsetsProgress_value u.
Proof.
  intros Hmax. unfold QProgressBar_setMaximum. cbn.
  by rewrite (bool_decide_eq_true_2 _ (eq_sym Hmax)).
Qed.

(** ** Percentages *)

Lemma percent_total_zero (received : Z) : percent received 0 = 0%Z.
Proof. reflexivity. Qed.

Lemma percentTableOk_rows (bound : nat) :
  percentTableOk bound = true →
  ∀ total received, (1 ≤ total ≤ bound)%nat → (received ≤ total)%nat →
    percentRowOk total received = true.
Proof.
  unfold percentTableOk. intros Htab total received Ht Hr.
  rewrite forallb_forall in Htab.
  specialize (Htab total). rewrite forallb_forall in Htab.
  apply Htab; apply in_seq; lia.
Qed.

Lemma percentTable_100 : percentTableOk 100 = true.
Proof. vm_compute. reflexivity. Qed.

Lemma percentRow_100 (total received : nat) :
  (1 ≤ total ≤ 100)%nat → (received ≤ total)%nat → percentRowOk total received = true.
Proof. apply percentTableOk_rows, percentTable_100. Qed.

(** C6, what fails: the dialog's [percent] is not clamped.  At
    [received = 200] and [total = 100] it is [200], where the percentage
    of the specification is [100]. *)
Lemma percent_not_clamped :
  percent 200 100 = 200%Z ∧ percent_spec 200 100 = 100%Z
  ∧ percent 200 100 ≠ percent_spec 200 100.
Proof. vm_compute. repeat split; congruence. Qed.

(** C6, as amended: [percent] is [0] when [total] is [0] and otherwise the
    conversion to [int] of the double [received / total * 100], which
    drops the fractional part where [int] can take the double (the
    conversion of a double out of the range of [int], as the one of
    [percent(21474837, 1)], is undefined); it is not clamped and can
    fall one below the exact floor ([percent(29, 100) = 28]);
    [percent(0,0) = 0], [percent(50,100) = 50] and [percent(1,3) = 33];
    for every positive [total] and [0 <= r1 <= r2] of the 64 bit range,
    where [int] can take the double of [r2], the percentages are not
    negative and do not decrease in [received]; for
    [0 <= received <= total] they lie in [0..100]; and for
    [total <= 100] they are the exact floor or one below it. *)
Theorem percent_truncates_unclamped (received total r1 r2 : Z) :
  percent received 0 = 0%Z
  ∧ (total ≠ 0%Z →
     percent received total = Double.to_int (percentage received total)
     ∧ (Double.fitsInt (percentage received total) = true →
        percent received total = Double.truncate (percentage received total)))
  ∧ Double.fitsInt (percentage 21474837 1) = false
  ∧ percent 200 100 = 200%Z ∧ percent 29 100 = 28%Z
  ∧ percent 0 0 = 0%Z ∧ percent 50 100 = 50%Z ∧ percent 1 3 = 33%Z
  ∧ ((0 < total < 2 ^ 63)%Z → (0 ≤ r1 ≤ r2)%Z → (r2 < 2 ^ 63)%Z →
     Double.fitsInt (percentage r2 total) = true →
     (0 ≤ percent r1 total ≤ percent r2 total)%Z)
  ∧ ((0 < total < 2 ^ 63)%Z → (0 ≤ received ≤ total)%Z →
     (0 ≤ percent received total ≤ 100)%Z)
  ∧ ((0 < total ≤ 100)%Z → (0 ≤ received ≤ total)%Z →
     (percent_spec received total - 1 ≤ percent received total
        ≤ percent_spec received total)%Z).
Proof.
  split; [reflexivity|]. split.
  { intros Hne. unfold percent. destruct (decide (total = 0%Z)); [done|].
    split; [done|]. apply to_int_truncate. }
  do 6 (split; [by vm_compute|]).
  split; [|split].
  - intros Ht [Hr1 Hle] Hr2 Hfits. by apply percent_mono.
  - intros Ht Hr. by apply percent_range.
  - intros Ht Hr.
    assert (Hn : (1 ≤ Z.to_nat total ≤ 100)%nat) by lia.
    assert (Htot : total = Z.of_nat (Z.to_nat total)) by lia.
    assert (H1 : received = Z.of_nat (Z.to_nat received)) by lia.
    rewrite Htot, H1.
    pose proof (percentRow_100 (Z.to_nat total) (Z.to_nat received) Hn ltac:(lia)) as Hrow.
    unfold percentRowOk in Hrow. rewrite !andb_true_iff in Hrow.
    destruct Hrow as [Hc Hd].
    apply Z.leb_le in Hc, Hd. done.
Qed.

(** The amended claim at [total = 3]: one third is [33] percent, two
    thirds are no less, and both lie in [0..100]. *)
Lemma percent_truncates_unclamped_witness :
  Double.fitsInt (percentage 2 3) = true
  ∧ (0 ≤ percent 1 3 ≤ percent 2 3)%Z
  ∧ (0 ≤ percent 1 3 ≤ 100)%Z
  ∧ (percent_spec 1 3 - 1 ≤ percent 1 3 ≤ percent_spec 1 3)%Z.
Proof.
  destruct (percent_truncates_unclamped 1 3 1 2)
    as (_ & _ & _ & _ & _ & _ & _ & _ & Hm & Hr & Hf).
  split; [reflexivity|].
  split; [apply Hm; [lia|lia|lia|reflexivity]|]. split; [apply Hr; lia|apply Hf; lia].
Defined.
(** ** Transfers *)

Section Pipeline.
Context `{Platform}.

(** A completion with an error: the reply leaves the active transfers, a
    cancellation is passed over in silence, any other error is shown, and
    nothing else happens. *)
Lemma downloadCompleted_error sender reply rsp s :
  objects s !! sender = Some reply →
  rsp_error rsp ≠ NoError →
  exec (downloadCompleted sender rsp) s =
    with_objects (delete sender)
      (with_effects
         (λ l, if bool_decide (rsp_error rsp = OperationCanceledError) then l
               else (l ++ [MessageBox Warning "Network Error" (rsp_errorString rsp)])%list)
         (with_replies (removeOne sender) s)).
Proof.
  intros Hobj Herr.
  unfold downloadCompleted, exec, bind, get. rewrite Hobj. cbn.
  rewrite bool_decide_eq_false_2 by done. cbn.
  destruct (bool_decide _); cbn; reflexivity.
Qed.

Lemma downloadCompleted_redirect sender reply rsp s :
  objects s !! sender = Some reply →
  isRedirect rsp = true →
  downloadCompleted sender rsp s =
    (modify (with_replies (removeOne sender)) ;;
     followRedirect reply (rsp_redirectionTarget rsp) ;;
     modify (with_objects (delete sender))) s.
Proof.
  intros Hobj Hred. unfold isRedirect in Hred.
  apply andb_true_iff in Hred as [Herr Hvalid]. apply bool_decide_eq_true in Herr.
  unfold downloadCompleted, bind, get. rewrite Hobj, Herr, Hvalid.
  rewrite bool_decide_eq_true_2 by done. reflexivity.
Qed.

Lemma downloadCompleted_redirected sender reply rsp s :
  objects s !! sender = Some reply →
  isRedirect rsp = true →
  Redirected sender reply (redirectTarget reply (rsp_redirectionTarget rsp)) s
             (exec (downloadCompleted sender rsp) s).
Proof.
  intros Hobj Hred. unfold exec.
  rewrite (downloadCompleted_redirect _ _ _ _ Hobj Hred).
  split; cbn; try reflexivity.
  by rewrite !alter_insert_eq.
Qed.

Lemma wellFormed_fresh s p :
  wellFormed s → is_Some (objects s !! p) → p ≠ nextReply s.
Proof. intros Hwf [r Hp]. specialize (Hwf p r Hp). cbn in Hwf. lia. Qed.

Lemma Redirected_wellFormed sender reply url s s' :
  wellFormed s → Redirected sender reply url s s' → wellFormed s'.
Proof.
  intros Hwf Hr p r. unfold wellFormed.
  rewrite (redirected_objects _ _ _ _ _ Hr), (redirected_next _ _ _ _ _ Hr).
  rewrite lookup_delete_Some, lookup_insert_Some.
  intros [_ [[<- _]|[_ Hp]]]; [lia|]. specialize (Hwf p r Hp). cbn in Hwf. lia.
Qed.

Lemma Redirected_lookup sender reply url s s' :
  wellFormed s → objects s !! sender = Some reply → Redirected sender reply url s s' →
  objects s' !! nextReply s =
    Some (mkReply url (DocsetMetadataProperty reply) (DownloadTypeProperty reply) None
                  (ListItemIndexProperty reply)).
Proof.
  intros Hwf Hobj Hr. rewrite (redirected_objects _ _ _ _ _ Hr).
  rewrite lookup_delete_ne, lookup_insert_eq; [done|].
  apply wellFormed_fresh; [done|]. by rewrite Hobj.
Qed.

Lemma followChain_cons sender rsp rsps s :
  followChain sender (rsp :: rsps) s =
    followChain (nextReply s) rsps (exec (downloadCompleted sender rsp) s).
Proof.
  cbn. unfold bind, get, exec. by destruct (downloadCompleted sender rsp s).
Qed.

Lemma followChain_app sender rsps rsps' s :
  followChain sender (rsps ++ rsps') s =
    followChain (followChain sender rsps s).1 rsps' (followChain sender rsps s).2.
Proof.
  revert sender s. induction rsps as [|rsp rsps IH]; intros sender s; [done|].
  rewrite <- app_comm_cons, !followChain_cons. apply IH.
Qed.

Lemma followChain_redirects rsps sender reply s :
  wellFormed s →
  objects s !! sender = Some reply →
  Forall (λ rsp, isRedirect rsp = true) rsps →
  Continued reply (length rsps) s (followChain sender rsps s).
Proof.
  revert sender reply s.
  induction rsps as [|rsp rsps IH]; intros sender reply s Hwf Hobj Hall.
  - split; cbn; try done.
    + by exists reply.
    + exists []. by rewrite app_nil_r.
    + lia.
  - apply Forall_cons in Hall as [Hred Hall].
    pose proof (downloadCompleted_redirected _ _ _ _ Hobj Hred) as Hstep.
    pose proof (Redirected_wellFormed _ _ _ _ _ Hwf Hstep) as Hwf'.
    pose proof (Redirected_lookup _ _ _ _ _ Hwf Hobj Hstep) as Hobj'.
    specialize (IH _ _ _ Hwf' Hobj' Hall).
    rewrite followChain_cons.
    destruct Hstep as [Heff Hrep Hnext Hobjs Hav Hfe Htmp Hreg Hdisk Hcomb].
    destruct IH as [IHwf IHreply IHeff IHact IHav IHfe IHtmp IHreg IHdisk IHcomb].
    cbn in IHreply.
    split; try congruence; try done.
    + destruct IHeff as (started & Hstarted & Hdl & Hlen).
      exists (Download (redirectTarget reply (rsp_redirectionTarget rsp)) (nextReply s)
              :: started).
      rewrite Hstarted, Heff, <- app_assoc. cbn.
      split; [done|]. split; [by constructor|]. by rewrite Hlen.
    + intros _. destruct rsps as [|rsp' rsps].
      * cbn. rewrite Hrep. apply elem_of_app. right. constructor.
      * apply IHact. cbn. lia.
Qed.

Lemma filter_app_all {A} (P : A → Prop) `{∀ x, Decision (P x)} (l l' : list A) :
  Forall P l' → length (filter P (l ++ l')) = (length (filter P l) + length l')%nat.
Proof.
  intros Hall. rewrite filter_app, length_app. f_equal.
  induction Hall as [|x l' Hx Hall IH]; [done|].
  rewrite filter_cons_True by done. cbn. by rewrite IH.
Qed.

Lemma followChain_transfersStarted rsps sender reply s :
  wellFormed s →
  objects s !! sender = Some reply →
  Forall (λ rsp, isRedirect rsp = true) rsps →
  transfersStarted (exec (followChain sender rsps) s)
    = (transfersStarted s + length rsps)%nat.
Proof.
  intros Hwf Hobj Hall.
  destruct (continued_effects _ _ _ _ (followChain_redirects _ _ _ _ Hwf Hobj Hall))
    as (started & Heff & Hdl & Hlen).
  unfold transfersStarted, exec. rewrite Heff, filter_app_all by done. by rewrite Hlen.
Qed.

Lemma redirectTarget_absolute reply target :
  url_isRelative target = false → redirectTarget reply target = target.
Proof.
  unfold redirectTarget, url_isRelative. intros Habs. rewrite Habs.
  by destruct (bool_decide (url_scheme target = "")).
Qed.

Lemma redirectTarget_relative reply target :
  url_isRelative target = true →
  redirectTarget reply target =
    if bool_decide (url_scheme (resolved (request_url reply) target) = "")
    then url_setScheme (url_scheme (request_url reply)) (resolved (request_url reply) target)
    else resolved (request_url reply) target.
Proof. unfold redirectTarget. by intros ->. Qed.

(** C1, as amended: a transfer that finishes without an error and with a
    valid redirection target is continued and not completed.  The target
    is resolved against the URL of the request when it is relative (has no
    scheme), and the scheme of the request is given to a URL that has none
    after that; with a resolution that keeps the scheme of its base or
    leaves none, the new URL has the scheme of the request.  Exactly one
    transfer is started, to that URL and with the download type, the
    metadata and the list item of the old one; no message is shown and the
    docsets, feeds, temporary files, registry and counters stay as they
    are.  After any number of such redirections the reply to be answered
    next still carries the properties of the first, and a last response
    makes one completion, on that reply. *)
Theorem redirect_continues_transfer sender reply rsp rsps final s :
  wellFormed s →
  objects s !! sender = Some reply →
  rsp_error rsp = NoError →
  url_isValid (rsp_redirectionTarget rsp) = true →
  Forall (λ r, isRedirect r = true) rsps →
  let target := rsp_redirectionTarget rsp in
  let base := request_url reply in
  let url := redirectTarget reply target in
  (url_isRelative target = false → url = target)
  ∧ (url_isRelative target = true → url_scheme (resolved base target) ≠ "" →
     url = resolved base target)
  ∧ (url_isRelative target = true → url_scheme (resolved base target) = "" →
     url = url_setScheme (url_scheme base) (resolved base target))
  ∧ (url_isRelative target = true →
     url_scheme (resolved base target) = "" ∨
       url_scheme (resolved base target) = url_scheme base →
     url_scheme url = url_scheme base)
  ∧ Redirected sender reply url s (exec (downloadCompleted sender rsp) s)
  ∧ objects (exec (downloadCompleted sender rsp) s) !! nextReply s =
      Some (mkReply url (DocsetMetadataProperty reply) (DownloadTypeProperty reply) None
                    (ListItemIndexProperty reply))
  ∧ Continued reply (length rsps) s (followChain sender rsps s)
  ∧ exec (followChain sender (rsps ++ [final])) s =
      exec (downloadCompleted (followChain sender rsps s).1 final)
           (followChain sender rsps s).2.
Proof.
  intros Hwf Hobj Herr Hvalid Hall target base url.
  assert (Hred : isRedirect rsp = true).
  { unfold isRedirect. rewrite Herr, Hvalid. by rewrite bool_decide_eq_true_2. }
  pose proof (downloadCompleted_redirected _ _ _ _ Hobj Hred) as Hstep.
  split; [apply redirectTarget_absolute|].
  split.
  { intros Hrel Hs. unfold url. rewrite redirectTarget_relative by done.
    by rewrite bool_decide_eq_false_2. }
  split.
  { intros Hrel Hs. unfold url. rewrite redirectTarget_relative by done.
    by rewrite bool_decide_eq_true_2. }
  split.
  { intros Hrel Hs. unfold url. rewrite redirectTarget_relative by done.
    fold base target. case_bool_decide as Hempty; [done|]. by destruct Hs. }
  split; [done|].
  split; [by eapply Redirected_lookup|].
  split; [by apply followChain_redirects|].
  unfold exec at 1. by rewrite followChain_app, followChain_cons.
Qed.

(** C9, as amended: the dialog counts no redirections and follows every
    one: for a transfer whose first [n] responses are redirections, [n]
    transfers are started, one for each response, and the last of them is
    active, whatever [n] is; a response with an error ends the chain
    without another transfer. *)
Theorem redirects_followed_one_by_one sender reply rsps s :
  wellFormed s →
  objects s !! sender = Some reply →
  Forall (λ rsp, isRedirect rsp = true) rsps →
  transfersStarted (exec (followChain sender rsps) s)
    = (transfersStarted s + length rsps)%nat
  ∧ (rsps ≠ [] → (followChain sender rsps s).1 ∈ replies (exec (followChain sender rsps) s))
  ∧ (∀ final, rsp_error final ≠ NoError →
       transfersStarted (exec (followChain sender (rsps ++ [final])) s)
         = (transfersStarted s + length rsps)%nat).
Proof.
  intros Hwf Hobj Hall.
  pose proof (followChain_redirects _ _ _ _ Hwf Hobj Hall) as Hchain.
  pose proof (followChain_transfersStarted _ _ _ _ Hwf Hobj Hall) as Hn.
  split; [done|]. split.
  { intros Hne. apply (continued_active _ _ _ _ Hchain). destruct rsps; [done|]. cbn. lia. }
  intros final Herr.
  destruct (continued_reply _ _ _ _ Hchain) as (reply' & Hobj' & _).
  unfold exec at 1. rewrite followChain_app, followChain_cons. cbn [followChain ret snd].
  rewrite (downloadCompleted_error _ _ _ _ Hobj' Herr).
  rewrite <- Hn. unfold transfersStarted, exec. cbn.
  destruct (bool_decide _); [done|].
  rewrite filter_app, filter_cons_False by done.
  by rewrite filter_nil, app_nil_r.
Qed.

(** ** Feeds *)

Lemma downloadCompleted_feed sender reply rsp s :
  objects s !! sender = Some reply →
  DownloadTypeProperty reply = Some DownloadDashFeed →
  rsp_error rsp = NoError →
  url_isValid (rsp_redirectionTarget rsp) = false →
  downloadCompleted sender rsp s =
    (modify (with_replies (removeOne sender)) ;;
     (completedDashFeed reply rsp ;;
      let* s := get in when (bool_decide (replies s = [])) resetProgress) ;;
     modify (with_objects (delete sender))) s.
Proof.
  intros Hobj Htype Herr Hvalid.
  unfold downloadCompleted, bind, get. rewrite Hobj, Herr, Hvalid.
  rewrite bool_decide_eq_true_2 by done. unfold downloadType. by rewrite Htype.
Qed.

(** C2, as amended: a feed that is fetched and names a download URL is
    stored and fetched as an archive when its version is empty or differs
    from the version of the metadata that the feed transfer carries
    ([updateFeedDocsets] attaches the metadata of the installed docset
    whose feed it fetches; a transfer of [addDashFeed] carries none, which
    reads as the empty version).  The metadata is then stored in
    [m_userFeeds] under its name and exactly one transfer is started, to
    the URL of the metadata, of type [DownloadDocset] and carrying the
    metadata; with an empty version this happens whatever was stored
    before under that name.  A version that is not empty and is the one
    that the transfer carries stores nothing and starts nothing, whatever
    [m_userFeeds] holds under the name. *)
Theorem feed_with_new_version_fetches_archive sender reply rsp s :
  wellFormed s →
  objects s !! sender = Some reply →
  DownloadTypeProperty reply = Some DownloadDashFeed →
  rsp_error rsp = NoError →
  url_isValid (rsp_redirectionTarget rsp) = false →
  let metadata := fromDashFeed (request_url reply) (rsp_body rsp) in
  let oldMetadata := default DocsetMetadata_default (DocsetMetadataProperty reply) in
  md_urls metadata ≠ [] →
  let s' := exec (downloadCompleted sender rsp) s in
  (md_version metadata = "" ∨ md_version metadata ≠ md_version oldMetadata →
     m_userFeeds s' = <[md_name metadata := metadata]> (m_userFeeds s)
     ∧ effects s' = effects s ++ [Download (DocsetMetadata_url metadata) (nextReply s)]
     ∧ replies s' = removeOne sender (replies s) ++ [nextReply s]
     ∧ objects s' !! nextReply s =
         Some (mkReply (DocsetMetadata_url metadata) (Some metadata) (Some DownloadDocset)
                       None None))
  ∧ (md_version metadata ≠ "" → md_version metadata = md_version oldMetadata →
     m_userFeeds s' = m_userFeeds s
     ∧ effects s' = effects s
     ∧ replies s' = removeOne sender (replies s)).
Proof.
  intros Hwf Hobj Htype Herr Hvalid metadata oldMetadata Hurls s'.
  assert (Hfresh : sender ≠ nextReply s).
  { apply wellFormed_fresh; [done|]. by rewrite Hobj. }
  unfold s', exec. rewrite (downloadCompleted_feed _ _ _ _ Hobj Htype Herr Hvalid).
  unfold bind at 1 2. cbn [modify fst snd].
  unfold completedDashFeed. fold metadata oldMetadata.
  rewrite bool_decide_eq_false_2 by done.
  split.
  - intros Hnew.
    assert (Hcond : bool_decide (md_version metadata = "")
                    || negb (bool_decide (md_version oldMetadata = md_version metadata))
                    = true).
    { destruct Hnew as [->|Hne]; [done|].
      rewrite (bool_decide_eq_false_2 (md_version oldMetadata = _)) by congruence.
      apply orb_true_r. }
    rewrite Hcond.
    assert (Hnonempty :
      bool_decide (removeOne sender (replies s) ++ [nextReply s] = []) = false).
    { apply bool_decide_eq_false_2. by destruct (removeOne sender (replies s)). }
    unfold bind, get, when. cbn. rewrite Hnonempty. cbn.
    repeat split.
    rewrite !alter_insert_eq. by rewrite lookup_delete_ne, lookup_insert_eq.
  - intros Hversion Hsame.
    rewrite (bool_decide_eq_false_2 _ Hversion), (bool_decide_eq_true_2 _ (eq_sym Hsame)).
    unfold bind, get. cbn -[percent].
    destruct (bool_decide (removeOne sender (replies s) = [])); done.
Qed.

(** C4: after the confirmed request to delete a docset the registry does
    not contain it, and this is so when the removal of the directory is
    only queued.  When the removal fails a single message is shown and the
    registry is as it was: the watcher never changes the registry, so the
    docset stays removed. *)
Theorem delete_is_not_rolled_back docsetTitle docsetName dataDirExists s :
  DocsetRegistry.contains docsetName
    (m_docsetRegistry (exec (on_deleteButton_clicked docsetTitle docsetName Yes dataDirExists) s))
    = false
  ∧ m_docsetRegistry (exec (on_deleteButton_clicked docsetTitle docsetName Yes dataDirExists) s)
    = delete docsetName (m_docsetRegistry s)
  ∧ effects (exec (on_deleteButton_clicked docsetTitle docsetName Yes dataDirExists) s)
    = effects s
      ++ MessageBox Question "Remove Docset"
           ("Do you really want to remove <b>" +:+ docsetTitle +:+ "</b> docset?")
         :: (if dataDirExists
             then [RemoveRecursively (docsetPath s) (docsetName +:+ ".docset")] else [])
  ∧ (∀ s', m_docsetRegistry (exec (on_deleteButton_finished docsetTitle false) s')
           = m_docsetRegistry s'
         ∧ effects (exec (on_deleteButton_finished docsetTitle false) s')
           = effects s'
             ++ [MessageBox Warning "Error"
                   ("Cannot delete docset <b>" +:+ docsetTitle +:+ "</b>!")])
  ∧ DocsetRegistry.contains docsetName
      (m_docsetRegistry
         (exec (on_deleteButton_finished docsetTitle false)
            (exec (on_deleteButton_clicked docsetTitle docsetName Yes dataDirExists) s)))
    = false.
Proof.
  assert (Hfin : ∀ s', m_docsetRegistry (exec (on_deleteButton_finished docsetTitle false) s')
                       = m_docsetRegistry s'
                     ∧ effects (exec (on_deleteButton_finished docsetTitle false) s')
                       = effects s'
                         ++ [MessageBox Warning "Error"
                               ("Cannot delete docset <b>" +:+ docsetTitle +:+ "</b>!")]).
  { intros s'. unfold on_deleteButton_finished, exec, bind, get. cbn.
    destruct (findDocsetListItem _ _); cbn; done. }
  assert (Hreg : m_docsetRegistry
                   (exec (on_deleteButton_clicked docsetTitle docsetName Yes dataDirExists) s)
                 = delete docsetName (m_docsetRegistry s)).
  { unfold on_deleteButton_clicked, exec, bind, get. cbn. by destruct dataDirExists. }
  assert (Hgone : DocsetRegistry.contains docsetName (delete docsetName (m_docsetRegistry s))
                  = false).
  { unfold DocsetRegistry.contains. apply bool_decide_eq_false_2.
    rewrite lookup_delete_eq. by intros [? ?]. }
  split; [by rewrite Hreg|]. split; [done|]. split.
  { unfold on_deleteButton_clicked, exec, bind, get. cbn.
    destruct dataDirExists; cbn; by rewrite <- ?app_assoc. }
  split; [done|].
  destruct (Hfin (exec (on_deleteButton_clicked docsetTitle docsetName Yes dataDirExists) s))
    as [-> _].
  by rewrite Hreg.
Qed.

(** ** The catalog *)

(** C10: a request to download a docset that the catalog does not name
    changes nothing: the state, with its active transfers, counters,
    feeds, temporary files, view and effects, is returned as it came. *)
Theorem downloadDashDocset_unknown_name (name : string) (s : State) :
  m_availableDocsets s !! name = None →
  downloadDashDocset name s = (tt, s).
Proof.
  intros Hno. unfold downloadDashDocset, bind, get. by rewrite Hno.
Qed.

End Pipeline.
Section Catalog.
Context `{Platform}.

Lemma forEach_exec {A} (l : list A) (body : A → M unit) (s : State) :
  exec (forEach l body) s = foldl (λ s x, exec (body x) s) s l.
Proof.
  revert s. induction l as [|x l IH]; intros s; [done|].
  cbn. rewrite <- IH. unfold exec, bind. by destruct (body x s).
Qed.

(** A loop whose body keeps a part of the state keeps it. *)
Lemma forEach_keeps {A B} (part : State → B) (l : list A) (body : A → M unit) (s : State) :
  (∀ x s, part (exec (body x) s) = part s) →
  part (exec (forEach l body) s) = part s.
Proof.
  intros Hbody. rewrite forEach_exec. revert s.
  induction l as [|x l IH]; intros s; [done|]. cbn. by rewrite IH, Hbody.
Qed.

Lemma catalogEntry_name v : md_name (catalogEntry v) = member (toObject v) "name".
Proof. unfold catalogEntry, DocsetMetadata_fromJson, member. cbn. by rewrite lookup_insert_ne. Qed.

(** The name of the entry of a valid element is its [name] field. *)
Lemma validEntry_name v : validEntry v = true → nameField v = Some (md_name (catalogEntry v)).
Proof.
  rewrite catalogEntry_name. destruct v as [o|]; [|done]. cbn. unfold member.
  intros [[name Hname]%bool_decide_eq_true _]%andb_true_iff. by rewrite Hname.
Qed.

Lemma validCatalog_cons v array :
  validCatalog (v :: array) = true ↔ validEntry v = true ∧ validCatalog array = true.
Proof. unfold validCatalog. cbn. apply andb_true_iff. Qed.

Lemma validCatalog_app l1 l2 :
  validCatalog (l1 ++ l2) = true ↔ validCatalog l1 = true ∧ validCatalog l2 = true.
Proof. unfold validCatalog. rewrite forallb_app. apply andb_true_iff. Qed.

Lemma processDocsetList_catalog array s :
  m_availableDocsets (exec (processDocsetList array) s)
    = insertEntries (m_availableDocsets s) array.
Proof.
  unfold processDocsetList.
  set (ins := forEach array _).
  set (items := λ s : State, forEach (qmap_values (m_availableDocsets s)) _).
  assert (Hins : ∀ s, m_availableDocsets (exec ins s) = insertEntries (m_availableDocsets s) array).
  { intros s0. unfold ins. rewrite forEach_exec. unfold insertEntries.
    revert s0. induction array as [|v array IH]; intros s0; [done|]. cbn. by rewrite IH. }
  assert (Hitems : ∀ s0 s1, m_availableDocsets (exec (items s0) s1) = m_availableDocsets s1).
  { intros s0 s1. unfold items. by apply (forEach_keeps m_availableDocsets). }
  unfold exec, bind, get.
  destruct (ins s) as [[] s1] eqn:Hrun.
  change (m_availableDocsets (exec (items s1) s1) = insertEntries (m_availableDocsets s) array).
  rewrite Hitems. specialize (Hins s). unfold exec in Hins. by rewrite Hrun in Hins.
Qed.

Lemma insertEntries_dom m array :
  validCatalog array = true →
  dom (insertEntries m array) = dom m ∪ catalogNames array.
Proof.
  unfold insertEntries, catalogNames. revert m.
  induction array as [|v array IH]; intros m Hvalid.
  - cbn. apply set_eq. intros x. rewrite elem_of_union, elem_of_empty. tauto.
  - apply validCatalog_cons in Hvalid as [Hv Hvalid].
    cbn [foldl omap list_omap]. rewrite (validEntry_name v Hv). cbn [mbind option_bind].
    rewrite IH, dom_insert_L, list_to_set_cons by done.
    apply set_eq. intros x. rewrite !elem_of_union. tauto.
Qed.

Lemma insertEntries_other m array name :
  validCatalog array = true →
  name ∉ catalogNames array → insertEntries m array !! name = m !! name.
Proof.
  unfold insertEntries, catalogNames. revert m.
  induction array as [|v array IH]; intros m Hvalid Hnot; [done|].
  apply validCatalog_cons in Hvalid as [Hv Hvalid].
  cbn [omap list_omap] in Hnot. rewrite (validEntry_name v Hv) in Hnot.
  cbn [mbind option_bind] in Hnot.
  rewrite list_to_set_cons, not_elem_of_union, not_elem_of_singleton in Hnot.
  destruct Hnot as [Hne Hnot].
  cbn [foldl]. rewrite IH by done. by rewrite lookup_insert_ne.
Qed.

Lemma insertEntries_app m l1 l2 :
  insertEntries m (l1 ++ l2) = insertEntries (insertEntries m l1) l2.
Proof. unfold insertEntries. apply foldl_app. Qed.

(** The last entry of a name wins. *)
Lemma insertEntries_last m l1 v l2 name :
  validCatalog (l1 ++ v :: l2) = true →
  nameField v = Some name →
  (∀ w, w ∈ l2 → nameField w ≠ Some name) →
  insertEntries m (l1 ++ v :: l2) !! name = Some (catalogEntry v).
Proof.
  intros [_ [Hv Hvalid]%validCatalog_cons]%validCatalog_app Hname Hlast.
  rewrite (validEntry_name v Hv) in Hname. injection Hname as <-.
  rewrite insertEntries_app. cbn.
  change (foldl _ ?m' l2) with (insertEntries m' l2).
  rewrite insertEntries_other; [apply lookup_insert_eq|done|].
  unfold catalogNames. rewrite elem_of_list_to_set, list_elem_of_omap.
  intros (w & Hw & Heq). by apply (Hlast w Hw).
Qed.

Lemma downloadDocsetList_clears s :
  m_availableDocsets (exec downloadDocsetList s) = ∅.
Proof. reflexivity. Qed.

Lemma exec_seq {A B} (c : M A) (k : M B) (s : State) :
  exec (c ;; k) s = exec k (exec c s).
Proof. unfold exec, bind. by destruct (c s). Qed.

Lemma exec_bind {A B} (c : M A) (k : A → M B) (s : State) :
  exec (let* x := c in k x) s = exec (k (c s).1) (exec c s).
Proof. unfold exec, bind. by destruct (c s). Qed.

Lemma downloadCompleted_dispatch sender reply rsp s :
  objects s !! sender = Some reply →
  rsp_error rsp = NoError →
  url_isValid (rsp_redirectionTarget rsp) = false →
  downloadCompleted sender rsp s =
    (modify (with_replies (removeOne sender)) ;;
     (match downloadType reply with
      | DownloadDocsetList => completedDocsetList rsp
      | DownloadDashFeed => completedDashFeed reply rsp
      | DownloadDocset => completedDocset reply rsp
      end ;;
      let* s := get in when (bool_decide (replies s = [])) resetProgress) ;;
     modify (with_objects (delete sender))) s.
Proof.
  intros Hobj Herr Hvalid.
  unfold downloadCompleted, bind at 1, get. rewrite Hobj, Herr, Hvalid.
  by rewrite bool_decide_eq_true_2.
Qed.

Lemma exec_get (s : State) : exec get s = s.
Proof. reflexivity. Qed.

Lemma resetProgress_catalog (s : State) :
  m_availableDocsets (exec resetProgress s) = m_availableDocsets s.
Proof. reflexivity. Qed.

Lemma when_catalog (b : bool) (c : M unit) (s : State) :
  (∀ s, m_availableDocsets (exec c s) = m_availableDocsets s) →
  m_availableDocsets (exec (when b c) s) = m_availableDocsets s.
Proof. intros Hc. destruct b; [apply Hc|done]. Qed.

Lemma downloadCompleted_catalog sender reply rsp array s :
  objects s !! sender = Some reply →
  DownloadTypeProperty reply = Some DownloadDocsetList →
  rsp_error rsp = NoError →
  url_isValid (rsp_redirectionTarget rsp) = false →
  fromJson (rsp_body rsp) = inr array →
  m_availableDocsets (exec (downloadCompleted sender rsp) s)
    = insertEntries (m_availableDocsets s) array.
Proof.
  intros Hobj Htype Herr Hvalid Hjson.
  unfold exec at 1. rewrite (downloadCompleted_dispatch _ _ _ _ Hobj Herr Hvalid).
  unfold downloadType. rewrite Htype. cbv [default from_option id].
  unfold completedDocsetList. rewrite Hjson.
  change ((?c s).2) with (exec c s).
  rewrite !exec_seq, !exec_bind, !exec_get.
  change (m_availableDocsets (exec (modify (with_objects ?f)) ?s'))
    with (m_availableDocsets s').
  rewrite (when_catalog _ _ _ resetProgress_catalog), resetProgress_catalog.
  rewrite when_catalog by done.
  by rewrite processDocsetList_catalog.
Qed.

Lemma exec_bind_get {B} (k : State → M B) (s : State) :
  exec (let* x := get in k x) s = exec (k s) s.
Proof. reflexivity. Qed.

Lemma run_cons e signals s : exec (run (e :: signals)) s = exec (run signals) (exec (slot e) s).
Proof. unfold run. cbn [forEach]. by rewrite exec_seq. Qed.

(** *** An empty catalog stays empty *)

Lemma empty_ret {A} (a : A) : keepsEmpty (ret a).
Proof. by intros s. Qed.

Lemma empty_get : keepsEmpty get.
Proof. by intros s. Qed.

Lemma empty_bind {A B} (c : M A) (k : A → M B) :
  keepsEmpty c → (∀ a, keepsEmpty (k a)) → keepsEmpty (let* x := c in k x).
Proof. intros Hc Hk s Hs. rewrite exec_bind. by apply Hk, Hc. Qed.

(** A change of the state that leaves the catalog. *)
Lemma empty_modify (f : State → State) :
  (∀ s, m_availableDocsets (f s) = m_availableDocsets s) → keepsEmpty (modify f).
Proof. intros Hf s Hs. unfold exec. cbn. by rewrite Hf. Qed.

Lemma empty_clear : keepsEmpty (modify (with_availableDocsets (λ _, ∅))).
Proof. by intros s _. Qed.

Lemma empty_when (b : bool) (c : M unit) : keepsEmpty c → keepsEmpty (when b c).
Proof. intros Hc. destruct b; [done|apply empty_ret]. Qed.

Lemma empty_forEach {A} (l : list A) (body : A → M unit) :
  (∀ x, keepsEmpty (body x)) → keepsEmpty (forEach l body).
Proof.
  intros Hbody. induction l as [|x l IH]; [apply empty_ret|].
  cbn [forEach]. apply empty_bind; [apply Hbody|done].
Qed.

End Catalog.

Ltac head_of c :=
  lazymatch c with
  | ?f _ => head_of f
  | _ => c
  end.

(** The slots are taken apart along their structure. *)
Ltac empty_step :=
  lazymatch goal with
  | |- keepsEmpty (ret _) => apply empty_ret
  | |- keepsEmpty get => apply empty_get
  | |- keepsEmpty (setUi _) => apply empty_modify; reflexivity
  | |- keepsEmpty (setItem _ _) => apply empty_modify; reflexivity
  | |- keepsEmpty (setProperty _ _) => apply empty_modify; reflexivity
  | |- keepsEmpty (emit _) => apply empty_modify; reflexivity
  | |- keepsEmpty (modify (with_availableDocsets (λ _, ∅))) => apply empty_clear
  | |- keepsEmpty (modify _) => apply empty_modify; reflexivity
  | |- keepsEmpty (when _ _) => apply empty_when
  | |- keepsEmpty (forEach _ _) => apply empty_forEach; intros ?
  | |- keepsEmpty (bind _ _) => apply empty_bind; [|intros ?]
  | |- keepsEmpty (match ?x with _ => _ end) => destruct x
  | |- keepsEmpty ?c => let h := head_of c in unfold h
  end.

Ltac empty_all := repeat empty_step.

Section CatalogFetch.
Context `{Platform}.

(** The completion of a transfer that does not complete a catalog
    fetch leaves an empty catalog empty. *)
Lemma downloadCompleted_keeps_empty sender rsp s :
  completesCatalog (Finished sender rsp) s = false →
  m_availableDocsets s = ∅ →
  m_availableDocsets (exec (downloadCompleted sender rsp) s) = ∅.
Proof.
  intros Hnot. unfold downloadCompleted. rewrite exec_bind_get.
  cbn [completesCatalog] in Hnot.
  destruct (objects s !! sender) as [reply|]; [|done].
  revert s.
  change (keepsEmpty
            (modify (with_replies (removeOne sender)) ;;
             (if negb (bool_decide (rsp_error rsp = NoError)) then
                when (negb (bool_decide (rsp_error rsp = OperationCanceledError)))
                     (emit (MessageBox Warning (tr "Network Error") (rsp_errorString rsp)))
              else
                let redirectUrl := rsp_redirectionTarget rsp in
                if url_isValid redirectUrl then followRedirect reply redirectUrl
                else
                  match downloadType reply with
                  | DownloadDocsetList => completedDocsetList rsp
                  | DownloadDashFeed => completedDashFeed reply rsp
                  | DownloadDocset => completedDocset reply rsp
                  end ;;
                  let* s := get in
                  when (bool_decide (replies s = [])) resetProgress) ;;
             modify (with_objects (delete sender)))).
  apply empty_bind; [empty_all|intros _].
  apply empty_bind; [|intros _; empty_all].
  destruct (bool_decide (rsp_error rsp = NoError)); cbn [negb]; [|empty_all].
  cbv zeta. destruct (url_isValid (rsp_redirectionTarget rsp)); [empty_all|].
  apply empty_bind; [|intros _; empty_all].
  destruct (downloadType reply); [empty_all|empty_all|].
  unfold completedDocsetList.
  destruct (fromJson (rsp_body rsp)); [empty_all|].
  by rewrite bool_decide_eq_true_2 in Hnot.
Qed.

Lemma slot_keeps_empty e s :
  completesCatalog e s = false →
  m_availableDocsets s = ∅ →
  m_availableDocsets (exec (slot e) s) = ∅.
Proof.
  destruct e; cbn [slot];
    lazymatch goal with
    | |- context [downloadCompleted] => apply downloadCompleted_keeps_empty
    | |- _ → _ → m_availableDocsets (exec ?c s) = ∅ =>
        intros _; revert s; change (keepsEmpty c); empty_all
    end.
Qed.

(** In a history without a completed catalog fetch an empty catalog
    stays empty. *)
Lemma run_keeps_empty signals s :
  noCatalogCompleted signals s = true →
  m_availableDocsets s = ∅ →
  m_availableDocsets (exec (run signals) s) = ∅.
Proof.
  revert s. induction signals as [|e signals IH]; intros s Hnone Hempty; [done|].
  cbn [noCatalogCompleted] in Hnone.
  apply andb_true_iff in Hnone as [Hnot%negb_true_iff Hnone].
  rewrite run_cons. apply IH; [done|]. by apply slot_keeps_empty.
Qed.

(** C5, as amended: the prior snapshot is discarded when a catalog fetch
    is started, not when it completes.  Processing the completed fetch
    of a valid catalog array adds the entries of the array to the
    mapping: the key set grows by the [name] fields of the array, the
    last entry of a name wins, and other names keep what they had.  So
    the key set is exactly the set of the [name] fields of the array
    when the mapping is empty at the completion; and it is empty then in
    every history of the dialog in which no catalog fetch was completed
    since a catalog fetch was started. *)
Theorem catalog_fetch_fills_cleared_mapping sender reply rsp array signals s0 s :
  objects s !! sender = Some reply →
  DownloadTypeProperty reply = Some DownloadDocsetList →
  rsp_error rsp = NoError →
  url_isValid (rsp_redirectionTarget rsp) = false →
  fromJson (rsp_body rsp) = inr array →
  validCatalog array = true →
  let catalog := m_availableDocsets (exec (downloadCompleted sender rsp) s) in
  m_availableDocsets (exec downloadDocsetList s0) = ∅
  ∧ dom catalog = dom (m_availableDocsets s) ∪ catalogNames array
  ∧ (m_availableDocsets s = ∅ → dom catalog = catalogNames array)
  ∧ (s = exec (run signals) (exec downloadDocsetList s0) →
     noCatalogCompleted signals (exec downloadDocsetList s0) = true →
     m_availableDocsets s = ∅ ∧ dom catalog = catalogNames array)
  ∧ (∀ l1 v l2 name, array = l1 ++ v :: l2 →
       nameField v = Some name →
       (∀ w, w ∈ l2 → nameField w ≠ Some name) →
       catalog !! name = Some (catalogEntry v))
  ∧ (∀ name, name ∉ catalogNames array → catalog !! name = m_availableDocsets s !! name).
Proof.
  intros Hobj Htype Herr Hvalid Hjson Harray catalog.
  unfold catalog. rewrite (downloadCompleted_catalog _ _ _ _ _ Hobj Htype Herr Hvalid Hjson).
  assert (Hfilled : m_availableDocsets s = ∅ →
                    dom (insertEntries (m_availableDocsets s) array) = catalogNames array).
  { intros Hempty. rewrite insertEntries_dom, Hempty, dom_empty_L by done.
    apply set_eq. intros x. rewrite elem_of_union, elem_of_empty. tauto. }
  split; [apply downloadDocsetList_clears|].
  split; [by apply insertEntries_dom|].
  split; [done|].
  split.
  { intros -> Hnone.
    assert (Hempty : m_availableDocsets (exec (run signals) (exec downloadDocsetList s0)) = ∅)
      by (apply run_keeps_empty; [done|apply downloadDocsetList_clears]).
    split; [done|]. by apply Hfilled. }
  split.
  { intros l1 v l2 name -> Hname Hlast. by apply insertEntries_last. }
  intros name. by apply insertEntries_other.
Qed.

End CatalogFetch.
(** ** Stopping *)

Section Stopping.
Context `{Platform}.

(** A loop whose body does nothing in the states of an invariant does
    nothing in them. *)
Lemma forEach_idle {A} (P : State → Prop) (l : list A) (body : A → M unit) (s : State) :
  (∀ x s, P s → exec (body x) s = s) → P s → exec (forEach l body) s = s.
Proof.
  intros Hbody HP. rewrite forEach_exec.
  induction l as [|x l IH]; [done|]. cbn. by rewrite Hbody.
Qed.

(** With no item in the list of available docsets, [stopDownloads] aborts
    nothing: the loop passes every reply by. *)
Lemma stopDownloads_without_items (s : State) :
  availableDocsetList (ui s) = [] →
  effects (exec stopDownloads s) = effects s ∧ replies (exec stopDownloads s) = replies s.
Proof.
  intros Hnone. unfold stopDownloads.
  rewrite exec_bind, exec_seq, exec_get. cbn [get fst].
  rewrite (forEach_idle (λ s, availableDocsetList (ui s) = [])); [done| |done].
  intros p s' Hs'. rewrite exec_bind, exec_get. cbn [get fst].
  destruct (objects s' !! p) as [r|]; [|done].
  unfold item. rewrite Hs'. cbn. by case_decide; [lia|].
Qed.

Lemma item_same_length row s s' :
  length (availableDocsetList (ui s')) = length (availableDocsetList (ui s)) →
  item row s' = item row s.
Proof. unfold item. by intros ->. Qed.

Lemma listed_same s s' p :
  objects s' = objects s →
  length (availableDocsetList (ui s')) = length (availableDocsetList (ui s)) →
  listed s' p = listed s p.
Proof.
  intros Hobj Hlen. unfold listed. rewrite Hobj.
  destruct (objects s !! p); [|done]. by rewrite (item_same_length _ s s').
Qed.

(** [stopDownloads] aborts the replies that have a list item, in the
    order of the active transfers, and no other; the active transfers
    stay as they are. *)
Lemma stopDownloads_aborts_listed (s : State) :
  effects (exec stopDownloads s)
    = effects s ++ (Abort <$> filter (λ p, listed s p = true) (replies s))
  ∧ replies (exec stopDownloads s) = replies s.
Proof.
  unfold stopDownloads. rewrite exec_bind, exec_seq, exec_get. cbn [get fst].
  set (body := λ reply : ReplyPtr, _).
  assert (Hloop : ∀ l s',
    objects s' = objects s →
    length (availableDocsetList (ui s')) = length (availableDocsetList (ui s)) →
    effects (exec (forEach l body) s')
      = effects s' ++ (Abort <$> filter (λ p, listed s p = true) l)
    ∧ replies (exec (forEach l body) s') = replies s').
  { induction l as [|p l IH]; intros s' Hobj Hlen.
    - cbn. by rewrite app_nil_r.
    - cbn [forEach]. rewrite exec_seq.
      assert (Hstep : objects (exec (body p) s') = objects s
                ∧ length (availableDocsetList (ui (exec (body p) s')))
                  = length (availableDocsetList (ui s))
                ∧ effects (exec (body p) s')
                  = effects s' ++ (if listed s p then [Abort p] else [])
                ∧ replies (exec (body p) s') = replies s').
      { unfold body. rewrite exec_bind, exec_get. cbn [get fst].
        rewrite <- (listed_same s s' p Hobj Hlen). unfold listed.
        destruct (objects s' !! p) as [r|]; [|by rewrite app_nil_r].
        destruct (item (listItemIndex r) s') as [i|]; cbn.
        - by rewrite length_alter.
        - by rewrite app_nil_r. }
      destruct Hstep as (Hobj' & Hlen' & Heff' & Hrep').
      destruct (IH _ Hobj' Hlen') as [Heff Hrep].
      rewrite Heff, Hrep, Heff', Hrep'. split; [|done].
      rewrite <- app_assoc. f_equal.
      destruct (listed s p) eqn:Hl.
      + by rewrite filter_cons_True.
      + rewrite filter_cons_False; [done|]. by rewrite Hl. }
  destruct (Hloop (replies s) s eq_refl eq_refl) as [Heff Hrep].
  change (effects (exec resetProgress ?s')) with (effects s').
  change (replies (exec resetProgress ?s')) with (replies s').
  by rewrite Heff, Hrep.
Qed.

(** Whatever it aborts, [stopDownloads] resets the counters. *)
Lemma stopDownloads_resets (s : State) :
  m_combinedReceived (exec stopDownloads s) = 0%Z
  ∧ m_combinedTotal (exec stopDownloads s) = 0%Z.
Proof.
  unfold stopDownloads. rewrite exec_bind, exec_seq. done.
Qed.

(** A cancelled transfer completes in silence, another error is shown. *)
Lemma downloadCompleted_cancelled sender reply rsp s :
  objects s !! sender = Some reply →
  rsp_error rsp = OperationCanceledError →
  effects (exec (downloadCompleted sender rsp) s) = effects s.
Proof.
  intros Hobj Herr. rewrite (downloadCompleted_error _ _ _ _ Hobj) by (by rewrite Herr).
  cbn. by rewrite Herr.
Qed.

Lemma downloadCompleted_failed sender reply rsp code s :
  objects s !! sender = Some reply →
  rsp_error rsp = OtherNetworkError code →
  effects (exec (downloadCompleted sender rsp) s)
    = effects s ++ [MessageBox Warning "Network Error" (rsp_errorString rsp)].
Proof.
  intros Hobj Herr. rewrite (downloadCompleted_error _ _ _ _ Hobj) by (by rewrite Herr).
  cbn. by rewrite Herr.
Qed.

(** A transfer that ends with an error leaves the counters and the view
    as they are, also when it was the last one. *)
Lemma downloadCompleted_error_keeps_progress sender reply rsp s :
  objects s !! sender = Some reply →
  rsp_error rsp ≠ NoError →
  m_combinedReceived (exec (downloadCompleted sender rsp) s) = m_combinedReceived s
  ∧ m_combinedTotal (exec (downloadCompleted sender rsp) s) = m_combinedTotal s
  ∧ ui (exec (downloadCompleted sender rsp) s) = ui s.
Proof.
  intros Hobj Herr. by rewrite (downloadCompleted_error _ _ _ _ Hobj Herr).
Qed.

(** The last transfer completes with an archive: the counters are reset
    and the buttons are enabled. *)
Lemma downloadCompleted_last_archive_resets sender reply rsp s :
  objects s !! sender = Some reply →
  DownloadTypeProperty reply = Some DownloadDocset →
  rsp_error rsp = NoError →
  url_isValid (rsp_redirectionTarget rsp) = false →
  removeOne sender (replies s) = [] →
  replies (exec (downloadCompleted sender rsp) s) = []
  ∧ m_combinedReceived (exec (downloadCompleted sender rsp) s) = 0%Z
  ∧ m_combinedTotal (exec (downloadCompleted sender rsp) s) = 0%Z
  ∧ downloadButton_enabled (ui (exec (downloadCompleted sender rsp) s)) = true
  ∧ updateButton_enabled (ui (exec (downloadCompleted sender rsp) s)) = true
  ∧ addFeedButton_enabled (ui (exec (downloadCompleted sender rsp) s)) = true.
Proof.
  intros Hobj Htype Herr Hvalid Hlast.
  unfold exec. rewrite (downloadCompleted_dispatch _ _ _ _ Hobj Herr Hvalid).
  unfold downloadType. rewrite Htype. cbv [default from_option id].
  unfold completedDocset, bind, get. cbn.
  destruct (findDocsetListItem _ _); cbn; rewrite Hlast; cbn; done.
Qed.

End Stopping.

(** ** Extraction *)

Section Extraction.
Context `{Platform}.

Lemma deleteTmpFile_other key name s :
  name ≠ key → m_tmpFiles (exec (deleteTmpFile key) s) !! name = m_tmpFiles s !! name.
Proof.
  intros Hne. unfold deleteTmpFile. rewrite exec_bind, exec_get. cbn [get fst].
  destruct (m_tmpFiles s !! key); [|done]. cbn. by rewrite lookup_delete_ne.
Qed.

Lemma deleteTmpFile_key key tmpFile s :
  m_tmpFiles s !! key = Some tmpFile →
  m_tmpFiles (exec (deleteTmpFile key) s) !! key = None
  ∧ disk (exec (deleteTmpFile key) s) !! fileName tmpFile = None.
Proof.
  intros Hkey. unfold deleteTmpFile. rewrite exec_bind, exec_get. cbn [get fst].
  rewrite Hkey. cbn. by rewrite !lookup_delete_eq.
Qed.

(** [extractionError] looks the temporary file up under the base name of
    its path, and leaves every entry of another key where it is. *)
Lemma extractionError_keeps filePath errorString name s :
  name ≠ baseName filePath +:+ ".docset" →
  m_tmpFiles (exec (extractionError filePath errorString) s) !! name = m_tmpFiles s !! name.
Proof.
  intros Hne. unfold extractionError. rewrite exec_seq.
  by rewrite deleteTmpFile_other.
Qed.

Lemma tmpFileKey_unique filePath name tmpFile s :
  m_tmpFiles s !! name = Some tmpFile →
  fileName tmpFile = filePath →
  (∀ key other, m_tmpFiles s !! key = Some other → fileName other = filePath → key = name) →
  tmpFileKey filePath s = name.
Proof.
  intros Hname Hpath Huniq. unfold tmpFileKey.
  destruct (List.find _ _) as [[key other]|] eqn:Hfind; cbn.
  - apply find_some in Hfind as [Hin Hmatch].
    apply list_elem_of_In, elem_of_map_to_list in Hin.
    apply bool_decide_eq_true in Hmatch. by apply (Huniq key other).
  - exfalso.
    assert (Hin : In (name, tmpFile) (map_to_list (m_tmpFiles s)))
      by (by apply list_elem_of_In, elem_of_map_to_list).
    pose proof (find_none _ _ Hfind _ Hin) as Hno. cbn in Hno.
    by rewrite bool_decide_eq_true_2 in Hno.
Qed.

(** [extractionCompleted] finds the key by the path of the temporary file
    and removes the entry and the file. *)
Lemma extractionCompleted_removes filePath name tmpFile s :
  m_tmpFiles s !! name = Some tmpFile →
  fileName tmpFile = filePath →
  (∀ key other, m_tmpFiles s !! key = Some other → fileName other = filePath → key = name) →
  m_tmpFiles (exec (extractionCompleted filePath) s) !! name = None
  ∧ disk (exec (extractionCompleted filePath) s) !! filePath = None.
Proof.
  intros Hname Hpath Huniq. unfold extractionCompleted.
  rewrite exec_bind, exec_get. cbn [get fst].
  rewrite (tmpFileKey_unique _ _ _ _ Hname Hpath Huniq).
  rewrite exec_bind, !exec_seq, exec_bind, exec_get, !exec_seq.
  rewrite <- Hpath. apply deleteTmpFile_key.
  set (m := (metadataOf name s).1).
  assert (Hmeta : m_tmpFiles (exec (metadataOf name) s) = m_tmpFiles s).
  { unfold metadataOf, index_userFeeds. rewrite exec_bind, exec_get. cbn [get fst].
    destruct (m_availableDocsets s !! name); [done|].
    rewrite exec_bind, exec_get. cbn [get fst].
    by destruct (m_userFeeds s !! name). }
  change (m_tmpFiles (exec resetProgress ?s')) with (m_tmpFiles s').
  assert (Hitem : ∀ it f s', m_tmpFiles (exec (ifItem it f) s') = m_tmpFiles s').
  { intros [i|] f s'; reflexivity. }
  rewrite Hitem. cbn. by rewrite Hmeta.
Qed.

End Extraction.
(** ** The dialog at work

    Runs of the dialog on the platform [Sample]. *)

Section AtWork.
Import Sample.

Lemma fetching_wellFormed : wellFormed fetching.
Proof. apply (bool_decide_unpack (wellFormed fetching)). vm_compute. exact I. Qed.

Lemma redirections_redirect n : Forall (λ rsp, isRedirect rsp = true) (redirections n).
Proof. apply Forall_replicate. reflexivity. Qed.

(** C1, what fails: a reply can carry a redirection target and an error,
    as when the connection breaks after the headers of the redirection.
    The dialog then shows the error and starts no transfer. *)
Lemma redirect_with_error_is_not_followed :
  url_isValid (rsp_redirectionTarget brokenRedirect) = true
  ∧ replies fetching = [0%nat]
  ∧ effects (exec (downloadCompleted 0%nat brokenRedirect) fetching)
    = effects fetching ++ [MessageBox Warning "Network Error" "Connection closed"]
  ∧ transfersStarted (exec (downloadCompleted 0%nat brokenRedirect) fetching)
    = transfersStarted fetching
  ∧ replies (exec (downloadCompleted 0%nat brokenRedirect) fetching) = [].
Proof. by vm_compute. Qed.

Lemma redirect_continues_transfer_witness :
  wellFormed fetching
  ∧ Redirected 0%nat (mkReply (urlOf "http://feeds.example/go.xml") None (Some DownloadDashFeed)
                          None None)
      (urlOf "http://mirror.example/go.xml") fetching
      (exec (downloadCompleted 0%nat (redirectTo "//mirror.example/go.xml")) fetching)
  ∧ Continued (mkReply (urlOf "http://feeds.example/go.xml") None (Some DownloadDashFeed)
                       None None)
      2%nat fetching (followChain 0%nat (redirections 2) fetching).
Proof.
  split; [exact fetching_wellFormed|].
  pose proof (redirect_continues_transfer 0%nat
                (mkReply (urlOf "http://feeds.example/go.xml") None (Some DownloadDashFeed)
                         None None)
                (redirectTo "//mirror.example/go.xml") (redirections 2) (ok ";")
                fetching fetching_wellFormed eq_refl eq_refl eq_refl
                (redirections_redirect 2)) as Hthm.
  cbv zeta in Hthm. split; apply Hthm.
Defined.

(** C9, what fails: no number bounds the redirections that the dialog
    follows.  A server that answers every request of a transfer with a
    redirection makes the dialog start a transfer for each answer. *)
Lemma redirects_unbounded :
  ¬ ∃ bound : nat, ∀ rsps : list Response,
      Forall (λ rsp, isRedirect rsp = true) rsps →
      (transfersStarted (exec (followChain 0%nat rsps) fetching) - transfersStarted fetching
       ≤ bound)%nat.
Proof.
  intros [bound Hbound].
  specialize (Hbound (redirections (S bound)) (redirections_redirect _)).
  rewrite (followChain_transfersStarted _ 0%nat
             (mkReply (urlOf "http://feeds.example/go.xml") None (Some DownloadDashFeed)
                      None None))
    in Hbound; [|exact fetching_wellFormed|reflexivity|apply redirections_redirect].
  unfold redirections in Hbound. rewrite length_replicate in Hbound. lia.
Qed.

Lemma redirects_followed_one_by_one_witness :
  transfersStarted (exec (followChain 0%nat (redirections 3)) fetching) = 4%nat
  ∧ (followChain 0%nat (redirections 3) fetching).1
      ∈ replies (exec (followChain 0%nat (redirections 3)) fetching).
Proof.
  destruct (redirects_followed_one_by_one 0%nat
              (mkReply (urlOf "http://feeds.example/go.xml") None (Some DownloadDashFeed)
                       None None)
              (redirections 3) fetching fetching_wellFormed eq_refl
              (redirections_redirect 3)) as (Hn & Hactive & _).
  split; [exact Hn|]. apply Hactive. discriminate.
Defined.

(** A feed without a version is fetched as an archive although a version
    [7] of the same name is stored. *)
Lemma feed_with_new_version_fetches_archive_witness :
  m_userFeeds fetchingAgain !! "go" = Some go7
  ∧ m_userFeeds (exec (downloadCompleted 0%nat (ok ";http://x/go.tgz")) fetchingAgain) !! "go"
    = Some (feedOf (urlOf "http://feeds.example/go.xml") ";http://x/go.tgz")
  ∧ effects (exec (downloadCompleted 0%nat (ok ";http://x/go.tgz")) fetchingAgain)
    = effects fetchingAgain ++ [Download (urlOf "http://x/go.tgz") 1%nat].
Proof.
  split; [reflexivity|].
  assert (Hwf : wellFormed fetchingAgain)
    by (apply (bool_decide_unpack (wellFormed fetchingAgain)); vm_compute; exact I).
  pose proof (feed_with_new_version_fetches_archive 0%nat
                (mkReply (urlOf "http://feeds.example/go.xml") None (Some DownloadDashFeed)
                         None None)
                (ok ";http://x/go.tgz") fetchingAgain Hwf eq_refl eq_refl eq_refl eq_refl)
    as Hthm.
  cbv zeta in Hthm.
  destruct Hthm as [Hnew _]; [by vm_compute|].
  destruct Hnew as (Hfeeds & Heff & _); [by left|].
  split; [|exact Heff].
  rewrite Hfeeds. apply lookup_insert_eq.
Defined.

(** C2, what fails: the version that is stored under the name of the
    docset is not what the feed is compared with.  In [updating] the
    feeds of the dialog hold [go] at version [6] and the reply [2]
    carries the metadata of the installed docset, of version [7]; a
    feed of version [7] differs from the stored version and is neither
    stored nor fetched. *)
Lemma stored_version_is_not_compared :
  (md_version <$> m_userFeeds updating !! "go") = Some "6"
  ∧ (DocsetMetadataProperty <$> objects updating !! 2%nat) = Some (Some go7)
  ∧ (DownloadTypeProperty <$> objects updating !! 2%nat) = Some (Some DownloadDashFeed)
  ∧ md_version (fromDashFeed (urlOf "http://feeds.example/go.xml") "7;http://x/go-7.tgz") = "7"
  ∧ md_urls (fromDashFeed (urlOf "http://feeds.example/go.xml") "7;http://x/go-7.tgz")
    = [urlOf "http://x/go-7.tgz"]
  ∧ m_userFeeds (exec (downloadCompleted 2%nat (ok "7;http://x/go-7.tgz")) updating)
    = m_userFeeds updating
  ∧ effects (exec (downloadCompleted 2%nat (ok "7;http://x/go-7.tgz")) updating)
    = effects updating.
Proof. by vm_compute. Qed.

(** An update fetches the feed of the installed docset on a transfer that
    carries the installed metadata: a feed of the same version starts
    nothing, a feed of another version is stored and fetched. *)
Lemma update_compares_with_installed_version :
  (DocsetMetadataProperty <$> objects (exec (updateFeedDocsets No) installed) !! 0%nat)
    = Some (Some go7)
  ∧ transfersStarted
      (exec (downloadCompleted 0%nat (ok "7;http://x/go-7.tgz"))
            (exec (updateFeedDocsets No) installed)) = 1%nat
  ∧ m_userFeeds
      (exec (downloadCompleted 0%nat (ok "7;http://x/go-7.tgz"))
            (exec (updateFeedDocsets No) installed)) = ∅
  ∧ transfersStarted
      (exec (downloadCompleted 0%nat (ok "8;http://x/go-8.tgz"))
            (exec (updateFeedDocsets No) installed)) = 2%nat
  ∧ (md_version <$>
       m_userFeeds
         (exec (downloadCompleted 0%nat (ok "8;http://x/go-8.tgz"))
               (exec (updateFeedDocsets No) installed)) !! "go") = Some "8".
Proof. by vm_compute. Qed.

(** C5, what fails: with two catalog fetches in flight the completion of
    the second finds the snapshot of the first and keeps its entries: [a]
    and [c] stay in the mapping although the second array only names
    [b]. *)
Lemma overlapping_catalog_fetches_merge :
  fromJson "b" = inr [JsonObject {[ "name" := "b"; "title" := "b" ]}]
  ∧ validCatalog [JsonObject {[ "name" := "b"; "title" := "b" ]}] = true
  ∧ is_Some (m_availableDocsets (exec (downloadCompleted 1%nat (ok "b")) firstCatalogLoaded)
               !! "a")
  ∧ dom (m_availableDocsets (exec (downloadCompleted 1%nat (ok "b")) firstCatalogLoaded))
    ≠ catalogNames [JsonObject {[ "name" := "b"; "title" := "b" ]}].
Proof.
  split; [reflexivity|]. split; [reflexivity|].
  assert (Ha : is_Some (m_availableDocsets
                          (exec (downloadCompleted 1%nat (ok "b")) firstCatalogLoaded) !! "a")).
  { vm_compute. eauto. }
  split; [exact Ha|].
  intros Heq.
  assert (Hin : "a" ∈ dom (m_availableDocsets
                             (exec (downloadCompleted 1%nat (ok "b")) firstCatalogLoaded)))
    by (by apply elem_of_dom).
  rewrite Heq in Hin. unfold catalogNames in Hin.
  apply elem_of_list_to_set, list_elem_of_omap in Hin as (v & Hv & Hname).
  apply list_elem_of_singleton in Hv as ->. by vm_compute in Hname.
Qed.

(** A catalog fetch is started where a catalog was loaded, the reply
    [2]; the docsets tab is shown again, which starts another fetch and
    clears the catalog, and a feed is added, makes progress and fails;
    then the reply [2] completes: the catalog holds the names of its
    array and nothing of the catalog that was loaded before. *)
Lemma catalog_fetch_fills_cleared_mapping_witness :
  noCatalogCompleted Cases.meanwhile (exec downloadDocsetList firstCatalogLoaded) = true
  ∧ validCatalog Cases.abaArray = true
  ∧ dom (m_availableDocsets firstCatalogLoaded) = {[ "a"; "c" ]}
  ∧ dom (m_availableDocsets
           (exec (downloadCompleted 2%nat (ok "a,b,a"))
              (exec (run Cases.meanwhile) (exec downloadDocsetList firstCatalogLoaded))))
    = catalogNames Cases.abaArray.
Proof.
  split; [reflexivity|]. split; [reflexivity|]. split; [by vm_compute|].
  pose proof (catalog_fetch_fills_cleared_mapping 2%nat
                (mkReply (urlOf "http://api.zealdocs.org/docsets") None
                         (Some DownloadDocsetList) None None)
                (ok "a,b,a") Cases.abaArray Cases.meanwhile firstCatalogLoaded
                (exec (run Cases.meanwhile) (exec downloadDocsetList firstCatalogLoaded))
                eq_refl eq_refl eq_refl eq_refl eq_refl eq_refl)
    as (_ & _ & _ & Hhistory & _).
  by destruct (Hhistory eq_refl eq_refl) as [_ Hdom].
Defined.

Lemma downloadDashDocset_unknown_name_witness :
  m_availableDocsets fetching !! "go" = None
  ∧ downloadDashDocset "go" fetching = (tt, fetching).
Proof.
  split; [reflexivity|]. apply downloadDashDocset_unknown_name. reflexivity.
Defined.

(** C3, where the code fails: the feed transfer of [fetching] is active
    and the list of available docsets is empty.  [stopDownloads] finds no
    list item for the reply and passes it by: nothing is aborted and the
    transfer stays active, while the counters are reset and the buttons
    are enabled as if nothing were in flight. *)
Theorem stopDownloads_passes_unlisted_reply :
  replies fetching = [0%nat]
  ∧ availableDocsetList (ui fetching) = []
  ∧ filter (λ e, isAbort e = true) (effects (exec stopDownloads fetching)) = []
  ∧ replies (exec stopDownloads fetching) = [0%nat]
  ∧ (m_combinedReceived (exec stopDownloads fetching),
     m_combinedTotal (exec stopDownloads fetching)) = (0%Z, 0%Z)
  ∧ addFeedButton_enabled (ui (exec stopDownloads fetching)) = true.
Proof. by vm_compute. Qed.

(** C7, where the code fails: the only transfer of [downloading] fails
    with a network error.  The active transfers become empty, and the
    counters and the buttons stay as they were during the transfer. *)
Theorem failed_last_transfer_keeps_progress :
  replies downloading = [0%nat]
  ∧ replies (exec (downloadCompleted 0%nat (failed 3 "Host not found")) downloading) = []
  ∧ (m_combinedReceived (exec (downloadCompleted 0%nat (failed 3 "Host not found")) downloading),
     m_combinedTotal (exec (downloadCompleted 0%nat (failed 3 "Host not found")) downloading))
    = (20480%Z, 40960%Z)
  ∧ updateButton_enabled
      (ui (exec (downloadCompleted 0%nat (failed 3 "Host not found")) downloading)) = false
  ∧ addFeedButton_enabled
      (ui (exec (downloadCompleted 0%nat (failed 3 "Host not found")) downloading)) = false
  ∧ downloadButton_enabled
      (ui (exec (downloadCompleted 0%nat (failed 3 "Host not found")) downloading)) = false.
Proof. by vm_compute. Qed.

(** C8, where the code fails: the docset [go] of [extracting] is pending
    with the temporary file [/tmp/zeal.x].  On the error of the extraction
    the dialog looks for the key [zeal.docset], made of the base name of
    the path; the entry of [go] stays in the table and the file stays on
    the disk.  On the completion both are removed. *)
Theorem extraction_error_keeps_temporary_file :
  m_tmpFiles extracting !! "go" = Some (mkTmp "/tmp/zeal.x")
  ∧ m_tmpFiles (exec (extractionError "/tmp/zeal.x" "corrupt") extracting) !! "go"
    = Some (mkTmp "/tmp/zeal.x")
  ∧ disk (exec (extractionError "/tmp/zeal.x" "corrupt") extracting) !! "/tmp/zeal.x"
    = Some "BYTES"
  ∧ m_tmpFiles (exec (extractionCompleted "/tmp/zeal.x") extracting) !! "go" = None
  ∧ disk (exec (extractionCompleted "/tmp/zeal.x") extracting) !! "/tmp/zeal.x" = None.
Proof. by vm_compute. Qed.

End AtWork.
(** * Further properties of the dialog *)

(** ** Slots that start transfers *)

Section Starting.
Context `{Platform}.

Lemma Started_refl s : Started 0 s s.
Proof.
  split.
  - cbn. by rewrite app_nil_r.
  - lia.
  - intros p. split; [by left|]. intros [|]; [done|lia].
  - lia.
Qed.

Lemma Started_trans n m s1 s2 s3 :
  Started n s1 s2 → Started m s2 s3 → Started (n + m) s1 s3.
Proof.
  intros [Hr1 Hn1 Hl1 Ht1] [Hr2 Hn2 Hl2 Ht2]. split.
  - by rewrite Hr2, Hr1, Hn1, seq_app, app_assoc.
  - lia.
  - intros p. rewrite Hl2, Hl1, Hn1. split; [intros [[|]|]|intros [|]]; try tauto; try lia.
  - lia.
Qed.

Lemma starts_ret {A} (a : A) : starts (ret a).
Proof. intros s. exists 0%nat. apply Started_refl. Qed.

Lemma starts_get : starts get.
Proof. intros s. exists 0%nat. apply Started_refl. Qed.

Lemma starts_bind {A B} (c : M A) (k : A → M B) :
  starts c → (∀ a, starts (k a)) → starts (let* x := c in k x).
Proof.
  intros Hc Hk s. rewrite exec_bind.
  destruct (Hc s) as [n Hn]. destruct (Hk (c s).1 (exec c s)) as [m Hm].
  exists (n + m)%nat. by apply (Started_trans _ _ _ (exec c s)).
Qed.

(** A change of the state that leaves the replies and the effects. *)
Lemma starts_modify (f : State → State) :
  (∀ s, replies (f s) = replies s) → (∀ s, nextReply (f s) = nextReply s) →
  (∀ s, objects (f s) = objects s) → (∀ s, effects (f s) = effects s) →
  starts (modify f).
Proof.
  intros Hr Hn Ho He s. exists 0%nat. unfold exec. cbn. split.
  - by rewrite Hr, app_nil_r.
  - rewrite Hn. lia.
  - intros p. rewrite Ho. split; [by left|]. intros [|]; [done|lia].
  - unfold transfersStarted. rewrite He. lia.
Qed.

Lemma starts_emit (e : Effect) : isDownload e = false → starts (emit e).
Proof.
  intros He s. exists 0%nat. unfold exec. cbn. split; cbn.
  - by rewrite app_nil_r.
  - lia.
  - intros p. split; [by left|]. intros [|]; [done|lia].
  - unfold transfersStarted. cbn. rewrite filter_app, filter_cons_False by (by rewrite He).
    rewrite filter_nil, app_nil_r. lia.
Qed.

Lemma starts_setProperty (p : ReplyPtr) (f : QNetworkReply → QNetworkReply) :
  starts (setProperty p f).
Proof.
  intros s. exists 0%nat. unfold exec. cbn. split; cbn.
  - by rewrite app_nil_r.
  - lia.
  - intros q. rewrite lookup_alter_is_Some. split; [by left|]. intros [|]; [done|lia].
  - unfold transfersStarted. cbn. lia.
Qed.

Lemma starts_when (b : bool) (c : M unit) : starts c → starts (when b c).
Proof. intros Hc. destruct b; [done|apply starts_ret]. Qed.

Lemma starts_forEach {A} (l : list A) (body : A → M unit) :
  (∀ x, starts (body x)) → starts (forEach l body).
Proof.
  intros Hbody. induction l as [|x l IH]; [apply starts_ret|].
  cbn [forEach]. apply starts_bind; [apply Hbody|done].
Qed.

Lemma starts_ifItem it f : starts (ifItem it f).
Proof. destruct it; [by apply starts_modify|apply starts_ret]. Qed.

End Starting.

Section StartingSlots.
Context `{Platform}.

Lemma starts_setUi f : starts (setUi f).
Proof. by apply starts_modify. Qed.

Lemma starts_displayProgress : starts displayProgress.
Proof.
  unfold displayProgress.
  apply starts_bind; [apply starts_get|intros s].
  repeat (apply starts_bind; [apply starts_setUi|intros _]). apply starts_setUi.
Qed.

Lemma starts_resetProgress : starts resetProgress.
Proof.
  unfold resetProgress.
  apply starts_bind; [by apply starts_modify|intros _].
  apply starts_bind; [apply starts_displayProgress|intros _].
  apply starts_bind; [apply starts_get|intros s].
  repeat (apply starts_bind; [apply starts_setUi|intros _]). apply starts_setUi.
Qed.

(** [startDownload] creates one reply, the next object, and appends it
    to the active transfers. *)
Lemma startDownload_started url s :
  Started 1 s (exec (startDownload url) s) ∧ (startDownload url s).1 = nextReply s.
Proof.
  split; [|reflexivity]. split.
  - reflexivity.
  - cbn. lia.
  - intros p. change (objects (exec (startDownload url) s))
      with (<[nextReply s := mkReply url None None None None]> (objects s)).
    rewrite lookup_insert_is_Some'. split; [intros [->|]; [right; lia|by left]|].
    intros [|]; [by right|left; lia].
  - unfold transfersStarted.
    change (effects (exec (startDownload url) s))
      with (effects s ++ [Download url (nextReply s)]).
    rewrite filter_app, length_app. reflexivity.
Qed.

Lemma starts_startDownload url : starts (startDownload url).
Proof. intros s. exists 1%nat. apply startDownload_started. Qed.

End StartingSlots.

(** The slots are taken apart along their structure. *)
Ltac starts_step :=
  lazymatch goal with
  | |- starts (ret _) => apply starts_ret
  | |- starts get => apply starts_get
  | |- starts (setUi _) => apply starts_setUi
  | |- starts (setItem _ _) => apply starts_setUi
  | |- starts (setProperty _ _) => apply starts_setProperty
  | |- starts (ifItem _ _) => apply starts_ifItem
  | |- starts displayProgress => apply starts_displayProgress
  | |- starts resetProgress => apply starts_resetProgress
  | |- starts (startDownload _) => apply starts_startDownload
  | |- starts (emit _) => apply starts_emit; reflexivity
  | |- starts (modify _) => apply starts_modify; reflexivity
  | |- starts (when _ _) => apply starts_when
  | |- starts (forEach _ _) => apply starts_forEach; intros ?
  | |- starts (bind _ _) => apply starts_bind; [|intros ?]
  | |- starts (match ?x with _ => _ end) => destruct x
  end.

Ltac starts_all := repeat starts_step.

Section SlotsStart.
Context `{Platform}.

Lemma starts_on_downloadProgress sender received total :
  starts (on_downloadProgress sender received total).
Proof. unfold on_downloadProgress. starts_all. Qed.

Lemma starts_processDocsetList array : starts (processDocsetList array).
Proof. unfold processDocsetList. starts_all. Qed.

Lemma starts_downloadDocsetList : starts downloadDocsetList.
Proof. unfold downloadDocsetList. starts_all. Qed.

Lemma starts_downloadDashDocset name : starts (downloadDashDocset name).
Proof. unfold downloadDashDocset. starts_all. Qed.

Lemma starts_completedDocsetList rsp : starts (completedDocsetList rsp).
Proof. unfold completedDocsetList. starts_all. apply starts_processDocsetList. Qed.

Lemma starts_completedDashFeed reply rsp : starts (completedDashFeed reply rsp).
Proof. unfold completedDashFeed. starts_all. Qed.

Lemma starts_completedDocset reply rsp : starts (completedDocset reply rsp).
Proof. unfold completedDocset. starts_all. Qed.

Lemma starts_followRedirect reply url : starts (followRedirect reply url).
Proof. unfold followRedirect. starts_all. Qed.

Lemma starts_stopDownloads : starts stopDownloads.
Proof. unfold stopDownloads. starts_all. Qed.

Lemma starts_on_downloadDocsetButton_clicked : starts on_downloadDocsetButton_clicked.
Proof.
  unfold on_downloadDocsetButton_clicked. starts_all.
  - apply starts_stopDownloads.
  - apply starts_downloadDashDocset.
Qed.

Lemma starts_on_tabWidget_currentChanged b : starts (on_tabWidget_currentChanged b).
Proof. unfold on_tabWidget_currentChanged. starts_all. apply starts_downloadDocsetList. Qed.

Lemma starts_addDashFeed clipboard getText : starts (addDashFeed clipboard getText).
Proof. unfold addDashFeed. starts_all. Qed.

Lemma starts_updateFeedDocsets answer : starts (updateFeedDocsets answer).
Proof. unfold updateFeedDocsets. starts_all. apply starts_downloadDocsetList. Qed.

Lemma starts_updateFeedDocsets_finished : starts updateFeedDocsets_finished.
Proof. unfold updateFeedDocsets_finished. starts_all. apply starts_downloadDashDocset. Qed.

Lemma starts_metadataOf name : starts (metadataOf name).
Proof. unfold metadataOf, index_userFeeds. starts_all. Qed.

Lemma starts_deleteTmpFile key : starts (deleteTmpFile key).
Proof. unfold deleteTmpFile. starts_all. Qed.

Lemma starts_extractionCompleted filePath : starts (extractionCompleted filePath).
Proof.
  unfold extractionCompleted. starts_all.
  - apply starts_metadataOf.
  - apply starts_deleteTmpFile.
Qed.

Lemma starts_extractionError filePath errorString :
  starts (extractionError filePath errorString).
Proof. unfold extractionError. starts_all. apply starts_deleteTmpFile. Qed.

Lemma starts_extractionProgress filePath extracted total :
  starts (extractionProgress filePath extracted total).
Proof. unfold extractionProgress. starts_all. apply starts_metadataOf. Qed.

Lemma starts_on_deleteButton_clicked title name answer dataDirExists :
  starts (on_deleteButton_clicked title name answer dataDirExists).
Proof. unfold on_deleteButton_clicked. starts_all. Qed.

Lemma starts_on_deleteButton_finished title result :
  starts (on_deleteButton_finished title result).
Proof. unfold on_deleteButton_finished. starts_all. Qed.

(** Every slot but the one of [finished] starts transfers and removes
    none. *)
Lemma starts_slot (e : Signal) : isFinished e = false → starts (slot e).
Proof.
  destruct e; cbn [slot isFinished]; intros Hfin; try discriminate.
  - apply starts_on_downloadProgress.
  - apply starts_downloadDocsetList.
  - apply starts_on_downloadDocsetButton_clicked.
  - apply starts_updateFeedDocsets.
  - apply starts_updateFeedDocsets_finished.
  - apply starts_addDashFeed.
  - apply starts_on_tabWidget_currentChanged.
  - apply starts_extractionCompleted.
  - apply starts_extractionError.
  - apply starts_extractionProgress.
  - apply starts_on_deleteButton_clicked.
  - apply starts_on_deleteButton_finished.
Qed.

End SlotsStart.

(** ** The active transfers and the live replies *)

Section ActiveLive.
Context `{Platform}.

Lemma removeOne_elem_of p q l : p ∈ removeOne q l → p ∈ l.
Proof.
  induction l as [|x l IH]; cbn; [done|].
  destruct (decide (x = q)); [by right|].
  intros [->|Hin]%elem_of_cons; [by left|right; auto].
Qed.

Lemma removeOne_NoDup q l : NoDup l → NoDup (removeOne q l).
Proof.
  induction 1 as [|x l Hx Hl IH]; cbn; [constructor|].
  destruct (decide (x = q)); [done|]. constructor; [|done].
  intros Hin. by apply Hx, (removeOne_elem_of _ q).
Qed.

Lemma removeOne_elem_of_NoDup p q l :
  NoDup l → p ∈ removeOne q l ↔ p ∈ l ∧ p ≠ q.
Proof.
  induction 1 as [|x l Hx Hl IH]; cbn.
  - split; [by intros ?%elem_of_nil|by intros [?%elem_of_nil _]].
  - destruct (decide (x = q)) as [->|Hne].
    + rewrite elem_of_cons. split; [|intros [[|] ?]; done].
      intros Hin. split; [by right|]. by intros ->.
    + rewrite !elem_of_cons, IH. split; [intros [->|[? ?]]|intros [[->|?] ?]]; auto.
Qed.

Lemma wellFormed_lookup s :
  wellFormed s ↔ ∀ p, is_Some (objects s !! p) → (p < nextReply s)%nat.
Proof.
  unfold wellFormed. rewrite map_Forall_lookup. split.
  - intros Hwf p [r Hr]. by apply (Hwf p r).
  - intros Hwf p r Hr. by apply Hwf.
Qed.

(** Transfers that are started keep the active transfers live. *)
Lemma activeLive_Started n s s' : activeLive s → Started n s s' → activeLive s'.
Proof.
  intros [Hnd Hlive Hwf] [Hr Hn Hl Ht].
  rewrite wellFormed_lookup in Hwf. split.
  - rewrite Hr. apply NoDup_app. split; [done|]. split; [|apply NoDup_seq].
    intros p Hp Hseq. apply Hlive, Hwf in Hp. apply elem_of_seq in Hseq. lia.
  - intros p. rewrite Hr, Hl, elem_of_app, elem_of_seq, Hlive. done.
  - apply wellFormed_lookup. intros p Hp. rewrite Hn. apply Hl in Hp as [Hp|Hp]; [|lia].
    apply Hwf in Hp. lia.
Qed.

(** What [downloadCompleted] does to the replies: the sender leaves the
    active transfers, the slot of its kind runs, and the sender is
    deleted. *)
Lemma downloadCompleted_live sender reply rsp s :
  objects s !! sender = Some reply →
  ∃ n s', Started n (with_replies (removeOne sender) s) s'
          ∧ exec (downloadCompleted sender rsp) s = with_objects (delete sender) s'.
Proof.
  intros Hobj. unfold downloadCompleted.
  rewrite exec_bind, exec_get. cbn [get fst]. rewrite Hobj.
  rewrite !exec_seq.
  set (body := if negb (bool_decide (rsp_error rsp = NoError)) then _ else _).
  assert (Hbody : starts body).
  { unfold body. starts_all.
    - apply starts_followRedirect.
    - apply starts_completedDashFeed.
    - apply starts_completedDocset.
    - apply starts_completedDocsetList. }
  destruct (Hbody (with_replies (removeOne sender) s)) as [n Hn].
  by exists n, (exec body (with_replies (removeOne sender) s)).
Qed.

Lemma activeLive_downloadCompleted sender rsp s :
  activeLive s → activeLive (exec (downloadCompleted sender rsp) s).
Proof.
  intros Hact. destruct (objects s !! sender) as [reply|] eqn:Hobj.
  - destruct (downloadCompleted_live sender reply rsp s Hobj) as (n & s' & Hst & ->).
    destruct Hact as [Hnd Hlive Hwf]. destruct Hst as [Hr Hn Hl Ht].
    cbn in Hr, Hn, Hl. rewrite wellFormed_lookup in Hwf.
    assert (Hsender : (sender < nextReply s)%nat) by (apply Hwf; by exists reply).
    split; cbn.
    + rewrite Hr. apply NoDup_app. split; [by apply removeOne_NoDup|].
      split; [|apply NoDup_seq].
      intros p Hp Hseq. apply removeOne_elem_of, Hlive, Hwf in Hp.
      apply elem_of_seq in Hseq. lia.
    + intros p. rewrite Hr, elem_of_app, elem_of_seq, removeOne_elem_of_NoDup by done.
      rewrite lookup_delete_is_Some, Hl, Hlive. split.
      * intros [[? ?]|?]; [by split; [|left]|]. split; [lia|by right].
      * intros [? [?|?]]; [by left|by right].
    + apply wellFormed_lookup. cbn. intros p. rewrite lookup_delete_is_Some, Hl, Hn.
      intros [_ [Hp|Hp]]; [|lia]. apply Hwf in Hp. lia.
  - unfold downloadCompleted. rewrite exec_bind, exec_get. cbn [get fst]. by rewrite Hobj.
Qed.

Lemma activeLive_slot e s : activeLive s → activeLive (exec (slot e) s).
Proof.
  intros Hact. destruct (isFinished e) eqn:Hfin.
  - destruct e; try discriminate. by apply activeLive_downloadCompleted.
  - destruct (starts_slot e Hfin s) as [n Hn]. by apply (activeLive_Started n s).
Qed.

(** A dialog without replies. *)
Lemma activeLive_idle s : replies s = [] → objects s = ∅ → activeLive s.
Proof.
  intros Hr Ho. split.
  - rewrite Hr. constructor.
  - intros p. rewrite Hr, Ho, lookup_empty. split; [by intros ?%elem_of_nil|by intros [? ?]].
  - unfold wellFormed. rewrite Ho. apply map_Forall_empty.
Qed.

(** X1: in every history of the dialog the list of the active transfers
    holds the live replies, each of them once, and no reply that was
    deleted: whatever signals arrive in whatever order, [replies] and
    the replies that [deleteLater] has not taken agree. *)
Theorem active_transfers_are_the_live_replies (signals : list Signal) (s : State) :
  activeLive s → activeLive (exec (run signals) s).
Proof.
  revert s. induction signals as [|e signals IH]; intros s Hact; [done|].
  rewrite run_cons. by apply IH, activeLive_slot.
Qed.

(** X2: no slot but the one of [finished] takes a transfer from the
    list of the active transfers: the list grows at its end by the
    replies the slot created, one for each transfer it handed to the
    application, and the live replies stay live. *)
Theorem only_finished_removes_transfers (e : Signal) (s : State) :
  isFinished e = false →
  ∃ n : nat,
    replies (exec (slot e) s) = replies s ++ seq (nextReply s) n
    ∧ transfersStarted (exec (slot e) s) = (transfersStarted s + n)%nat
    ∧ ∀ p, is_Some (objects s !! p) → is_Some (objects (exec (slot e) s) !! p).
Proof.
  intros Hfin. destruct (starts_slot e Hfin s) as [n [Hr Hn Hl Ht]].
  exists n. split; [done|]. split; [done|]. intros p Hp. apply Hl. by left.
Qed.

End ActiveLive.
(** ** Reports of progress *)

Section Progress.
Context `{Platform}.

(** A report that is not counted changes nothing. *)
Lemma on_downloadProgress_skipped sender received total s :
  counted (received, total) = false →
  exec (on_downloadProgress sender received total) s = s.
Proof.
  unfold counted, on_downloadProgress. cbn [fst snd]. intros Hc.
  apply negb_false_iff in Hc. by rewrite Hc.
Qed.

(** A report that is counted: the total of the reply is added with its
    first report, and what the reply received since its last report is
    added to the bytes received, in the arithmetic of [qint64]; the bar
    is given the percentage of the two counters. *)
Lemma on_downloadProgress_counted sender reply received total s :
  counted (received, total) = true →
  objects s !! sender = Some reply →
  let s' := exec (on_downloadProgress sender received total) s in
  m_combinedReceived s'
    = wrap64 (m_combinedReceived s + (received - default 0 (DownloadPreviousReceived reply)))
  ∧ m_combinedTotal s'
    = (if DownloadPreviousReceived reply is None then wrap64 (m_combinedTotal s + total)
       else m_combinedTotal s)
  ∧ objects s' = alter (reply_setPreviousReceived (Some received)) sender (objects s)
  ∧ docsetsProgress_value (ui s')
    = docsetsProgress_value
        (QProgressBar_setMaximum 100
           (QProgressBar_setValue (percent (m_combinedReceived s') (m_combinedTotal s'))
                                  (ui s)))
  ∧ docsetsProgress_maximum (ui s') = 100
  ∧ docsetsProgress_visible (ui s') = negb (bool_decide (replies s = []))
  ∧ replies s' = replies s ∧ effects s' = effects s.
Proof.
  unfold counted, on_downloadProgress. cbn [fst snd]. intros Hc Hobj.
  apply negb_true_iff in Hc. rewrite Hc.
  unfold exec, bind, get. rewrite Hobj.
  destruct (item (listItemIndex reply) s) as [i|];
    destruct (DownloadPreviousReceived reply) as [prev|];
    cbn -[percent wrap64]; rewrite ?wrap64_add_r; done.
Qed.

Lemma progressReports_cons sender report reports s :
  exec (progressReports sender (report :: reports)) s
  = exec (progressReports sender reports)
         (exec (on_downloadProgress sender report.1 report.2) s).
Proof. unfold progressReports. cbn [forEach]. by rewrite exec_seq. Qed.

(** X3: the reports of progress of one reply add up, in the arithmetic
    of [qint64]: after any number of reports the bytes received have
    grown by what the last counted report says the reply received, less
    what it had received before; the total has grown by the total of
    the first counted report, and only if the reply had not reported
    before; where these sums are in the range of [qint64] the counters
    are the sums, otherwise they wrap around.  The reply remembers the
    last counted report.  The progress bar has the maximum [100] and,
    if it had it before, shows the percentage of the two counters where
    that lies between [0] and [100].  Reports that are not counted (an
    unknown total, fewer than 10240 bytes) change nothing. *)
Theorem progress_reports_add_up sender reply reports s :
  objects s !! sender = Some reply →
  let s' := exec (progressReports sender reports) s in
  let taken := filter (λ r, counted r = true) reports in
  (taken = [] → s' = s)
  ∧ (∀ first rest, taken = first :: rest →
       let received := (default first (last rest)).1 in
       let newReceived :=
         (m_combinedReceived s + (received - default 0 (DownloadPreviousReceived reply)))%Z in
       let newTotal := (m_combinedTotal s + first.2)%Z in
       m_combinedReceived s' = wrap64 newReceived
       ∧ ((- 2 ^ 63 ≤ newReceived < 2 ^ 63)%Z → m_combinedReceived s' = newReceived)
       ∧ m_combinedTotal s'
         = (if DownloadPreviousReceived reply is None then wrap64 newTotal
            else m_combinedTotal s)
       ∧ (DownloadPreviousReceived reply = None → (- 2 ^ 63 ≤ newTotal < 2 ^ 63)%Z →
          m_combinedTotal s' = newTotal)
       ∧ DownloadPreviousReceived <$> objects s' !! sender = Some (Some received)
       ∧ docsetsProgress_maximum (ui s') = 100%Z
       ∧ (docsetsProgress_maximum (ui s) = 100%Z →
          (0 ≤ percent (m_combinedReceived s') (m_combinedTotal s') ≤ 100)%Z →
          docsetsProgress_value (ui s')
          = percent (m_combinedReceived s') (m_combinedTotal s'))).
Proof.
  intros Hobj s' taken.
  enough (Hmain :
    (taken = [] → s' = s)
    ∧ (∀ first rest, taken = first :: rest →
         let received := (default first (last rest)).1 in
         m_combinedReceived s'
           = wrap64 (m_combinedReceived s
                     + (received - default 0 (DownloadPreviousReceived reply)))
         ∧ m_combinedTotal s'
           = (if DownloadPreviousReceived reply is None
              then wrap64 (m_combinedTotal s + first.2) else m_combinedTotal s)
         ∧ DownloadPreviousReceived <$> objects s' !! sender = Some (Some received)
         ∧ docsetsProgress_maximum (ui s') = 100%Z
         ∧ (docsetsProgress_maximum (ui s) = 100%Z →
            (0 ≤ percent (m_combinedReceived s') (m_combinedTotal s') ≤ 100)%Z →
            docsetsProgress_value (ui s')
            = percent (m_combinedReceived s') (m_combinedTotal s')))).
  { destruct Hmain as [Hnone Hsome]. split; [done|].
    intros first rest Htaken. cbv zeta.
    destruct (Hsome first rest Htaken) as (Hrec & Htot & Hprev & Hmax & Hbar).
    cbv zeta in Hrec, Htot, Hprev, Hmax, Hbar.
    split; [done|]. split; [intros Hr; by rewrite Hrec, wrap64_small|].
    split; [done|]. split; [|done].
    intros Hfirst Hr. rewrite Htot, Hfirst. by apply wrap64_small. }
  unfold s', taken. clear s' taken.
  revert reply s Hobj. induction reports as [|[received total] reports IH]; intros reply s Hobj.
  { cbn. split; [done|]. intros first rest Hnil. discriminate. }
  rewrite progressReports_cons. cbn [fst snd].
  destruct (counted (received, total)) eqn:Hc.
  - rewrite filter_cons_True by done.
    destruct (on_downloadProgress_counted sender reply received total s Hc Hobj)
      as (Hrec & Htot & Hobjs & Hbar & Hmax & _).
    set (s1 := exec (on_downloadProgress sender received total) s) in *.
    assert (Hobj1 : objects s1 !! sender
                    = Some (reply_setPreviousReceived (Some received) reply)).
    { rewrite Hobjs, lookup_alter_eq. by rewrite Hobj. }
    destruct (IH _ s1 Hobj1) as [Hnone Hsome].
    split; [discriminate|]. intros first rest Heq. injection Heq as <- <-.
    destruct (filter (λ r, counted r = true) reports) as [|first' rest'] eqn:Htaken.
    + rewrite Hnone by done. cbn [last default fst snd]. rewrite Hobj1. cbn -[percent].
      split; [done|]. split; [done|]. split; [done|]. split; [done|].
      intros Hmax0 Hin. rewrite Hbar.
      rewrite QProgressBar_setMaximum_value
        by (by rewrite QProgressBar_setValue_maximum).
      rewrite QProgressBar_setValue_100 by done.
      by rewrite bool_decide_eq_true_2.
    + destruct (Hsome first' rest' eq_refl) as (Hrec' & Htot' & Hprev' & Hmax' & Hbar').
      cbn [reply_setPreviousReceived DownloadPreviousReceived default from_option id]
        in Hrec', Htot'.
      assert (Hlast : default (received, total) (last (first' :: rest'))
                      = default first' (last rest')).
      { rewrite last_cons. by destruct (last rest'). }
      rewrite Hlast. cbv zeta in Hrec', Htot', Hprev', Hmax', Hbar'. cbn [fst snd].
      split.
      { rewrite Hrec', Hrec, wrap64_add_l. f_equal. lia. }
      split; [by rewrite Htot', Htot|].
      split; [exact Hprev'|]. split; [exact Hmax'|].
      intros _. by apply Hbar'.
  - rewrite filter_cons_False by (by rewrite Hc).
    rewrite (on_downloadProgress_skipped _ _ _ _ Hc). by apply IH.
Qed.

End Progress.

(** ** Progress on the list of available docsets *)

Section ItemProgress.
Context `{Platform}.

Lemma findItems_bounds title from items i :
  i ∈ findItems title from items → (from ≤ i < from + length items)%nat.
Proof.
  revert from. induction items as [|it items IH]; intros from; cbn.
  - by intros ?%elem_of_nil.
  - destruct (matchFixedString _ _).
    + intros [->|Hin]%elem_of_cons; [lia|]. apply IH in Hin. lia.
    + intros Hin. apply IH in Hin. lia.
Qed.

(** A list item that is found is a row of the list: [item] gives it
    back for its [row]; for the null pointer [row] is [-1] and [item]
    the null pointer. *)
Lemma item_row_findDocsetListItem title s s' :
  length (availableDocsetList (ui s')) = length (availableDocsetList (ui s)) →
  item (row (findDocsetListItem title s)) s' = findDocsetListItem title s.
Proof.
  intros Hlen. unfold item, row. rewrite Hlen.
  destruct (findDocsetListItem title s) as [i|] eqn:Hfind.
  - unfold findDocsetListItem in Hfind. apply head_Some_elem_of, findItems_bounds in Hfind.
    rewrite decide_True by lia. by rewrite Nat2Z.id.
  - by rewrite decide_False by lia.
Qed.

(** What [downloadDashDocset] does for a docset of the catalog: one call
    of [qrand()], one transfer, and the properties of its reply. *)
Lemma downloadDashDocset_known name metadata s :
  m_availableDocsets s !! name = Some metadata →
  let mirror :=
    default "" (kapeliUrls !! Z.to_nat (Z.rem (qrand_value (qrandCalls s))
                                              (Z.of_nat (length kapeliUrls)))) in
  let url := QUrl_fromString (mirror +:+ "/feeds/" +:+ name +:+ ".tgz") in
  exec (downloadDashDocset name) s
  = with_objects
      (insert (nextReply s)
         (mkReply url (Some metadata) (Some DownloadDocset) None
                  (Some (row (findDocsetListItem (md_title metadata) s)))))
      (exec (startDownload url) (with_qrandCalls S s)).
Proof.
  intros Hcat. cbv zeta. unfold downloadDashDocset, exec, bind, get. rewrite Hcat.
  cbn -[percent kapeliUrls length Z.rem]. unfold with_objects. cbn -[percent kapeliUrls length Z.rem].
  f_equal. rewrite !alter_insert_eq, insert_insert_eq. done.
Qed.

(** The list items after a report that is counted. *)
Lemma on_downloadProgress_items sender reply received total s :
  counted (received, total) = true →
  objects s !! sender = Some reply →
  availableDocsetList (ui (exec (on_downloadProgress sender received total) s))
  = match item (listItemIndex reply) s with
    | Some i => alter (item_setValue (percent received total)) i (availableDocsetList (ui s))
    | None => availableDocsetList (ui s)
    end.
Proof.
  unfold counted, on_downloadProgress. cbn [fst snd]. intros Hc Hobj.
  apply negb_true_iff in Hc. rewrite Hc.
  unfold exec, bind, get. rewrite Hobj.
  destruct (item (listItemIndex reply) s) as [i|];
    destruct (DownloadPreviousReceived reply) as [prev|]; reflexivity.
Qed.

(** X4: the progress of the transfer that [downloadDashDocset] starts
    for a docset of the catalog is shown on the list item of the docset,
    the first item with its title, and on no other; when no item has the
    title it is shown on none. *)
Theorem docset_progress_is_shown_on_its_item name metadata received total s :
  m_availableDocsets s !! name = Some metadata →
  counted (received, total) = true →
  let s1 := exec (downloadDashDocset name) s in
  let s2 := exec (on_downloadProgress (nextReply s) received total) s1 in
  availableDocsetList (ui s2)
  = match findDocsetListItem (md_title metadata) s with
    | Some i => alter (item_setValue (percent received total)) i (availableDocsetList (ui s))
    | None => availableDocsetList (ui s)
    end.
Proof.
  intros Hcat Hc. cbv zeta. rewrite (downloadDashDocset_known _ _ _ Hcat). cbv zeta.
  set (url := QUrl_fromString _).
  set (reply := mkReply url _ _ _ _).
  set (s1 := with_objects _ _).
  assert (Hobj : objects s1 !! nextReply s = Some reply) by apply lookup_insert_eq.
  rewrite (on_downloadProgress_items _ reply _ _ s1 Hc Hobj).
  unfold listItemIndex, reply. cbn [ListItemIndexProperty default from_option id].
  by rewrite (item_row_findDocsetListItem _ s s1).
Qed.

(** What [addDashFeed] does with an answer that is not empty: one
    transfer, to the URL of the answer without the prefix of the scheme
    [dash-feed], for a feed. *)
Lemma addDashFeed_answered clipboard getText s :
  let feedUrl := getText (if startsWith "dash-feed://" clipboard then clipboard else "") in
  let url :=
    QUrl_fromString (if startsWith "dash-feed://" feedUrl
                     then fromPercentEncoding (dropChars 12 feedUrl) else feedUrl) in
  feedUrl ≠ "" →
  exec (addDashFeed clipboard getText) s
  = with_objects
      (insert (nextReply s) (mkReply url None (Some DownloadDashFeed) None None))
      (exec (startDownload url) s).
Proof.
  cbv zeta. intros Htext. unfold addDashFeed. rewrite bool_decide_eq_false_2 by done.
  set (url := QUrl_fromString _). unfold exec, bind, get.
  cbn -[percent]. unfold with_objects. cbn -[percent].
  f_equal. by rewrite alter_insert_eq, insert_insert_eq.
Qed.

(** X5: a reply whose list item was never set reports on row [0]: the
    progress of the transfer that [addDashFeed] starts is shown on the
    first item of the list of available docsets, if there is one. *)
Theorem feed_progress_is_shown_on_first_row clipboard getText received total s :
  getText (if startsWith "dash-feed://" clipboard then clipboard else "") ≠ "" →
  counted (received, total) = true →
  let s1 := exec (addDashFeed clipboard getText) s in
  let s2 := exec (on_downloadProgress (nextReply s) received total) s1 in
  availableDocsetList (ui s2)
  = alter (item_setValue (percent received total)) 0%nat (availableDocsetList (ui s)).
Proof.
  intros Htext Hc. cbv zeta. rewrite (addDashFeed_answered _ _ _ Htext).
  set (url := QUrl_fromString _).
  set (reply := mkReply url _ _ _ _).
  set (s1 := with_objects _ _).
  assert (Hobj : objects s1 !! nextReply s = Some reply) by apply lookup_insert_eq.
  rewrite (on_downloadProgress_items _ reply _ _ s1 Hc Hobj).
  assert (Hitems : availableDocsetList (ui s1) = availableDocsetList (ui s)) by done.
  unfold listItemIndex, reply, item.
  cbn [ListItemIndexProperty default from_option id]. rewrite Hitems.
  destruct (availableDocsetList (ui s)) as [|it items]; [done|].
  rewrite decide_True by (cbn [length]; lia). done.
Qed.

End ItemProgress.

(** ** The list of available docsets *)

Section CatalogItems.
Context `{Platform}.

(** The values of the catalog are the values of its entries. *)
Lemma qmap_values_entries (m : gmap string DocsetMetadata) :
  ∃ entries, entries ≡ₚ map_to_list m ∧ qmap_values m = entries.*2.
Proof.
  exists (merge_sort key_le (map_to_list m)). split; [apply merge_sort_Permutation|done].
Qed.

Lemma qmap_values_length (m : gmap string DocsetMetadata) : length (qmap_values m) = size m.
Proof.
  unfold qmap_values. by rewrite length_fmap, merge_sort_Permutation, length_map_to_list.
Qed.

(** The loop of [processDocsetList] over the catalog. *)
Lemma appendItems_exec (l : list DocsetMetadata) (s : State) :
  let body := λ metadata : DocsetMetadata,
    let* s := get in
    let listItem :=
      mkItem (md_title metadata) (md_name metadata) false
             (DocsetRegistry.contains (md_name metadata) (m_docsetRegistry s))
             false 0 "" in
    setUi (ui_items (λ l, (l ++ [listItem])%list)) in
  exec (forEach l body) s
  = with_ui (ui_items (λ items, items ++ (catalogItem (m_docsetRegistry s) <$> l))) s.
Proof.
  cbv zeta. revert s. induction l as [|metadata l IH]; intros s.
  - cbn. destruct s as [? ? ? ? ? ? ? ? ? ? [] ? ? ? ?]. unfold with_ui, ui_items. cbn.
    by rewrite app_nil_r.
  - cbn [forEach]. rewrite exec_seq, IH.
    destruct s as [? ? ? ? ? ? ? ? ? ? [] ? ? ? ?]. unfold exec, bind, get, with_ui, ui_items.
    cbn. by rewrite <- app_assoc.
Qed.

Lemma processDocsetList_exec array s :
  exec (processDocsetList array) s
  = with_ui
      (ui_items (λ items,
         items ++ (catalogItem (m_docsetRegistry s)
                     <$> qmap_values (insertEntries (m_availableDocsets s) array))))
      (with_availableDocsets (λ m, insertEntries m array) s).
Proof.
  unfold processDocsetList. rewrite exec_seq, exec_bind, exec_get. cbn [get fst].
  set (loop := forEach array _).
  assert (Hloop : exec loop s = with_availableDocsets (λ m, insertEntries m array) s).
  { unfold loop. clear loop. revert s. induction array as [|v array IH]; intros s.
    - by destruct s.
    - cbn [forEach]. rewrite exec_seq, IH. by destruct s. }
  rewrite Hloop. by rewrite appendItems_exec.
Qed.

(** X6: [processDocsetList] takes the entries of the array into the
    catalog and then appends one list item for every docset of the
    catalog, behind the items that the list holds: the item carries the
    title and the name of the docset, is not checked and is hidden
    exactly when the docset is installed.  The list grows by the size
    of the catalog, whatever it held. *)
Theorem processDocsetList_appends_the_catalog array s :
  let s' := exec (processDocsetList array) s in
  let catalog := insertEntries (m_availableDocsets s) array in
  m_availableDocsets s' = catalog
  ∧ (∃ entries,
       entries ≡ₚ map_to_list catalog
       ∧ availableDocsetList (ui s')
         = availableDocsetList (ui s) ++ (catalogItem (m_docsetRegistry s) <$> entries.*2))
  ∧ length (availableDocsetList (ui s'))
    = (length (availableDocsetList (ui s)) + size catalog)%nat.
Proof.
  cbv zeta. rewrite processDocsetList_exec. split; [done|].
  destruct (qmap_values_entries (insertEntries (m_availableDocsets s) array))
    as (entries & Hperm & Hvalues).
  split.
  - exists entries. split; [done|]. cbn. by rewrite Hvalues.
  - cbn. by rewrite length_app, length_fmap, qmap_values_length.
Qed.

End CatalogItems.

Section CatalogLoad.
Context `{Platform}.

(** What [downloadDocsetList] does: the list and the catalog are
    emptied and the catalog is requested. *)
Lemma downloadDocsetList_exec s :
  let url := QUrl_fromString ("http://api.zealdocs.org" +:+ "/docsets") in
  exec downloadDocsetList s
  = with_objects
      (insert (nextReply s) (mkReply url None (Some DownloadDocsetList) None None))
      (exec (startDownload url)
         (with_availableDocsets (λ _, ∅)
            (with_ui (ui_items (λ _, [])) (with_ui (ui_downloadButtonVisible false) s)))).
Proof.
  cbv zeta. unfold downloadDocsetList. set (url := QUrl_fromString _).
  unfold exec, bind, get. cbn -[percent]. unfold with_objects. cbn -[percent].
  f_equal. by rewrite alter_insert_eq, insert_insert_eq.
Qed.

(** X7: the catalog is loaded: after [downloadDocsetList] and the
    completion of its transfer with an array, the catalog holds the
    entries of the array and nothing else, the list of available docsets
    holds one item for each docset of the catalog and no other, the
    counters are reset, the group of the downloadable docsets is shown
    when the catalog is not empty, and the button that loads the
    catalog is shown when it is empty.  With a catalog that is not
    empty, a change of the tab requests nothing. *)
Theorem catalog_is_loaded_into_the_list rsp array s :
  rsp_error rsp = NoError →
  url_isValid (rsp_redirectionTarget rsp) = false →
  fromJson (rsp_body rsp) = inr array →
  let s1 := exec downloadDocsetList s in
  let s2 := exec (downloadCompleted (nextReply s) rsp) s1 in
  let catalog := insertEntries ∅ array in
  replies s1 = replies s ++ [nextReply s]
  ∧ m_availableDocsets s2 = catalog
  ∧ (∃ entries,
       entries ≡ₚ map_to_list catalog
       ∧ availableDocsetList (ui s2) = catalogItem (m_docsetRegistry s) <$> entries.*2)
  ∧ length (availableDocsetList (ui s2)) = size catalog
  ∧ (m_combinedReceived s2, m_combinedTotal s2) = (0, 0)
  ∧ (catalog ≠ ∅ → downloadableGroup_visible (ui s2) = true)
  ∧ downloadButton_visible (ui s2) = bool_decide (catalog = ∅)
  ∧ (catalog ≠ ∅ → ∀ isDocsetsTab, exec (on_tabWidget_currentChanged isDocsetsTab) s2 = s2).
Proof.
  intros Herr Hvalid Hjson. cbv zeta. rewrite downloadDocsetList_exec. cbv zeta.
  set (url := QUrl_fromString _).
  set (reply := mkReply url _ _ _ _).
  set (s1 := with_objects _ _).
  assert (Hobj : objects s1 !! nextReply s = Some reply) by apply lookup_insert_eq.
  split; [done|].
  assert (Hdispatch :
    exec (downloadCompleted (nextReply s) rsp) s1
    = exec (modify (with_replies (removeOne (nextReply s))) ;;
            (completedDocsetList rsp ;;
             let* s := get in when (bool_decide (replies s = [])) resetProgress) ;;
            modify (with_objects (delete (nextReply s)))) s1).
  { unfold exec. by rewrite (downloadCompleted_dispatch _ reply _ _ Hobj Herr Hvalid). }
  rewrite Hdispatch. clear Hdispatch.
  unfold completedDocsetList. rewrite Hjson.
  set (s2 := exec _ s1).
  assert (Hs2 : ∃ s',
    s' = exec (processDocsetList array) (with_replies (removeOne (nextReply s)) s1)
    ∧ m_availableDocsets s2 = m_availableDocsets s'
    ∧ availableDocsetList (ui s2) = availableDocsetList (ui s')
    ∧ (m_combinedReceived s2, m_combinedTotal s2) = (0, 0)
    ∧ (m_availableDocsets s' ≠ ∅ → downloadableGroup_visible (ui s2) = true)
    ∧ downloadButton_visible (ui s2) = bool_decide (m_availableDocsets s' = ∅)).
  { eexists. split; [reflexivity|]. unfold s2.
    repeat (rewrite exec_seq || rewrite exec_bind || rewrite exec_get).
    cbn [get fst].
    set (s' := exec (processDocsetList array) _). clearbody s'.
    destruct (bool_decide (m_availableDocsets s' = ∅)) eqn:Hempty;
      destruct (bool_decide (replies _ = [])); cbn -[percent];
      (split; [reflexivity|]); (split; [reflexivity|]); (split; [reflexivity|]);
      (split; [|by rewrite ?Hempty]); intros Hne; try reflexivity;
      by apply bool_decide_eq_true in Hempty. }
  destruct Hs2 as (s' & Hs' & Hcat & Hitems & Hcount & Hgroup & Hbutton).
  rewrite processDocsetList_exec in Hs'.
  assert (Hcat' : m_availableDocsets s' = insertEntries ∅ array) by (by rewrite Hs').
  assert (Hitems' : availableDocsetList (ui s')
                    = catalogItem (m_docsetRegistry s) <$> qmap_values (insertEntries ∅ array))
    by (by rewrite Hs').
  rewrite Hcat' in Hcat, Hgroup, Hbutton. rewrite Hitems' in Hitems.
  destruct (qmap_values_entries (insertEntries ∅ array)) as (entries & Hperm & Hvalues).
  split; [done|]. split.
  { exists entries. split; [done|]. by rewrite Hitems, Hvalues. }
  split; [by rewrite Hitems, length_fmap, qmap_values_length|].
  split; [done|]. split; [done|]. split; [done|].
  intros Hne isDocsetsTab. unfold on_tabWidget_currentChanged.
  rewrite exec_bind, exec_get. cbn [get fst].
  rewrite Hitems.
  destruct (qmap_values (insertEntries ∅ array)) as [|m l] eqn:Hvals.
  - exfalso. apply Hne. apply map_size_empty_iff. by rewrite <- qmap_values_length, Hvals.
  - cbn. by rewrite orb_true_r.
Qed.

End CatalogLoad.

(** ** Archives of the catalog *)

Section Archives.
Context `{Platform}.

(** X8: for a docset of the catalog, [downloadDashDocset] starts one
    transfer: it asks [qrand()] once, requests the archive
    [/feeds/<name>.tgz] from one of the ten mirrors, and the reply
    carries the metadata of the catalog, the type of an archive and the
    row of the first list item with the title of the docset ([-1] when
    there is none).  The catalog, the feeds and the temporary files stay
    as they are. *)
Theorem downloadDashDocset_requests_a_mirror name metadata s :
  m_availableDocsets s !! name = Some metadata →
  (0 ≤ qrand_value (qrandCalls s))%Z →
  let s' := exec (downloadDashDocset name) s in
  ∃ mirror, mirror ∈ kapeliUrls ∧
    let url := QUrl_fromString (mirror +:+ "/feeds/" +:+ name +:+ ".tgz") in
    effects s' = effects s ++ [Download url (nextReply s)]
    ∧ replies s' = replies s ++ [nextReply s]
    ∧ objects s' !! nextReply s
      = Some (mkReply url (Some metadata) (Some DownloadDocset) None
                (Some (row (findDocsetListItem (md_title metadata) s))))
    ∧ qrandCalls s' = S (qrandCalls s)
    ∧ m_availableDocsets s' = m_availableDocsets s
    ∧ m_userFeeds s' = m_userFeeds s
    ∧ m_tmpFiles s' = m_tmpFiles s.
Proof.
  intros Hcat Hrand. cbv zeta. rewrite (downloadDashDocset_known _ _ _ Hcat). cbv zeta.
  set (r := qrand_value (qrandCalls s)) in *.
  assert (Hrem : (0 ≤ Z.rem r (Z.of_nat (length kapeliUrls)) < Z.of_nat (length kapeliUrls))%Z).
  { apply Z.rem_bound_pos; [done|]. cbn. lia. }
  destruct (lookup_lt_is_Some_2 kapeliUrls
              (Z.to_nat (Z.rem r (Z.of_nat (length kapeliUrls)))) ltac:(lia))
    as [mirror Hmirror].
  exists mirror. split; [by apply (list_elem_of_lookup_2 _ _ _ Hmirror)|].
  rewrite Hmirror. cbn [default from_option id].
  set (url := QUrl_fromString _).
  split; [done|]. split; [done|]. split; [apply lookup_insert_eq|]. done.
Qed.

End Archives.

(** ** One archive after the other *)

Section Requests.
Context `{Platform}.

(** The list items that are found depend on the texts of the items
    only. *)
Lemma findItems_texts title from l l' :
  item_text <$> l = item_text <$> l' → findItems title from l = findItems title from l'.
Proof.
  revert from l'. induction l as [|it l IH]; intros from [|it' l'] Htexts;
    try discriminate; [done|].
  cbn in Htexts. injection Htexts as Htext Htexts. cbn. rewrite Htext.
  by rewrite (IH _ _ Htexts).
Qed.

Lemma itemKey_texts (l l' : list QListWidgetItem) :
  itemKey <$> l = itemKey <$> l' → item_text <$> l = item_text <$> l'.
Proof.
  intros Hkeys.
  assert (Hfst : ∀ l0 : list QListWidgetItem, item_text <$> l0 = (λ k, k.1.1) <$> (itemKey <$> l0)).
  { intros l0. rewrite <- list_fmap_compose. done. }
  by rewrite !Hfst, Hkeys.
Qed.

Lemma archiveReply_items t t' calls name metadata :
  itemKey <$> availableDocsetList (ui t') = itemKey <$> availableDocsetList (ui t) →
  archiveReply t' calls name metadata = archiveReply t calls name metadata.
Proof.
  intros Hkeys. unfold archiveReply, findDocsetListItem.
  by rewrite (findItems_texts _ _ _ _ (itemKey_texts _ _ Hkeys)).
Qed.

Lemma archiveRequests_app from calls names names' :
  archiveRequests from calls (names ++ names')
  = archiveRequests from calls names
    ++ archiveRequests (from + length names)%nat (calls + length names)%nat names'.
Proof.
  unfold archiveRequests. rewrite imap_app. f_equal.
  apply imap_ext. intros k name _. cbn. f_equal; [f_equal|]; lia.
Qed.

(** A step that keeps the transfers, the catalog, the registry and the
    keys of the list items requests nothing. *)
Lemma Requested_keeps t t' :
  effects t' = effects t → nextReply t' = nextReply t → qrandCalls t' = qrandCalls t →
  replies t' = replies t → objects t' = objects t →
  m_availableDocsets t' = m_availableDocsets t → m_docsetRegistry t' = m_docsetRegistry t →
  itemKey <$> availableDocsetList (ui t') = itemKey <$> availableDocsetList (ui t) →
  Requested [] t t'.
Proof.
  intros He Hn Hc Hr Ho Hcat Hreg Hitems. split; cbn; try done.
  - by rewrite He, app_nil_r.
  - rewrite Hn. lia.
  - rewrite Hc. lia.
  - by rewrite Hr, app_nil_r.
  - intros p _. by rewrite Ho.
Qed.

Lemma Requested_refl t : Requested [] t t.
Proof. by apply Requested_keeps. Qed.

Lemma Requested_trans names names' t t1 t2 :
  Requested names t t1 → Requested names' t1 t2 → Requested (names ++ names') t t2.
Proof.
  intros [He Hn Hc Hr Ho Hold Hcat Hreg Hitems] [He' Hn' Hc' Hr' Ho' Hold' Hcat' Hreg' Hitems'].
  split.
  - by rewrite He', He, Hn, Hc, archiveRequests_app, app_assoc.
  - rewrite Hn', Hn, length_app. lia.
  - rewrite Hc', Hc, length_app. lia.
  - by rewrite Hr', Hr, Hn, length_app, seq_app, app_assoc.
  - intros k name metadata Hk Hknown.
    destruct (decide (k < length names)%nat) as [Hlt|Hge].
    + rewrite lookup_app_l in Hk by done.
      rewrite Hold' by (rewrite Hn; lia). by apply Ho.
    + rewrite lookup_app_r in Hk by lia.
      rewrite <- Hcat in Hknown.
      pose proof (Ho' _ _ _ Hk Hknown) as Hobj.
      rewrite Hn, Hc in Hobj.
      replace (nextReply t + length names + (k - length names))%nat
        with (nextReply t + k)%nat in Hobj by lia.
      replace (qrandCalls t + length names + (k - length names))%nat
        with (qrandCalls t + k)%nat in Hobj by lia.
      rewrite Hobj. f_equal. by apply archiveReply_items.
  - intros p Hp. rewrite Hold' by (rewrite Hn; lia). by apply Hold.
  - by rewrite Hcat'.
  - by rewrite Hreg'.
  - by rewrite Hitems'.
Qed.

(** [downloadDashDocset] requests the archive of a docset of the
    catalog. *)
Lemma downloadDashDocset_Requested name t :
  is_Some (m_availableDocsets t !! name) →
  Requested [name] t (exec (downloadDashDocset name) t).
Proof.
  intros [metadata Hknown]. rewrite (downloadDashDocset_known _ _ _ Hknown). cbv zeta.
  fold (archiveUrl (qrandCalls t) name).
  split.
  - cbn -[percent archiveUrl]. by rewrite !Nat.add_0_r.
  - cbn. lia.
  - cbn. lia.
  - done.
  - intros [|k] name' metadata' Hk Hknown'; [|done].
    injection Hk as <-. rewrite Hknown in Hknown'. injection Hknown' as <-.
    rewrite !Nat.add_0_r. apply lookup_insert_eq.
  - intros p Hp. cbn -[percent archiveUrl]. by rewrite !lookup_insert_ne by lia.
  - done.
  - done.
  - done.
Qed.

(** A loop whose steps request the archives that [pick] names requests
    them in the order of the loop. *)
Lemma forEach_Requested {A} (pick : A → option string) (l : list A) (body : A → M unit)
    (s : State) :
  (∀ x names t, Requested names s t →
     Requested (option_list (pick x)) t (exec (body x) t)) →
  ∀ names t, Requested names s t →
    Requested (names ++ omap pick l) s (exec (forEach l body) t).
Proof.
  intros Hbody. induction l as [|x l IH]; intros names t Ht.
  - cbn. by rewrite app_nil_r.
  - cbn [forEach]. rewrite exec_seq.
    pose proof (Requested_trans _ _ _ _ _ Ht (Hbody x names t Ht)) as Ht'.
    specialize (IH _ _ Ht'). rewrite <- app_assoc in IH.
    cbn [omap list_omap]. destruct (pick x); exact IH.
Qed.

(** What the rows of a list pick is what its elements pick. *)
Lemma omap_seq_lookup {A B} (f : A → option B) (l pre : list A) :
  omap (λ i, (pre ++ l) !! i ≫= f) (seq (length pre) (length l)) = omap f l.
Proof.
  revert pre. induction l as [|x l IH]; intros pre; [done|].
  cbn [length seq omap list_omap].
  assert (Hx : (pre ++ x :: l) !! length pre = Some x) by apply list_lookup_middle, eq_refl.
  rewrite Hx. cbn [mbind option_bind].
  specialize (IH (pre ++ [x])).
  rewrite <- app_assoc, length_app in IH. cbn [app length] in IH.
  rewrite Nat.add_1_r in IH. by rewrite IH.
Qed.

Lemma omap_filter {A B} (Q : A → bool) (g : A → B) (l : list A) :
  omap (λ x, if Q x then Some (g x) else None) l = g <$> filter (λ x, Q x = true) l.
Proof.
  induction l as [|x l IH]; [done|]. cbn [omap list_omap]. destruct (Q x) eqn:HQ.
  - rewrite filter_cons_True by done. cbn. by rewrite IH.
  - rewrite filter_cons_False by (by rewrite HQ). done.
Qed.

(** The requests are transfers. *)
Lemma archiveRequests_transfers from calls names :
  length (filter (λ e, isDownload e = true) (archiveRequests from calls names))
  = length names.
Proof.
  unfold archiveRequests. revert from calls.
  induction names as [|name names IH]; intros from calls; [done|].
  cbn [imap]. rewrite filter_cons_True by done. cbn [length]. f_equal.
  rewrite <- (IH (S from) (S calls)). do 2 f_equal.
  apply imap_ext. intros k n _. cbn. f_equal; [f_equal|]; lia.
Qed.

End Requests.

(** ** The button of the downloads *)

Section DownloadButton.
Context `{Platform}.

(** A loop that keeps an invariant and starts a transfer for the
    elements that [Q] picks starts as many transfers as [Q] picks. *)
Lemma forEach_counts {A} (I : State → Prop) (Q : A → bool) (l : list A)
    (body : A → M unit) (s : State) :
  (∀ x t, I t →
     I (exec (body x) t)
     ∧ transfersStarted (exec (body x) t)
       = (transfersStarted t + (if Q x then 1 else 0))%nat) →
  I s →
  I (exec (forEach l body) s)
  ∧ transfersStarted (exec (forEach l body) s)
    = (transfersStarted s + length (filter (λ x, Q x = true) l))%nat.
Proof.
  intros Hbody. revert s. induction l as [|x l IH]; intros s HI.
  - cbn. split; [done|]. lia.
  - cbn [forEach]. rewrite exec_seq.
    destruct (Hbody x s HI) as [HI' Hn]. destruct (IH _ HI') as [HI'' Hn'].
    split; [done|]. rewrite Hn', Hn.
    destruct (Q x) eqn:HQ.
    + rewrite filter_cons_True by done. cbn [length]. lia.
    + rewrite filter_cons_False by (by rewrite HQ). lia.
Qed.

(** Counting over the rows of a list is counting over its elements. *)
Lemma filter_seq_lookup {A} (Q : A → bool) (l pre : list A) :
  length (filter (λ i, from_option Q false ((pre ++ l) !! i) = true)
                 (seq (length pre) (length l)))
  = length (filter (λ x, Q x = true) l).
Proof.
  revert pre. induction l as [|x l IH]; intros pre; [done|].
  cbn [length seq].
  assert (Hx : (pre ++ x :: l) !! length pre = Some x) by apply list_lookup_middle, eq_refl.
  specialize (IH (pre ++ [x])).
  rewrite <- app_assoc, length_app in IH. cbn [app length] in IH.
  rewrite Nat.add_1_r in IH.
  destruct (Q x) eqn:HQ.
  - rewrite !filter_cons_True; [|done|by rewrite Hx]. cbn [length]. by rewrite IH.
  - rewrite !filter_cons_False; [done|by rewrite HQ|rewrite Hx; cbn; by rewrite HQ].
Qed.

Lemma downloadDashDocset_unknown name s :
  m_availableDocsets s !! name = None → exec (downloadDashDocset name) s = s.
Proof. intros Hcat. unfold downloadDashDocset, exec, bind, get. by rewrite Hcat. Qed.

Lemma fmap_alter_same {A B} (g : A → B) (f : A → A) (i : nat) (l : list A) :
  (∀ x, g (f x) = g x) → g <$> alter f i l = g <$> l.
Proof.
  intros Hgf. revert i. induction l as [|x l IH]; intros [|i]; cbn; [done|done| |].
  - by rewrite Hgf.
  - f_equal. apply IH.
Qed.

(** The button of the downloads counts: with no transfer active it
    starts as many transfers as there are checked items that the catalog
    knows, and it changes nothing when no item is checked. *)
Lemma on_downloadDocsetButton_clicked_counts s :
  let s' := exec on_downloadDocsetButton_clicked s in
  (replies s ≠ [] → s' = exec stopDownloads s)
  ∧ (replies s = [] →
     transfersStarted s'
     = (transfersStarted s
        + length (filter (λ it, toDownload (m_availableDocsets s) it = true)
                         (availableDocsetList (ui s))))%nat
     ∧ m_availableDocsets s' = m_availableDocsets s
     ∧ (Forall (λ it, item_checked it = false) (availableDocsetList (ui s)) → s' = s)).
Proof.
  cbv zeta. unfold on_downloadDocsetButton_clicked.
  rewrite exec_bind, exec_get. cbn [get fst]. split.
  - intros Hne. by rewrite bool_decide_eq_false_2.
  - intros Hnone. rewrite bool_decide_eq_true_2 by done. cbn [negb].
    rewrite exec_seq, exec_bind, exec_get. cbn [get fst].
    set (body := λ i : nat, _).
    set (key := λ it : QListWidgetItem, (item_checked it, item_docsetName it)).
    set (I := λ t : State,
           m_availableDocsets t = m_availableDocsets s
           ∧ key <$> availableDocsetList (ui t) = key <$> availableDocsetList (ui s)).
    set (Q := λ i : nat,
           from_option (toDownload (m_availableDocsets s)) false
                       (([] ++ availableDocsetList (ui s)) !! i)).
    assert (Hbody : ∀ i t, I t →
              I (exec (body i) t)
              ∧ transfersStarted (exec (body i) t)
                = (transfersStarted t + (if Q i then 1 else 0))%nat).
    { intros i t [Hcat Hkeys]. unfold body, Q. rewrite exec_bind, exec_get. cbn [get fst app].
      assert (Hi : key <$> availableDocsetList (ui t) !! i
                   = key <$> availableDocsetList (ui s) !! i)
        by (by rewrite <- !list_lookup_fmap, Hkeys).
      destruct (availableDocsetList (ui t) !! i) as [it|] eqn:Hit;
        destruct (availableDocsetList (ui s) !! i) as [it'|] eqn:Hit'; try discriminate.
      2: { cbn. split; [done|lia]. }
      injection Hi as Hchecked Hname. cbn [from_option]. unfold toDownload.
      rewrite <- Hchecked, <- Hname.
      destruct (item_checked it); cbn [negb andb];
        [|change (exec (ret tt) t) with t; split; [done|lia]].
      rewrite exec_seq.
      set (t1 := exec (setItem i _) t).
      assert (Ht1 : I t1 ∧ transfersStarted t1 = transfersStarted t).
      { split; [|done]. split; [done|]. unfold t1. cbn.
        rewrite <- Hkeys. by apply fmap_alter_same. }
      destruct Ht1 as [[Hcat1 Hkeys1] Hn1]. clearbody t1.
      rewrite <- Hcat1.
      destruct (m_availableDocsets t1 !! item_docsetName it) as [metadata|] eqn:Hknown.
      - rewrite (downloadDashDocset_known _ _ _ Hknown). cbv zeta.
        rewrite bool_decide_eq_true_2 by done. split.
        + split; [by rewrite <- Hcat1|]. by rewrite <- Hkeys1.
        + rewrite <- Hn1. unfold transfersStarted. cbn.
          rewrite filter_app, length_app. done.
      - rewrite (downloadDashDocset_unknown _ _ Hknown).
        rewrite bool_decide_eq_false_2 by (by intros [? ?]). split; [|lia].
        done. }
    destruct (forEach_counts I Q (seq 0 (length (availableDocsetList (ui s)))) body s Hbody)
      as [[Hcat Hkeys] Hcount]; [done|].
    set (s1 := exec (forEach _ body) s) in *.
    assert (Hwhen : ∀ t, transfersStarted (exec (when (negb (bool_decide (replies t = [])))
                              (setUi (ui_downloadDocsetButtonText (tr "Stop downloads")))) t)
                         = transfersStarted t
                       ∧ m_availableDocsets (exec (when (negb (bool_decide (replies t = [])))
                              (setUi (ui_downloadDocsetButtonText (tr "Stop downloads")))) t)
                         = m_availableDocsets t).
    { intros t. by destruct (bool_decide (replies t = [])). }
    destruct (Hwhen s1) as [-> ->]. split; [|split; [done|]].
    + rewrite Hcount. f_equal.
      apply (filter_seq_lookup (toDownload (m_availableDocsets s)) _ []).
    + intros Hunchecked.
      assert (Hs1 : s1 = s).
      { unfold s1. apply (forEach_idle (λ t, t = s)); [|done].
        intros i t ->. unfold body. rewrite exec_bind, exec_get. cbn [get fst].
        destruct (availableDocsetList (ui s) !! i) as [it|] eqn:Hit; [|done].
        rewrite Forall_lookup in Hunchecked. by rewrite (Hunchecked i it Hit). }
      rewrite Hs1. by rewrite Hnone.
Qed.


(** The loop of the button of the downloads requests the archives of
    the checked items that the catalog knows, in the order of the
    list. *)
Lemma on_downloadDocsetButton_clicked_Requested s :
  replies s = [] →
  Requested (item_docsetName
               <$> filter (λ it, toDownload (m_availableDocsets s) it = true)
                          (availableDocsetList (ui s)))
            s (exec on_downloadDocsetButton_clicked s).
Proof.
  intros Hnone. unfold on_downloadDocsetButton_clicked.
  rewrite exec_bind_get. rewrite bool_decide_eq_true_2 by done. cbn [negb].
  rewrite exec_seq.
  set (body := λ i : nat, _).
  set (pick := λ i : nat,
         ([] ++ availableDocsetList (ui s)) !! i ≫= requestedOf (m_availableDocsets s)).
  assert (Hbody : ∀ i names t, Requested names s t →
            Requested (option_list (pick i)) t (exec (body i) t)).
  { intros i names t [_ _ _ _ _ _ Hcat _ Hkeys]. unfold body, pick.
    rewrite exec_bind_get. cbn [app].
    assert (Hi : itemKey <$> availableDocsetList (ui t) !! i
                 = itemKey <$> availableDocsetList (ui s) !! i)
      by (by rewrite <- !list_lookup_fmap, Hkeys).
    destruct (availableDocsetList (ui t) !! i) as [it|] eqn:Hit;
      destruct (availableDocsetList (ui s) !! i) as [it'|] eqn:Hit'; try discriminate.
    2: { apply Requested_refl. }
    injection Hi as Htext Hname Hchecked. cbn [mbind option_bind].
    unfold requestedOf, toDownload. rewrite <- Hchecked, <- Hname.
    destruct (item_checked it); cbn [negb andb option_list]; [|apply Requested_refl].
    rewrite exec_seq.
    set (t1 := exec (setItem i _) t).
    assert (Ht1 : Requested [] t t1).
    { apply Requested_keeps; try done. unfold t1. cbn. by apply fmap_alter_same. }
    assert (Hcat1 : m_availableDocsets t1 = m_availableDocsets s) by (by rewrite <- Hcat).
    clearbody t1. rewrite <- Hcat1.
    destruct (m_availableDocsets t1 !! item_docsetName it) as [metadata|] eqn:Hknown.
    - rewrite bool_decide_eq_true_2 by done. cbn [option_list].
      apply (Requested_trans [] [item_docsetName it] t t1); [done|].
      apply downloadDashDocset_Requested. by rewrite Hknown.
    - rewrite bool_decide_eq_false_2 by (by intros [? ?]). cbn [option_list].
      by rewrite (downloadDashDocset_unknown _ _ Hknown). }
  pose proof (forEach_Requested pick (seq 0 (length (availableDocsetList (ui s)))) body s
                Hbody [] s (Requested_refl s)) as Hloop.
  unfold pick in Hloop.
  rewrite (omap_seq_lookup (requestedOf (m_availableDocsets s)) _ []) in Hloop.
  unfold requestedOf in Hloop. rewrite omap_filter in Hloop. cbn [app] in Hloop.
  set (s1 := exec (forEach _ body) s) in *. clearbody s1.
  rewrite exec_bind_get.
  rewrite <- (app_nil_r (item_docsetName <$> _)).
  apply (Requested_trans _ [] s s1); [done|].
  destruct (bool_decide (replies s1 = [])); [apply Requested_refl|].
  by apply Requested_keeps.
Qed.

(** X9: the button of the downloads, with no transfer active, requests
    the archive of the docset of each list item that is checked and
    whose docset the catalog knows, in the order of the list and of no
    other docset: each request goes to the mirror that the next call of
    [qrand()] picks, its reply is active behind the others and carries
    the metadata of the catalog, the type of an archive and the row of
    the first list item with the title of the docset.  The replies that
    were live, the catalog and the texts, names and check marks of the
    list items stay as they are, and when no item is checked the whole
    dialog does.  With a transfer active the button stops the
    transfers. *)
Theorem download_button_starts_the_checked_docsets s :
  let s' := exec on_downloadDocsetButton_clicked s in
  let requested := filter (λ it, toDownload (m_availableDocsets s) it = true)
                          (availableDocsetList (ui s)) in
  (replies s ≠ [] → s' = exec stopDownloads s)
  ∧ (replies s = [] →
     effects s'
     = effects s
       ++ archiveRequests (nextReply s) (qrandCalls s) (item_docsetName <$> requested)
     ∧ replies s' = seq (nextReply s) (length requested)
     ∧ (∀ k it metadata,
          requested !! k = Some it →
          m_availableDocsets s !! item_docsetName it = Some metadata →
          objects s' !! (nextReply s + k)%nat
          = Some (archiveReply s (qrandCalls s + k) (item_docsetName it) metadata))
     ∧ (∀ p, (p < nextReply s)%nat → objects s' !! p = objects s !! p)
     ∧ transfersStarted s' = (transfersStarted s + length requested)%nat
     ∧ m_availableDocsets s' = m_availableDocsets s
     ∧ itemKey <$> availableDocsetList (ui s') = itemKey <$> availableDocsetList (ui s)
     ∧ (Forall (λ it, item_checked it = false) (availableDocsetList (ui s)) → s' = s)).
Proof.
  cbv zeta. destruct (on_downloadDocsetButton_clicked_counts s) as [Hstop Hcounts].
  split; [done|]. intros Hnone.
  destruct (Hcounts Hnone) as (Hcount & Hcat & Hsame).
  destruct (on_downloadDocsetButton_clicked_Requested s Hnone)
    as [He _ _ Hr Ho Hold _ _ Hitems].
  rewrite length_fmap in Hr. rewrite Hnone in Hr.
  split; [done|]. split; [done|]. split.
  { intros k it metadata Hk Hknown. apply Ho; [|done].
    by rewrite list_lookup_fmap, Hk. }
  done.
Qed.

End DownloadButton.

(** ** Feeds *)

Section Feeds.
Context `{Platform}.

(** X10: [addDashFeed] offers the text of the clipboard when it starts
    with [dash-feed://], and nothing else.  An empty answer leaves the
    dialog as it is.  Of an answer with the prefix [dash-feed://] the
    rest is decoded and requested, another answer is requested as it
    is; the transfer is the one of a feed, with no metadata and no list
    item. *)
Theorem addDashFeed_requests_the_answer clipboard getText rest s :
  let offered := if startsWith "dash-feed://" clipboard then clipboard else "" in
  let s' := exec (addDashFeed clipboard getText) s in
  let requested url :=
    effects s' = effects s ++ [Download url (nextReply s)]
    ∧ replies s' = replies s ++ [nextReply s]
    ∧ objects s' !! nextReply s = Some (mkReply url None (Some DownloadDashFeed) None None) in
  (getText offered = "" → s' = s)
  ∧ (getText offered = "dash-feed://" +:+ rest →
     requested (QUrl_fromString (fromPercentEncoding rest)))
  ∧ (getText offered ≠ "" → startsWith "dash-feed://" (getText offered) = false →
     requested (QUrl_fromString (getText offered))).
Proof.
  cbv zeta. split; [|split].
  - intros Hempty. unfold addDashFeed. by rewrite Hempty.
  - intros Hanswer. rewrite addDashFeed_answered by (by rewrite Hanswer).
    rewrite Hanswer.
    change (startsWith "dash-feed://" ("dash-feed://" +:+ rest)) with true.
    change (dropChars 12 ("dash-feed://" +:+ rest)) with rest. cbv iota.
    split; [done|]. split; [done|]. apply lookup_insert_eq.
  - intros Hanswer Hprefix. rewrite addDashFeed_answered by done.
    rewrite Hprefix. split; [done|]. split; [done|]. apply lookup_insert_eq.
Qed.

(** The watcher of [updateFeedDocsets] counts: it starts as many
    transfers as there are installed docsets with a source that the
    catalog knows. *)
Lemma updateFeedDocsets_finished_counts s :
  let s' := exec updateFeedDocsets_finished s in
  transfersStarted s'
  = (transfersStarted s
     + length (filter (λ d, fromCatalog (m_availableDocsets s) d = true)
                      (DocsetRegistry.docsets (m_docsetRegistry s))))%nat
  ∧ m_availableDocsets s' = m_availableDocsets s
  ∧ m_docsetRegistry s' = m_docsetRegistry s.
Proof.
  cbv zeta. unfold updateFeedDocsets_finished. rewrite exec_bind, exec_get. cbn [get fst].
  set (body := λ docset : Docset, _).
  set (I := λ t : State,
         m_availableDocsets t = m_availableDocsets s
         ∧ m_docsetRegistry t = m_docsetRegistry s).
  assert (Hbody : ∀ d t, I t →
            I (exec (body d) t)
            ∧ transfersStarted (exec (body d) t)
              = (transfersStarted t
                 + (if fromCatalog (m_availableDocsets s) d then 1 else 0))%nat).
  { intros d t [Hcat Hreg]. unfold body, fromCatalog.
    rewrite exec_bind, exec_get. cbn [get fst]. rewrite <- Hcat.
    destruct (negb (bool_decide (md_source (docset_metadata d) = ""))); cbn [andb when];
      [|change (exec (ret tt) t) with t; split; [done|lia]].
    destruct (m_availableDocsets t !! docset_name d) as [metadata|] eqn:Hknown.
    - rewrite bool_decide_eq_true_2 by done. cbn [when].
      rewrite (downloadDashDocset_known _ _ _ Hknown). cbv zeta. split; [done|].
      unfold transfersStarted. cbn. rewrite filter_app, length_app. done.
    - rewrite bool_decide_eq_false_2 by (by intros [? ?]).
      change (exec (when false _) t) with t. split; [done|lia]. }
  destruct (forEach_counts I _ (DocsetRegistry.docsets (m_docsetRegistry s)) body s Hbody)
    as [[Hcat Hreg] Hcount]; [done|].
  done.
Qed.


Lemma updateFeedDocsets_finished_Requested s :
  Requested (docset_name
               <$> filter (λ d, fromCatalog (m_availableDocsets s) d = true)
                          (DocsetRegistry.docsets (m_docsetRegistry s)))
            s (exec updateFeedDocsets_finished s).
Proof.
  unfold updateFeedDocsets_finished. rewrite exec_bind_get.
  set (loaded := docset_name <$> _).
  set (body := λ docset : Docset, _).
  set (pick := λ d : Docset,
         if fromCatalog (m_availableDocsets s) d then Some (docset_name d) else None).
  assert (Hbody : ∀ d names t, Requested names s t →
            Requested (option_list (pick d)) t (exec (body d) t)).
  { intros d names t [_ _ _ _ _ _ Hcat _ _]. unfold body, pick, fromCatalog.
    rewrite exec_bind_get. rewrite <- Hcat.
    destruct (negb (bool_decide (md_source (docset_metadata d) = "")));
      cbn [andb when option_list]; [|apply Requested_refl].
    destruct (m_availableDocsets t !! docset_name d) as [metadata|] eqn:Hknown.
    - rewrite bool_decide_eq_true_2 by done. cbn [when option_list].
      apply downloadDashDocset_Requested. by rewrite Hknown.
    - rewrite bool_decide_eq_false_2 by (by intros [? ?]). apply Requested_refl. }
  pose proof (forEach_Requested pick (DocsetRegistry.docsets (m_docsetRegistry s)) body s
                Hbody [] s (Requested_refl s)) as Hloop.
  unfold pick in Hloop. by rewrite omap_filter in Hloop.
Qed.

(** X11: the watcher of [updateFeedDocsets] requests the archive of
    each installed docset whose metadata names a source and whose name
    the catalog knows, in the order of the registry, and of no other
    docset: each request goes to the mirror that the next call of
    [qrand()] picks, its reply is active behind the others and carries
    the metadata of the catalog, the type of an archive and the row of
    the first list item with the title of the docset.  The replies that
    were live, the catalog and the registry stay as they are. *)
Theorem watcher_loads_the_docsets_of_the_catalog s :
  let s' := exec updateFeedDocsets_finished s in
  let loaded := filter (λ d, fromCatalog (m_availableDocsets s) d = true)
                       (DocsetRegistry.docsets (m_docsetRegistry s)) in
  effects s'
  = effects s ++ archiveRequests (nextReply s) (qrandCalls s) (docset_name <$> loaded)
  ∧ replies s' = replies s ++ seq (nextReply s) (length loaded)
  ∧ (∀ k d metadata,
       loaded !! k = Some d →
       m_availableDocsets s !! docset_name d = Some metadata →
       objects s' !! (nextReply s + k)%nat
       = Some (archiveReply s (qrandCalls s + k) (docset_name d) metadata))
  ∧ (∀ p, (p < nextReply s)%nat → objects s' !! p = objects s !! p)
  ∧ transfersStarted s' = (transfersStarted s + length loaded)%nat
  ∧ m_availableDocsets s' = m_availableDocsets s
  ∧ m_docsetRegistry s' = m_docsetRegistry s.
Proof.
  cbv zeta. destruct (updateFeedDocsets_finished_counts s) as (Hcount & Hcat & Hreg).
  destruct (updateFeedDocsets_finished_Requested s) as [He _ _ Hr Ho Hold _ _ _].
  rewrite length_fmap in Hr.
  split; [done|]. split; [done|]. split.
  { intros k d metadata Hk Hknown. apply Ho; [|done].
    by rewrite list_lookup_fmap, Hk. }
  done.
Qed.

End Feeds.

Section Update.
Context `{Platform}.

Lemma findDocsetListItem_items title s s' :
  availableDocsetList (ui s') = availableDocsetList (ui s) →
  findDocsetListItem title s' = findDocsetListItem title s.
Proof. intros Hitems. unfold findDocsetListItem. by rewrite Hitems. Qed.

(** The loop of [updateFeedDocsets] over the installed docsets. *)
Lemma updateFeedDocsets_loop (l : list Docset) (t : State) :
  let body := λ docset : Docset,
    if negb (docset_hasMetadata docset) then ret tt
    else
      let feedUrl := md_feedUrl (docset_metadata docset) in
      if url_isEmpty feedUrl then ret tt
      else
        let* reply := startDownload feedUrl in
        setProperty reply (reply_setDownloadType (Some DownloadDashFeed)) ;;
        let* s := get in
        match findDocsetListItem (docset_title docset) s with
        | Some listItem =>
            setProperty reply (reply_setListItemIndex (Some (row (Some listItem))))
        | None => ret tt
        end ;;
        setProperty reply (reply_setMetadata (Some (docset_metadata docset))) in
  let feeds := filter (λ d, hasFeed d = true) l in
  let t' := exec (forEach l body) t in
  effects t' = effects t ++ feedRequests (nextReply t) feeds
  ∧ nextReply t' = (nextReply t + length feeds)%nat
  ∧ replies t' = replies t ++ seq (nextReply t) (length feeds)
  ∧ (∀ k d, feeds !! k = Some d → objects t' !! (nextReply t + k)%nat = Some (feedReply t d))
  ∧ (∀ p, (p < nextReply t)%nat → objects t' !! p = objects t !! p)
  ∧ availableDocsetList (ui t') = availableDocsetList (ui t)
  ∧ m_availableDocsets t' = m_availableDocsets t
  ∧ m_userFeeds t' = m_userFeeds t.
Proof.
  cbv zeta. set (body := λ docset : Docset, _).
  revert t. induction l as [|d l IH]; intros t.
  { cbn. rewrite !app_nil_r, Nat.add_0_r. repeat split; done. }
  cbn [forEach]. rewrite exec_seq.
  destruct (hasFeed d) eqn:Hfeed.
  - rewrite filter_cons_True by done.
    set (url := md_feedUrl (docset_metadata d)).
    assert (Hstep : exec (body d) t
                    = with_objects (insert (nextReply t) (feedReply t d))
                                   (exec (startDownload url) t)).
    { unfold body, hasFeed in *. apply andb_true_iff in Hfeed as [Hmeta Hurl].
      apply negb_true_iff in Hurl. cbv zeta. rewrite Hmeta, Hurl. cbn [negb]. fold url.
      unfold feedReply, exec, bind, get. cbn -[percent findDocsetListItem].
      rewrite (findDocsetListItem_items _ t) by reflexivity.
      destruct (findDocsetListItem (docset_title d) t) as [i|];
        cbn -[percent]; unfold with_objects; cbn -[percent]; f_equal;
        by rewrite !alter_insert_eq, insert_insert_eq. }
    rewrite Hstep. set (t1 := with_objects _ _).
    destruct (IH t1) as (Heff & Hnext & Hrep & Hobj & Hold & Hitems & Hcat & Hfeeds).
    set (t' := exec (forEach l body) t1) in *.
    change (nextReply t1) with (S (nextReply t)) in *.
    change (effects t1) with (effects t ++ [Download url (nextReply t)]) in Heff.
    change (replies t1) with (replies t ++ [nextReply t]) in Hrep.
    split; [|split; [|split; [|split; [|split]]]].
    + rewrite Heff, <- app_assoc. f_equal. unfold feedRequests. cbn [imap app].
      rewrite Nat.add_0_r. f_equal. apply imap_ext. intros k d' _. cbn. f_equal. lia.
    + rewrite Hnext. cbn [length]. lia.
    + rewrite Hrep, <- app_assoc. done.
    + intros [|k] d' Hk.
      * injection Hk as <-. rewrite Nat.add_0_r, Hold by lia. apply lookup_insert_eq.
      * cbn in Hk. by rewrite <- Nat.add_succ_comm, (Hobj k d' Hk).
    + intros p Hp. rewrite Hold by lia. unfold t1. cbn.
      rewrite !lookup_insert_ne by lia. done.
    + done.
  - rewrite filter_cons_False by (by rewrite Hfeed).
    assert (Hstep : exec (body d) t = t).
    { unfold body, hasFeed in *. destruct (docset_hasMetadata d); [|done].
      cbn in Hfeed. apply negb_false_iff in Hfeed. by rewrite Hfeed. }
    rewrite Hstep. apply IH.
Qed.

End Update.

Section UpdateButton.
Context `{Platform}.

(** X12: [updateFeedDocsets] requests the feed of every installed docset
    that has metadata with a feed, in the order of the registry, and
    the reply of each request carries the metadata of the installed
    docset, which a completed feed is compared with.  Docsets without a
    feed are passed by.  When a docset misses its metadata the dialog
    asks once; on [Yes] it requests the catalog if it has none and
    waits for it.  The catalog and the feeds stay as they are. *)
Theorem updateFeedDocsets_requests_the_feeds answer s :
  let docsets := DocsetRegistry.docsets (m_docsetRegistry s) in
  let feeds := filter (λ d, hasFeed d = true) docsets in
  let missing := existsb (λ d, negb (docset_hasMetadata d)) docsets in
  let s' := exec (updateFeedDocsets answer) s in
  (∀ k d, feeds !! k = Some d →
     objects s' !! (nextReply s + k)%nat = Some (feedReply s d))
  ∧ effects s'
    = effects s ++ feedRequests (nextReply s) feeds
      ++ (if missing then
            MessageBox Information "Zeal"
              "Some docsets are missing metadata, would you like to redownload all docsets with missing metadata?"
            :: match answer with
               | No => []
               | Yes =>
                   (if bool_decide (m_availableDocsets s = ∅)
                    then [Download (QUrl_fromString ("http://api.zealdocs.org" +:+ "/docsets"))
                                   (nextReply s + length feeds)%nat]
                    else [])
                   ++ [AwaitCatalog]
               end
          else [])
  ∧ m_availableDocsets s' = m_availableDocsets s
  ∧ m_userFeeds s' = m_userFeeds s.
Proof.
  cbv zeta. unfold updateFeedDocsets.
  rewrite exec_seq, exec_bind, exec_get. cbn [get fst].
  set (s0 := exec (setUi (ui_groupVisible true)) s).
  change (m_docsetRegistry s0) with (m_docsetRegistry s).
  set (docsets := DocsetRegistry.docsets (m_docsetRegistry s)).
  rewrite exec_seq.
  destruct (updateFeedDocsets_loop docsets s0)
    as (Heff & Hnext & Hrep & Hobj & Hold & Hitems & Hcat & Hfeeds).
  cbv zeta in Heff, Hnext, Hrep, Hobj, Hold, Hitems, Hcat, Hfeeds.
  set (t := exec (forEach docsets _) s0) in *.
  change (nextReply s0) with (nextReply s) in *.
  change (effects s0) with (effects s) in *.
  change (m_availableDocsets s0) with (m_availableDocsets s) in *.
  change (m_userFeeds s0) with (m_userFeeds s) in *.
  assert (Hreplies : ∀ k d, filter (λ d, hasFeed d = true) docsets !! k = Some d →
            objects t !! (nextReply s + k)%nat = Some (feedReply s d)).
  { intros k d Hk. rewrite (Hobj k d Hk). done. }
  clearbody t.
  destruct (existsb (λ d, negb (docset_hasMetadata d)) docsets); cbn [negb].
  2: { change (exec (ret tt) t) with t. rewrite app_nil_r. done. }
  rewrite exec_seq.
  destruct answer.
  - rewrite exec_bind, exec_get, exec_seq. cbn [get fst].
    change (m_availableDocsets (exec (emit ?e) t)) with (m_availableDocsets t).
    rewrite Hcat.
    destruct (bool_decide (m_availableDocsets s = ∅)) eqn:Hempty; cbn [when].
    + rewrite downloadDocsetList_exec. cbv zeta. cbn -[percent].
      rewrite Heff, Hnext, <- !app_assoc.
      apply bool_decide_eq_true in Hempty.
      split; [|split; [done|split; [by rewrite Hempty|done]]].
      intros k d Hk. pose proof (lookup_lt_Some _ _ _ Hk).
      rewrite !lookup_insert_ne by lia. by apply Hreplies.
    + cbn. rewrite Heff, <- !app_assoc. done.
  - cbn. rewrite Heff, <- !app_assoc. done.
Qed.

End UpdateButton.

(** ** Completions that start nothing *)

Section Quiet.
Context `{Platform}.

(** X13: a feed that brings nothing new starts nothing.  A feed without
    a URL for the docset is reported once as invalid; a feed whose
    version is not empty and is the version of the metadata that came
    with the request is passed by in silence.  In both cases the feeds
    of the dialog stay as they are, no transfer is started and the reply
    leaves the active transfers. *)
Theorem feed_without_news_starts_nothing sender reply rsp s :
  objects s !! sender = Some reply →
  DownloadTypeProperty reply = Some DownloadDashFeed →
  rsp_error rsp = NoError →
  url_isValid (rsp_redirectionTarget rsp) = false →
  let metadata := fromDashFeed (request_url reply) (rsp_body rsp) in
  let oldMetadata := default DocsetMetadata_default (DocsetMetadataProperty reply) in
  let s' := exec (downloadCompleted sender rsp) s in
  (md_urls metadata = [] →
     effects s' = effects s ++ [MessageBox Critical "Zeal" "Invalid docset feed!"]
     ∧ m_userFeeds s' = m_userFeeds s
     ∧ replies s' = removeOne sender (replies s))
  ∧ (md_urls metadata ≠ [] → md_version metadata ≠ "" →
     md_version metadata = md_version oldMetadata →
     effects s' = effects s
     ∧ m_userFeeds s' = m_userFeeds s
     ∧ replies s' = removeOne sender (replies s)).
Proof.
  intros Hobj Htype Herr Hvalid. cbv zeta.
  assert (Hfeed :
    exec (downloadCompleted sender rsp) s
    = exec (modify (with_replies (removeOne sender)) ;;
            (completedDashFeed reply rsp ;;
             let* s := get in when (bool_decide (replies s = [])) resetProgress) ;;
            modify (with_objects (delete sender))) s).
  { unfold exec. by rewrite (downloadCompleted_feed _ _ _ _ Hobj Htype Herr Hvalid). }
  rewrite Hfeed. clear Hfeed. unfold completedDashFeed. split.
  - intros Hnone. rewrite (bool_decide_eq_true_2 _ Hnone).
    unfold exec, bind, get. cbn -[percent].
    destruct (bool_decide (removeOne sender (replies s) = [])); done.
  - intros Hurls Hversion Hsame. rewrite (bool_decide_eq_false_2 _ Hurls).
    rewrite (bool_decide_eq_false_2 _ Hversion), (bool_decide_eq_true_2 _ (eq_sym Hsame)).
    unfold exec, bind, get. cbn -[percent].
    destruct (bool_decide (removeOne sender (replies s) = [])); done.
Qed.

(** X14: a transfer that ends with an error changes nothing but the
    replies: the reply leaves the active transfers and is deleted, the
    error is shown once, unless the transfer was cancelled, and no
    transfer is started; the catalog, the feeds, the temporary files,
    the counters and the view stay as they are. *)
Theorem failed_transfer_changes_only_the_replies sender reply rsp s :
  objects s !! sender = Some reply →
  rsp_error rsp ≠ NoError →
  let s' := exec (downloadCompleted sender rsp) s in
  effects s'
  = effects s ++ (if bool_decide (rsp_error rsp = OperationCanceledError) then []
                  else [MessageBox Warning "Network Error" (rsp_errorString rsp)])
  ∧ replies s' = removeOne sender (replies s)
  ∧ objects s' = delete sender (objects s)
  ∧ transfersStarted s' = transfersStarted s
  ∧ m_availableDocsets s' = m_availableDocsets s
  ∧ m_userFeeds s' = m_userFeeds s
  ∧ m_tmpFiles s' = m_tmpFiles s
  ∧ (m_combinedReceived s', m_combinedTotal s') = (m_combinedReceived s, m_combinedTotal s)
  ∧ ui s' = ui s.
Proof.
  intros Hobj Herr. cbv zeta. rewrite (downloadCompleted_error _ _ _ _ Hobj Herr).
  unfold transfersStarted. cbn.
  destruct (bool_decide (rsp_error rsp = OperationCanceledError)).
  - rewrite app_nil_r. done.
  - rewrite filter_app, filter_cons_False, filter_nil, app_nil_r by done. done.
Qed.

(** X15: [stopDownloads] aborts the active replies for which the list
    of available docsets has an item at the row of the reply, in the
    order of the active transfers, and shows nothing.  The counters
    are reset and the buttons are enabled whatever was aborted. *)
Theorem stopDownloads_aborts_the_listed_replies s :
  let s' := exec stopDownloads s in
  effects s' = effects s ++ (Abort <$> filter (λ p, listed s p = true) (replies s))
  ∧ (m_combinedReceived s', m_combinedTotal s') = (0, 0)
  ∧ downloadDocsetButton_text (ui s') = "Download"
  ∧ downloadButton_enabled (ui s') = true
  ∧ updateButton_enabled (ui s') = true
  ∧ addFeedButton_enabled (ui s') = true.
Proof.
  cbv zeta. destruct (stopDownloads_aborts_listed s) as [Heff Hrep].
  split; [done|].
  unfold stopDownloads. rewrite exec_bind, exec_seq. done.
Qed.

End Quiet.

(** ** Installing an archive *)

Section Install.
Context `{Platform}.

(** What the completion of the transfer of an archive leaves: the body
    in a new temporary file, the file in the table under the name of the
    docset, and the request to extract it. *)
Lemma downloadCompleted_archive sender reply rsp s :
  objects s !! sender = Some reply →
  DownloadTypeProperty reply = Some DownloadDocset →
  rsp_error rsp = NoError →
  url_isValid (rsp_redirectionTarget rsp) = false →
  let metadata := default DocsetMetadata_default (DocsetMetadataProperty reply) in
  let file := tempFileName (tmpCreated s) in
  let s' := exec (downloadCompleted sender rsp) s in
  effects s' = effects s ++ [Extract file (docsetPath s) (md_name metadata +:+ ".docset")]
  ∧ m_tmpFiles s' = <[md_name metadata := mkTmp file]> (m_tmpFiles s)
  ∧ disk s' = <[file := rsp_body rsp]> (disk s)
  ∧ tmpCreated s' = S (tmpCreated s)
  ∧ m_availableDocsets s' = m_availableDocsets s
  ∧ m_userFeeds s' = m_userFeeds s
  ∧ m_docsetRegistry s' = m_docsetRegistry s
  ∧ docsetPath s' = docsetPath s
  ∧ replies s' = removeOne sender (replies s).
Proof.
  intros Hobj Htype Herr Hvalid. cbv zeta.
  unfold exec. rewrite (downloadCompleted_dispatch _ _ _ _ Hobj Herr Hvalid).
  unfold downloadType. rewrite Htype. cbv [default from_option id].
  unfold completedDocset, bind, get. cbn -[percent].
  destruct (findDocsetListItem _ _); cbn -[percent];
    destruct (bool_decide (removeOne sender (replies s) = [])); done.
Qed.

Lemma tmpFileKey_none filePath s :
  (∀ key tmpFile, m_tmpFiles s !! key = Some tmpFile → fileName tmpFile ≠ filePath) →
  tmpFileKey filePath s = "".
Proof.
  intros Hnone. unfold tmpFileKey.
  destruct (List.find _ _) as [[key other]|] eqn:Hfind; [|done].
  apply find_some in Hfind as [Hin Hmatch].
  apply list_elem_of_In, elem_of_map_to_list in Hin.
  apply bool_decide_eq_true in Hmatch. by destruct (Hnone key other).
Qed.

(** What [extractionCompleted] does for the key that it finds. *)
Lemma extractionCompleted_key filePath s :
  let name := tmpFileKey filePath s in
  let path := absoluteFilePath (docsetPath s) (name +:+ ".docset") in
  let written :=
    match m_availableDocsets s !! name with
    | Some metadata => metadata
    | None => default DocsetMetadata_default (m_userFeeds s !! name)
    end in
  let s' := exec (extractionCompleted filePath) s in
  effects s' = effects s ++ [MetadataToFile (path +:+ "/meta.json") written]
  ∧ m_docsetRegistry s' = DocsetRegistry.add (loadDocset path) (m_docsetRegistry s)
  ∧ m_tmpFiles s' = delete name (m_tmpFiles s)
  ∧ disk s' = match m_tmpFiles s !! name with
              | Some tmpFile => delete (fileName tmpFile) (disk s)
              | None => disk s
              end
  ∧ m_availableDocsets s' = m_availableDocsets s
  ∧ m_userFeeds s'
    = match m_availableDocsets s !! name, m_userFeeds s !! name with
      | None, None => <[name := DocsetMetadata_default]> (m_userFeeds s)
      | _, _ => m_userFeeds s
      end
  ∧ (m_combinedReceived s', m_combinedTotal s') = (0, 0).
Proof.
  cbv zeta. unfold extractionCompleted. rewrite exec_bind, exec_get. cbn [get fst].
  set (name := tmpFileKey filePath s).
  unfold exec, bind, get, metadataOf, index_userFeeds, deleteTmpFile, bind, get.
  destruct (m_availableDocsets s !! name) as [metadata|];
    [|destruct (m_userFeeds s !! name) as [metadata|]];
    cbn -[percent];
    destruct (findDocsetListItem _ _); cbn -[percent];
    destruct (m_tmpFiles s !! name) as [tmpFile|] eqn:Htmp; cbn -[percent];
    rewrite ?(delete_id (m_tmpFiles s) name Htmp); done.
Qed.

End Install.

Section Installed.
Context `{Platform}.

(** X16: an archive is installed in two steps.  The completion of its
    transfer writes the body to a new temporary file, enters the file
    in the table under the name of the docset and asks the application
    to extract it to [<name>.docset] in the directory of the docsets.
    If no other entry of the table has a file of this name, the
    completion of the extraction finds the name by the file, writes the
    metadata that the catalog, or else the feeds, hold for the name to
    [meta.json], adds the docset of the directory to the registry,
    takes the entry from the table and deletes the file. *)
Theorem archive_is_extracted_and_installed sender reply rsp s :
  objects s !! sender = Some reply →
  DownloadTypeProperty reply = Some DownloadDocset →
  rsp_error rsp = NoError →
  url_isValid (rsp_redirectionTarget rsp) = false →
  let name := md_name (default DocsetMetadata_default (DocsetMetadataProperty reply)) in
  let file := tempFileName (tmpCreated s) in
  map_Forall (λ _ tmpFile, fileName tmpFile ≠ file) (m_tmpFiles s) →
  let s1 := exec (downloadCompleted sender rsp) s in
  let s2 := exec (extractionCompleted file) s1 in
  let path := absoluteFilePath (docsetPath s) (name +:+ ".docset") in
  let written :=
    match m_availableDocsets s !! name with
    | Some metadata => metadata
    | None => default DocsetMetadata_default (m_userFeeds s !! name)
    end in
  effects s1 = effects s ++ [Extract file (docsetPath s) (name +:+ ".docset")]
  ∧ m_tmpFiles s1 !! name = Some (mkTmp file)
  ∧ disk s1 !! file = Some (rsp_body rsp)
  ∧ tmpFileKey file s1 = name
  ∧ effects s2 = effects s1 ++ [MetadataToFile (path +:+ "/meta.json") written]
  ∧ m_docsetRegistry s2 = DocsetRegistry.add (loadDocset path) (m_docsetRegistry s)
  ∧ m_tmpFiles s2 = delete name (m_tmpFiles s)
  ∧ disk s2 = delete file (disk s).
Proof.
  intros Hobj Htype Herr Hvalid. cbv zeta. intros Hfresh.
  destruct (downloadCompleted_archive _ _ _ _ Hobj Htype Herr Hvalid)
    as (Heff & Htmp & Hdisk & _ & Hcat & Hfeeds & Hreg & Hpath & _).
  cbv zeta in Heff, Htmp, Hdisk.
  set (name := md_name (default DocsetMetadata_default (DocsetMetadataProperty reply))) in *.
  set (file := tempFileName (tmpCreated s)) in *.
  set (s1 := exec (downloadCompleted sender rsp) s) in *.
  assert (Hentry : m_tmpFiles s1 !! name = Some (mkTmp file))
    by (by rewrite Htmp, lookup_insert_eq).
  assert (Hkey : tmpFileKey file s1 = name).
  { apply (tmpFileKey_unique _ _ (mkTmp file)); [done|done|].
    intros key other Hother Hname. rewrite Htmp in Hother.
    apply lookup_insert_Some in Hother as [[? _]|[_ Hother]]; [done|].
    by destruct (Hfresh key other Hother). }
  destruct (extractionCompleted_key file s1) as (Heff2 & Hreg2 & Htmp2 & Hdisk2 & _).
  cbv zeta in Heff2, Hreg2, Htmp2, Hdisk2.
  rewrite Hkey, Hcat, Hfeeds, Hpath in Heff2. rewrite Hkey, Hpath, Hreg in Hreg2.
  rewrite Hkey in Htmp2, Hdisk2.
  rewrite Hentry in Hdisk2. cbn [fileName] in Hdisk2.
  split; [done|]. split; [done|]. split; [by rewrite Hdisk, lookup_insert_eq|].
  split; [done|]. split; [done|]. split; [done|].
  split.
  - by rewrite Htmp2, Htmp, delete_insert_eq.
  - by rewrite Hdisk2, Hdisk, delete_insert_eq.
Qed.

(** X17: the progress of an extraction is shown on the list item of the
    docset whose temporary file is extracted: the first item with the
    title that the catalog, or else the feeds, hold for the name of the
    file in the table.  Nothing else changes, and nothing at all when no
    item has the title. *)
Theorem extraction_progress_is_shown_on_its_item
    filePath name tmpFile metadata extracted total s :
  m_tmpFiles s !! name = Some tmpFile →
  fileName tmpFile = filePath →
  map_Forall (λ key other, fileName other = filePath → key = name) (m_tmpFiles s) →
  m_availableDocsets s !! name = Some metadata
  ∨ (m_availableDocsets s !! name = None ∧ m_userFeeds s !! name = Some metadata) →
  exec (extractionProgress filePath extracted total) s
  = match findDocsetListItem (md_title metadata) s with
    | Some listItem => exec (setItem listItem (item_setValue (percent extracted total))) s
    | None => s
    end.
Proof.
  intros Htmp Hname Huniq Hmeta. unfold extractionProgress.
  rewrite exec_bind, exec_get. cbn [get fst].
  rewrite (tmpFileKey_unique _ _ _ _ Htmp Hname Huniq).
  unfold exec, bind, get, metadataOf, index_userFeeds, bind, get.
  destruct Hmeta as [Hcat|[Hcat Hfeed]]; rewrite Hcat, ?Hfeed; cbn -[percent];
    by destruct (findDocsetListItem (md_title metadata) s).
Qed.

(** X18: the file of an extraction that the table does not hold stands
    for the docset with the empty name.  [extractionCompleted] then
    writes the metadata of that name to [.docset/meta.json] in the
    directory of the docsets and adds the docset of [.docset] to the
    registry; when neither the catalog nor the feeds know the empty
    name, reading its metadata enters default metadata in the feeds, in
    [extractionProgress] as well. *)
Theorem extraction_of_an_unknown_file filePath extracted total s :
  map_Forall (λ _ tmpFile, fileName tmpFile ≠ filePath) (m_tmpFiles s) →
  m_availableDocsets s !! "" = None →
  m_userFeeds s !! "" = None →
  let s' := exec (extractionCompleted filePath) s in
  let path := absoluteFilePath (docsetPath s) ".docset" in
  effects s' = effects s ++ [MetadataToFile (path +:+ "/meta.json") DocsetMetadata_default]
  ∧ m_docsetRegistry s' = DocsetRegistry.add (loadDocset path) (m_docsetRegistry s)
  ∧ m_userFeeds s' = <["" := DocsetMetadata_default]> (m_userFeeds s)
  ∧ m_tmpFiles s' = delete "" (m_tmpFiles s)
  ∧ m_userFeeds (exec (extractionProgress filePath extracted total) s)
    = <["" := DocsetMetadata_default]> (m_userFeeds s).
Proof.
  intros Hnone Hcat Hfeed. cbv zeta.
  assert (Hkey : tmpFileKey filePath s = "") by (apply tmpFileKey_none; exact Hnone).
  destruct (extractionCompleted_key filePath s) as (Heff & Hreg & Htmp & _ & _ & Hfeeds & _).
  cbv zeta in Heff, Hreg, Htmp, Hfeeds.
  rewrite Hkey in Heff, Hreg, Htmp, Hfeeds.
  rewrite Hcat, Hfeed in Heff, Hfeeds.
  split; [done|]. split; [done|]. split; [done|]. split; [done|].
  unfold extractionProgress. rewrite exec_bind, exec_get. cbn [get fst].
  rewrite Hkey.
  unfold exec, bind, get, metadataOf, index_userFeeds, bind, get.
  rewrite Hcat, Hfeed. cbn -[percent].
  by destruct (findDocsetListItem _ _).
Qed.

End Installed.

(** ** Whole and nothing *)

Section Ends.
Context `{Platform}.

(** X19: over the whole range of [qint64], a transfer that received its
    total is at [100] percent and one that received nothing is at [0]:
    the division of a double by itself is [1.0] and its product with
    [100.0] is exact. *)
Theorem percent_of_all_and_of_nothing (total : Z) :
  (0 < total < 2 ^ 63)%Z → percent total total = 100%Z ∧ percent 0 total = 0%Z.
Proof. intros Ht. split; [by apply percent_everything|by apply percent_nothing]. Qed.

Lemma ifItem_exec it f s :
  exec (ifItem it f) s
  = match it with Some i => with_ui (ui_items (alter f i)) s | None => s end.
Proof. by destruct it. Qed.

Lemma with_ui_items_items g s :
  availableDocsetList (ui (with_ui (ui_items g) s)) = g (availableDocsetList (ui s)).
Proof. reflexivity. Qed.

(** The view after the watcher of a removal has run. *)
Lemma on_deleteButton_finished_view docsetTitle result s :
  let s' := exec (on_deleteButton_finished docsetTitle result) s in
  deleteButton_visible (ui s') = true
  ∧ (m_combinedReceived s', m_combinedTotal s') = (0, 0)
  ∧ availableDocsetList (ui s')
    = match findDocsetListItem docsetTitle s with
      | Some listItem => alter (item_setHidden false) listItem (availableDocsetList (ui s))
      | None => availableDocsetList (ui s)
      end.
Proof.
  cbv zeta. unfold on_deleteButton_finished.
  rewrite !exec_seq, exec_bind_get, ifItem_exec.
  set (s2 := exec (setUi (ui_deleteButtonVisible true)) _).
  assert (Hitems : availableDocsetList (ui s2) = availableDocsetList (ui s))
    by (by destruct result).
  rewrite (findDocsetListItem_items _ s s2 Hitems).
  destruct (findDocsetListItem docsetTitle s) as [i|].
  - split; [reflexivity|]. split; [reflexivity|]. by rewrite with_ui_items_items, Hitems.
  - split; [reflexivity|]. split; [reflexivity|]. exact Hitems.
Qed.

(** X20: the button that deletes a docset.  An answer [No] leaves the
    dialog as it is, but for the question asked.  After [Yes], while
    the directory is removed, the button is hidden and the progress bar
    is visible only if transfers are active, since [displayProgress]
    runs after it was shown; when the removal is done, with or without
    success, the counters are reset, the button is shown again and the
    first list item with the title of the docset is shown again. *)
Theorem delete_button_hides_and_shows docsetTitle docsetName dataDirExists result s :
  let question :=
    MessageBox Question "Remove Docset"
      ("Do you really want to remove <b>" +:+ docsetTitle +:+ "</b> docset?") in
  let s1 := exec (on_deleteButton_clicked docsetTitle docsetName Yes true) s in
  let s2 := exec (on_deleteButton_finished docsetTitle result) s1 in
  exec (on_deleteButton_clicked docsetTitle docsetName No dataDirExists) s
    = with_effects (λ l, l ++ [question]) s
  ∧ deleteButton_visible (ui s1) = false
  ∧ docsetsProgress_visible (ui s1) = negb (bool_decide (replies s = []))
  ∧ deleteButton_visible (ui s2) = true
  ∧ (m_combinedReceived s2, m_combinedTotal s2) = (0, 0)
  ∧ availableDocsetList (ui s2)
    = match findDocsetListItem docsetTitle s with
      | Some listItem => alter (item_setHidden false) listItem (availableDocsetList (ui s))
      | None => availableDocsetList (ui s)
      end.
Proof.
  cbv zeta. split; [reflexivity|]. split; [reflexivity|]. split; [reflexivity|].
  set (s1 := exec (on_deleteButton_clicked docsetTitle docsetName Yes true) s).
  destruct (on_deleteButton_finished_view docsetTitle result s1) as (Hbutton & Hcount & Hitems).
  split; [exact Hbutton|]. split; [exact Hcount|].
  rewrite Hitems. by rewrite (findDocsetListItem_items _ s s1).
Qed.

End Ends.

(** ** Temporary files *)

Section TmpFilesKept.
Context `{Platform}.

Lemma keeps_ret {A} (a : A) : keepsTmpFiles (ret a).
Proof. by intros s. Qed.

Lemma keeps_get : keepsTmpFiles get.
Proof. by intros s. Qed.

Lemma keeps_bind {A B} (c : M A) (k : A → M B) :
  keepsTmpFiles c → (∀ a, keepsTmpFiles (k a)) → keepsTmpFiles (let* x := c in k x).
Proof. intros Hc Hk s Hs. rewrite exec_bind. by apply Hk, Hc. Qed.

(** A change of the state that leaves the temporary files. *)
Lemma keeps_modify (f : State → State) :
  (∀ s, m_tmpFiles (f s) = m_tmpFiles s) → (∀ s, disk (f s) = disk s) →
  (∀ s, tmpCreated (f s) = tmpCreated s) →
  keepsTmpFiles (modify f).
Proof.
  intros Ht Hd Hc s [Hcreated Hexists Hdistinct]. unfold exec. cbn.
  split; rewrite ?Ht, ?Hd, ?Hc; done.
Qed.

Lemma keeps_when (b : bool) (c : M unit) : keepsTmpFiles c → keepsTmpFiles (when b c).
Proof. intros Hc. destruct b; [done|apply keeps_ret]. Qed.

Lemma keeps_forEach {A} (l : list A) (body : A → M unit) :
  (∀ x, keepsTmpFiles (body x)) → keepsTmpFiles (forEach l body).
Proof.
  intros Hbody. induction l as [|x l IH]; [apply keeps_ret|].
  cbn [forEach]. apply keeps_bind; [apply Hbody|done].
Qed.

(** The archive of a docset is written to a temporary file that no
    entry of the table holds, since the names of temporary files are
    not used twice. *)
Lemma keeps_completedDocset reply rsp :
  (∀ n m, tempFileName n = tempFileName m → n = m) →
  keepsTmpFiles (completedDocset reply rsp).
Proof.
  intros Hinj s [Hcreated Hexists Hdistinct].
  set (name := md_name (default DocsetMetadata_default (DocsetMetadataProperty reply))).
  set (file := tempFileName (tmpCreated s)).
  assert (Hexec : m_tmpFiles (exec (completedDocset reply rsp) s)
                  = <[name := mkTmp file]> (m_tmpFiles s)
                  ∧ disk (exec (completedDocset reply rsp) s)
                    = <[file := rsp_body rsp]> (disk s)
                  ∧ tmpCreated (exec (completedDocset reply rsp) s) = S (tmpCreated s)).
  { unfold completedDocset, exec, bind, get. cbn -[percent].
    by destruct (findDocsetListItem _ _). }
  destruct Hexec as (Htable & Hdisk & Hcount).
  assert (Hfresh : ∀ key tmpFile, m_tmpFiles s !! key = Some tmpFile → fileName tmpFile ≠ file).
  { intros key tmpFile Hkey Hfile. destruct (Hcreated key tmpFile Hkey) as (n & Hn & Hname).
    rewrite Hname in Hfile. apply Hinj in Hfile. lia. }
  split.
  - intros key tmpFile. rewrite Htable, Hcount.
    intros [[_ <-]|[_ Hkey]]%lookup_insert_Some.
    + exists (tmpCreated s). split; [lia|done].
    + destruct (Hcreated key tmpFile Hkey) as (n & Hn & Hname). exists n. split; [lia|done].
  - intros key tmpFile. rewrite Htable, Hdisk.
    intros [[_ <-]|[_ Hkey]]%lookup_insert_Some; cbn [fileName].
    + rewrite lookup_insert_eq. by eexists.
    + rewrite lookup_insert_ne by (intros Heq; by apply (Hfresh key tmpFile)).
      by apply (Hexists key).
  - intros key key' tmpFile tmpFile'. rewrite Htable.
    intros [[<- <-]|[Hne Hkey]]%lookup_insert_Some
           [[<- <-]|[Hne' Hkey']]%lookup_insert_Some; cbn [fileName]; intros Hfile.
    + done.
    + by destruct (Hfresh key' tmpFile').
    + by destruct (Hfresh key tmpFile).
    + by apply (Hdistinct key key' tmpFile tmpFile').
Qed.

Lemma keeps_deleteTmpFile key : keepsTmpFiles (deleteTmpFile key).
Proof.
  intros s [Hcreated Hexists Hdistinct]. unfold deleteTmpFile.
  rewrite exec_bind_get.
  destruct (m_tmpFiles s !! key) as [tmpFile|] eqn:Hkey; [|done].
  split; cbn.
  - intros key' tmpFile' [_ Hkey']%lookup_delete_Some. by apply (Hcreated key').
  - intros key' tmpFile' [Hne Hkey']%lookup_delete_Some.
    rewrite lookup_delete_ne; [by apply (Hexists key')|].
    intros Hfile. apply Hne. by apply (Hdistinct key key' tmpFile tmpFile').
  - intros k k' f f' [_ Hk]%lookup_delete_Some [_ Hk']%lookup_delete_Some.
    by apply Hdistinct.
Qed.

End TmpFilesKept.

(** The slots are taken apart along their structure; [completedDocset]
    needs the names of the temporary files to differ. *)
Ltac keeps_step :=
  lazymatch goal with
  | |- keepsTmpFiles (ret _) => apply keeps_ret
  | |- keepsTmpFiles get => apply keeps_get
  | |- keepsTmpFiles (setUi _) => apply keeps_modify; reflexivity
  | |- keepsTmpFiles (setItem _ _) => apply keeps_modify; reflexivity
  | |- keepsTmpFiles (setProperty _ _) => apply keeps_modify; reflexivity
  | |- keepsTmpFiles (emit _) => apply keeps_modify; reflexivity
  | |- keepsTmpFiles (modify _) => apply keeps_modify; reflexivity
  | |- keepsTmpFiles (deleteTmpFile _) => apply keeps_deleteTmpFile
  | |- keepsTmpFiles (completedDocset _ _) => apply keeps_completedDocset; assumption
  | |- keepsTmpFiles (when _ _) => apply keeps_when
  | |- keepsTmpFiles (forEach _ _) => apply keeps_forEach; intros ?
  | |- keepsTmpFiles (bind _ _) => apply keeps_bind; [|intros ?]
  | |- keepsTmpFiles (match ?x with _ => _ end) => destruct x
  | |- keepsTmpFiles ?c => let h := head_of c in unfold h
  end.

Ltac keeps_all := repeat keeps_step.

Section TmpFilesOrder.
Context `{Platform}.
Hypothesis tempFileName_inj : ∀ n m, tempFileName n = tempFileName m → n = m.

Lemma keeps_slot (e : Signal) : keepsTmpFiles (slot e).
Proof. destruct e; cbn [slot]; keeps_all. Qed.

Lemma tmpFilesOk_next s :
  tmpFilesOk s →
  map_Forall (λ _ tmpFile, fileName tmpFile ≠ tempFileName (tmpCreated s)) (m_tmpFiles s).
Proof.
  intros [Hcreated _ _] key tmpFile Hkey Hfile.
  destruct (Hcreated key tmpFile Hkey) as (n & Hn & Hname).
  rewrite Hname in Hfile. apply tempFileName_inj in Hfile. lia.
Qed.

End TmpFilesOrder.

Section TmpFilesHistory.
Context `{Platform}.

(** X21: if the names of temporary files are never used twice, the
    table of the temporary files stays in order in every history of the
    dialog: each of its files was created by the dialog and exists,
    no two entries share a file, and the name of the next temporary
    file is the name of none of them.  The last is what the completion
    of the extraction needs to find the docset by its file. *)
Theorem temporary_files_stay_in_order (signals : list Signal) (s : State) :
  (∀ n m, tempFileName n = tempFileName m → n = m) →
  tmpFilesOk s →
  tmpFilesOk (exec (run signals) s)
  ∧ map_Forall (λ _ tmpFile,
                  fileName tmpFile ≠ tempFileName (tmpCreated (exec (run signals) s)))
               (m_tmpFiles (exec (run signals) s)).
Proof.
  intros Hinj Hs.
  assert (Hrun : tmpFilesOk (exec (run signals) s)).
  { revert s Hs. induction signals as [|e signals IH]; intros s Hs; [done|].
    rewrite run_cons. by apply IH, keeps_slot. }
  split; [done|]. by apply tmpFilesOk_next.
Qed.

End TmpFilesHistory.

(** ** The progress bar *)

Section ProgressBar.
Context `{Platform}.

(** X22: the progress bar appears with the first counted report, not
    with the transfer: [startDownload] displays the progress before the
    reply joins the active transfers, so a transfer that is started
    while none is active leaves the bar hidden; its first counted
    report shows the bar.  The bar has the maximum [100] then and shows
    the percentage of the counters, which have grown by the report in
    the arithmetic of [qint64], if the percentage lies between [0] and
    [100]; another percentage is ignored and the bar keeps the value it
    had when the transfer was started. *)
Theorem progress_bar_appears_with_the_first_report url received total s :
  replies s = [] →
  counted (received, total) = true →
  let s1 := exec (startDownload url) s in
  let s2 := exec (on_downloadProgress (nextReply s) received total) s1 in
  let shown := percent (wrap64 (m_combinedReceived s + received))
                       (wrap64 (m_combinedTotal s + total)) in
  docsetsProgress_visible (ui s1) = false
  ∧ docsetsProgress_visible (ui s2) = true
  ∧ docsetsProgress_maximum (ui s2) = 100%Z
  ∧ docsetsProgress_value (ui s2)
    = (if bool_decide (0 ≤ shown ≤ 100)%Z then shown else docsetsProgress_value (ui s1))
  ∧ ((- 2 ^ 63 ≤ m_combinedReceived s + received < 2 ^ 63)%Z →
     (- 2 ^ 63 ≤ m_combinedTotal s + total < 2 ^ 63)%Z →
     shown = percent (m_combinedReceived s + received) (m_combinedTotal s + total)).
Proof.
  intros Hidle Hc. cbv zeta. split.
  { cbn -[percent]. by rewrite Hidle. }
  set (s1 := exec (startDownload url) s).
  assert (Hobj : objects s1 !! nextReply s = Some (mkReply url None None None None))
    by apply lookup_insert_eq.
  destruct (on_downloadProgress_counted _ _ _ _ s1 Hc Hobj)
    as (Hrec & Htot & _ & Hbar & Hmax & Hvis & _).
  cbv zeta in Hrec, Htot, Hbar, Hmax, Hvis.
  cbn [DownloadPreviousReceived default from_option id] in Hrec, Htot.
  change (m_combinedReceived s1) with (m_combinedReceived s) in Hrec.
  change (m_combinedTotal s1) with (m_combinedTotal s) in Htot.
  assert (Hmax1 : docsetsProgress_maximum (ui s1) = 100%Z) by reflexivity.
  split; [|split; [done|split]].
  - rewrite Hvis. change (replies s1) with (replies s ++ [nextReply s]).
    rewrite bool_decide_eq_false_2; [done|]. by destruct (replies s).
  - rewrite Hbar, Hrec, Htot, Z.sub_0_r.
    rewrite QProgressBar_setMaximum_value
      by (by rewrite QProgressBar_setValue_maximum).
    by rewrite QProgressBar_setValue_100.
  - intros Hr Ht. by rewrite !wrap64_small.
Qed.

(** X23: a reset of the progress forgets the totals of the transfers
    that go on.  After [resetProgress], the next counted report of a
    reply that had reported before adds what the reply received since
    (the difference of the two counts, which for counts of bytes is in
    the range of [qint64]), and no total: the total stays [0] and the
    progress bar shows [0] percent. *)
Theorem reset_forgets_the_total sender reply previous received total s :
  objects s !! sender = Some reply →
  DownloadPreviousReceived reply = Some previous →
  counted (received, total) = true →
  let s1 := exec resetProgress s in
  let s2 := exec (on_downloadProgress sender received total) s1 in
  m_combinedTotal s2 = 0
  ∧ m_combinedReceived s2 = wrap64 (received - previous)
  ∧ ((0 ≤ previous < 2 ^ 63)%Z → (received < 2 ^ 63)%Z →
     m_combinedReceived s2 = received - previous)
  ∧ docsetsProgress_value (ui s2) = 0.
Proof.
  intros Hobj Hprev Hc. cbv zeta.
  set (s1 := exec resetProgress s).
  assert (Hobj1 : objects s1 !! sender = Some reply) by exact Hobj.
  destruct (on_downloadProgress_counted _ _ _ _ s1 Hc Hobj1)
    as (Hrec & Htot & _ & Hbar & _).
  cbv zeta in Hrec, Htot, Hbar. rewrite Hprev in Hrec, Htot.
  cbn [default from_option id] in Hrec.
  change (m_combinedReceived s1) with 0 in Hrec.
  change (m_combinedTotal s1) with 0 in Htot.
  rewrite Z.add_0_l in Hrec.
  split; [by rewrite Htot|]. split; [by rewrite Hrec|]. split.
  - intros Hp Hr. rewrite Hrec. apply wrap64_small.
    unfold counted in Hc. cbn [fst snd] in Hc.
    apply negb_true_iff, orb_false_iff in Hc as [_ Hsmall%bool_decide_eq_false]. lia.
  - rewrite Hbar, Htot, percent_total_zero.
    rewrite QProgressBar_setMaximum_value
      by (by rewrite QProgressBar_setValue_maximum).
    by rewrite QProgressBar_setValue_100.
Qed.

End ProgressBar.

(** ** A catalog that cannot be read *)

Section Corrupted.
Context `{Platform}.

Lemma removeOne_length p l : (length l ≤ S (length (removeOne p l)))%nat.
Proof.
  induction l as [|x l IH]; cbn; [lia|].
  destruct (decide (x = p)); cbn; lia.
Qed.

(** X24: a catalog that cannot be parsed is reported once and leaves
    the catalog and the list empty, as [downloadDocsetList] made them.
    If no other transfer is active, the progress is reset and the
    button that loads the catalog is shown and enabled again; if
    another transfer is active the button stays hidden. *)
Theorem corrupted_catalog_can_be_loaded_again rsp errorString s :
  rsp_error rsp = NoError →
  url_isValid (rsp_redirectionTarget rsp) = false →
  fromJson (rsp_body rsp) = inl errorString →
  let s1 := exec downloadDocsetList s in
  let s2 := exec (downloadCompleted (nextReply s) rsp) s1 in
  effects s2
  = effects s1 ++ [MessageBox Warning "Error" ("Corrupted docset list: " +:+ errorString)]
  ∧ m_availableDocsets s2 = ∅
  ∧ availableDocsetList (ui s2) = []
  ∧ (replies s = [] →
     replies s2 = [] ∧ downloadButton_visible (ui s2) = true
     ∧ downloadButton_enabled (ui s2) = true)
  ∧ (replies s ≠ [] → replies s2 ≠ [] ∧ downloadButton_visible (ui s2) = false).
Proof.
  intros Herr Hvalid Hjson. cbv zeta. rewrite downloadDocsetList_exec. cbv zeta.
  set (url := QUrl_fromString _).
  set (reply := mkReply url _ _ _ _).
  set (s1 := with_objects _ _).
  assert (Hobj : objects s1 !! nextReply s = Some reply) by apply lookup_insert_eq.
  assert (Hdispatch :
    exec (downloadCompleted (nextReply s) rsp) s1
    = exec (modify (with_replies (removeOne (nextReply s))) ;;
            (completedDocsetList rsp ;;
             let* s := get in when (bool_decide (replies s = [])) resetProgress) ;;
            modify (with_objects (delete (nextReply s)))) s1).
  { unfold exec. by rewrite (downloadCompleted_dispatch _ reply _ _ Hobj Herr Hvalid). }
  rewrite Hdispatch. clear Hdispatch.
  unfold completedDocsetList. rewrite Hjson.
  unfold exec, bind, get. cbn -[percent removeOne].
  destruct (bool_decide (removeOne (nextReply s) (replies s ++ [nextReply s]) = []))
    eqn:Hlast; cbn -[percent removeOne].
  - apply bool_decide_eq_true in Hlast.
    split; [done|]. split; [done|]. split; [done|]. split; [done|].
    intros Hne. exfalso.
    pose proof (removeOne_length (nextReply s) (replies s ++ [nextReply s])) as Hlen.
    rewrite Hlast, length_app in Hlen. cbn in Hlen.
    destruct (replies s); [done|]. cbn in Hlen. lia.
  - apply bool_decide_eq_false in Hlast.
    split; [done|]. split; [done|]. split; [done|]. split; [|done].
    intros Hidle. rewrite Hidle in Hlast. cbn in Hlast.
    by rewrite decide_True in Hlast.
Qed.

End Corrupted.

(** ** The properties at work *)

Section MoreAtWork.
Import Sample Cases.

Lemma active_transfers_are_the_live_replies_witness :
  activeLive opened
  ∧ activeLive
      (exec (run [AddFeedButtonClicked "" (λ _, "http://feeds.example/go.xml");
                  DownloadProgress 0%nat 20480 40960;
                  Finished 0%nat (ok ";http://x/go.tgz");
                  DownloadDocsetButtonClicked;
                  Finished 1%nat cancelled])
            opened).
Proof.
  split; [by apply activeLive_idle|].
  apply active_transfers_are_the_live_replies. by apply activeLive_idle.
Defined.

Lemma only_finished_removes_transfers_witness :
  isFinished DownloadButtonClicked = false
  ∧ ∃ n : nat,
      replies (exec (slot DownloadButtonClicked) fetching) = replies fetching ++ seq 1 n
      ∧ transfersStarted (exec (slot DownloadButtonClicked) fetching)
        = (transfersStarted fetching + n)%nat
      ∧ ∀ p, is_Some (objects fetching !! p)
             → is_Some (objects (exec (slot DownloadButtonClicked) fetching) !! p).
Proof.
  split; [reflexivity|].
  apply (only_finished_removes_transfers DownloadButtonClicked fetching). reflexivity.
Defined.

Lemma progress_reports_add_up_witness :
  objects fetching !! 0%nat = Some goFeed
  ∧ m_combinedReceived
      (exec (progressReports 0%nat [(100, 40960); (20480, 40960); (30000, 40960)]) fetching)
    = 30000
  ∧ m_combinedTotal
      (exec (progressReports 0%nat [(100, 40960); (20480, 40960); (30000, 40960)]) fetching)
    = 40960
  ∧ docsetsProgress_value
      (ui (exec (progressReports 0%nat [(100, 40960); (20480, 40960); (30000, 40960)])
                fetching))
    = 73.
Proof.
  split; [reflexivity|].
  destruct (progress_reports_add_up 0%nat goFeed
              [(100, 40960); (20480, 40960); (30000, 40960)] fetching eq_refl)
    as [_ Hsome].
  destruct (Hsome (20480, 40960) [(30000, 40960)] eq_refl)
    as (_ & Hreceived & _ & Htotal & _ & _ & Hbar).
  split; [apply Hreceived; vm_compute; split; [discriminate|reflexivity]|].
  split; [apply Htotal; [reflexivity|]; vm_compute; split; [discriminate|reflexivity]|].
  rewrite Hbar; [by vm_compute|reflexivity|].
  vm_compute. split; discriminate.
Defined.

Lemma docset_progress_is_shown_on_its_item_witness :
  m_availableDocsets catalogLoaded !! "a" = Some docsetA
  ∧ counted (20480, 40960) = true
  ∧ item_value
      <$> availableDocsetList
            (ui (exec (on_downloadProgress 1%nat 20480 40960)
                      (exec (downloadDashDocset "a") catalogLoaded)))
    = [50; 0].
Proof.
  split; [reflexivity|]. split; [reflexivity|].
  pose proof (docset_progress_is_shown_on_its_item "a" docsetA 20480 40960 catalogLoaded
                eq_refl eq_refl) as Hthm.
  cbv zeta in Hthm. change (nextReply catalogLoaded) with 1%nat in Hthm.
  rewrite Hthm. by vm_compute.
Defined.

Lemma feed_progress_is_shown_on_first_row_witness :
  item_value
    <$> availableDocsetList
          (ui (exec (on_downloadProgress 1%nat 20480 40960)
                    (exec (addDashFeed "" (λ _, "http://feeds.example/go.xml")) catalogLoaded)))
  = [50; 0].
Proof.
  pose proof (feed_progress_is_shown_on_first_row "" (λ _, "http://feeds.example/go.xml")
                20480 40960 catalogLoaded ltac:(discriminate) eq_refl) as Hthm.
  cbv zeta in Hthm. change (nextReply catalogLoaded) with 1%nat in Hthm.
  rewrite Hthm. by vm_compute.
Defined.

Lemma catalog_is_loaded_into_the_list_witness :
  fromJson (rsp_body (ok "a,c")) = inr acArray
  ∧ m_availableDocsets catalogLoaded = insertEntries ∅ acArray
  ∧ length (availableDocsetList (ui catalogLoaded)) = size (insertEntries ∅ acArray).
Proof.
  assert (Harray : fromJson (rsp_body (ok "a,c")) = inr acArray) by reflexivity.
  split; [exact Harray|].
  destruct (catalog_is_loaded_into_the_list (ok "a,c") acArray opened eq_refl eq_refl Harray)
    as (_ & Hcatalog & _ & Hlength & _).
  split; [exact Hcatalog|exact Hlength].
Defined.

Lemma downloadDashDocset_requests_a_mirror_witness :
  m_availableDocsets catalogLoaded !! "a" = Some docsetA
  ∧ (0 ≤ qrand_value (qrandCalls catalogLoaded))%Z
  ∧ ∃ mirror, mirror ∈ kapeliUrls
      ∧ effects (exec (downloadDashDocset "a") catalogLoaded)
        = effects catalogLoaded
          ++ [Download (QUrl_fromString (mirror +:+ "/feeds/" +:+ "a" +:+ ".tgz")) 1%nat].
Proof.
  assert (Hrand : (0 ≤ qrand_value (qrandCalls catalogLoaded))%Z)
    by (vm_compute; discriminate).
  split; [reflexivity|]. split; [exact Hrand|].
  destruct (downloadDashDocset_requests_a_mirror "a" docsetA catalogLoaded eq_refl Hrand)
    as (mirror & Hin & Heffects & _).
  exists mirror. split; [exact Hin|exact Heffects].
Defined.

Lemma download_button_starts_the_checked_docsets_witness :
  replies aChecked = []
  ∧ effects (exec on_downloadDocsetButton_clicked aChecked)
    = effects aChecked ++ [Download (urlOf "http://sanfrancisco.kapeli.com/feeds/a.tgz") 1%nat]
  ∧ objects (exec on_downloadDocsetButton_clicked aChecked) !! (nextReply aChecked + 0)%nat
    = Some (mkReply (urlOf "http://sanfrancisco.kapeli.com/feeds/a.tgz") (Some docsetA)
                    (Some DownloadDocset) None (Some 0))
  ∧ transfersStarted (exec on_downloadDocsetButton_clicked aChecked)
    = (transfersStarted aChecked + 1)%nat.
Proof.
  split; [reflexivity|].
  destruct (download_button_starts_the_checked_docsets aChecked) as [_ Hidle].
  destruct (Hidle eq_refl) as (Heffects & _ & Hobjects & _ & Hstarted & _).
  split; [rewrite Heffects; by vm_compute|].
  split; [|exact Hstarted].
  assert (Hitem : filter (λ it, toDownload (m_availableDocsets aChecked) it = true)
                         (availableDocsetList (ui aChecked)) !! 0%nat
                  = Some (item_setChecked true (catalogItem ∅ docsetA))) by (by vm_compute).
  assert (Hknown : m_availableDocsets aChecked
                     !! item_docsetName (item_setChecked true (catalogItem ∅ docsetA))
                   = Some docsetA) by (by vm_compute).
  rewrite (Hobjects 0%nat _ docsetA Hitem Hknown). by vm_compute.
Defined.

Lemma watcher_loads_the_docsets_of_the_catalog_witness :
  effects (exec updateFeedDocsets_finished aInstalled)
  = effects aInstalled ++ [Download (urlOf "http://sanfrancisco.kapeli.com/feeds/a.tgz") 1%nat]
  ∧ objects (exec updateFeedDocsets_finished aInstalled) !! (nextReply aInstalled + 0)%nat
    = Some (mkReply (urlOf "http://sanfrancisco.kapeli.com/feeds/a.tgz") (Some docsetA)
                    (Some DownloadDocset) None (Some 0)).
Proof.
  destruct (watcher_loads_the_docsets_of_the_catalog aInstalled)
    as (Heffects & _ & Hobjects & _).
  split; [rewrite Heffects; by vm_compute|].
  assert (Hdocset : filter (λ d, fromCatalog (m_availableDocsets aInstalled) d = true)
                           (DocsetRegistry.docsets (m_docsetRegistry aInstalled)) !! 0%nat
                    = Some (mkDocset "a" "a" true docsetA)) by (by vm_compute).
  assert (Hknown : m_availableDocsets aInstalled !! docset_name (mkDocset "a" "a" true docsetA)
                   = Some docsetA) by (by vm_compute).
  rewrite (Hobjects 0%nat _ docsetA Hdocset Hknown). by vm_compute.
Defined.

Lemma addDashFeed_requests_the_answer_witness :
  effects (exec (addDashFeed "dash-feed://http://feeds.example/go.xml" (λ text, text)) opened)
  = effects opened ++ [Download (urlOf "http://feeds.example/go.xml") 0%nat].
Proof.
  destruct (addDashFeed_requests_the_answer "dash-feed://http://feeds.example/go.xml"
              (λ text, text) "http://feeds.example/go.xml" opened)
    as (_ & Hprefix & _).
  destruct (Hprefix eq_refl) as (Heffects & _). exact Heffects.
Defined.

Lemma updateFeedDocsets_requests_the_feeds_witness :
  filter (λ d, hasFeed d = true) (DocsetRegistry.docsets (m_docsetRegistry installed))
    = [goInstalled]
  ∧ objects (exec (updateFeedDocsets Yes) installed) !! 0%nat
    = Some (feedReply installed goInstalled).
Proof.
  split; [reflexivity|].
  destruct (updateFeedDocsets_requests_the_feeds Yes installed) as (Hreply & _).
  exact (Hreply 0%nat goInstalled eq_refl).
Defined.

Lemma feed_without_news_starts_nothing_witness :
  objects fetching !! 0%nat = Some goFeed
  ∧ md_urls (fromDashFeed (request_url goFeed) (rsp_body (ok "7"))) = []
  ∧ effects (exec (downloadCompleted 0%nat (ok "7")) fetching)
    = effects fetching ++ [MessageBox Critical "Zeal" "Invalid docset feed!"].
Proof.
  split; [reflexivity|]. split; [reflexivity|].
  destruct (feed_without_news_starts_nothing 0%nat goFeed (ok "7") fetching
              eq_refl eq_refl eq_refl eq_refl)
    as [Hinvalid _].
  destruct (Hinvalid eq_refl) as (Heffects & _). exact Heffects.
Defined.

Lemma failed_transfer_changes_only_the_replies_witness :
  objects fetching !! 0%nat = Some goFeed
  ∧ rsp_error (failed 3 "Host not found") ≠ NoError
  ∧ effects (exec (downloadCompleted 0%nat (failed 3 "Host not found")) fetching)
    = effects fetching ++ [MessageBox Warning "Network Error" "Host not found"]
  ∧ replies (exec (downloadCompleted 0%nat (failed 3 "Host not found")) fetching) = [].
Proof.
  split; [reflexivity|]. split; [discriminate|].
  destruct (failed_transfer_changes_only_the_replies 0%nat goFeed (failed 3 "Host not found")
              fetching eq_refl ltac:(discriminate))
    as (Heffects & Hreplies & _).
  split; [exact Heffects|exact Hreplies].
Defined.

Lemma archive_is_extracted_and_installed_witness :
  objects feedFetched !! 1%nat = Some goArchive
  ∧ map_Forall (λ _ tmpFile, fileName tmpFile ≠ tempFileName (tmpCreated feedFetched))
               (m_tmpFiles feedFetched)
  ∧ tmpFileKey "/tmp/zeal.x" (exec (downloadCompleted 1%nat (ok "BYTES")) feedFetched) = "go"
  ∧ m_tmpFiles (exec (extractionCompleted "/tmp/zeal.x")
                  (exec (downloadCompleted 1%nat (ok "BYTES")) feedFetched))
    = delete "go" (m_tmpFiles feedFetched).
Proof.
  split; [reflexivity|]. split; [apply map_Forall_empty|].
  destruct (archive_is_extracted_and_installed 1%nat goArchive (ok "BYTES") feedFetched
              eq_refl eq_refl eq_refl eq_refl (map_Forall_empty _))
    as (_ & _ & _ & Hkey & _ & _ & Htable & _).
  split; [exact Hkey|exact Htable].
Defined.

Lemma extraction_progress_is_shown_on_its_item_witness :
  m_tmpFiles extracting !! "go" = Some (mkTmp "/tmp/zeal.x")
  ∧ m_userFeeds extracting !! "go" = Some goMetadata
  ∧ exec (extractionProgress "/tmp/zeal.x" 1 2) extracting
    = match findDocsetListItem "go" extracting with
      | Some listItem => exec (setItem listItem (item_setValue (percent 1 2))) extracting
      | None => extracting
      end.
Proof.
  assert (Htable : m_tmpFiles extracting !! "go" = Some (mkTmp "/tmp/zeal.x")) by reflexivity.
  assert (Hfeeds : m_availableDocsets extracting !! "go" = None
                   ∧ m_userFeeds extracting !! "go" = Some goMetadata)
    by (split; reflexivity).
  assert (Hunique : map_Forall (λ key other, fileName other = "/tmp/zeal.x" → key = "go")
                               (m_tmpFiles extracting))
    by (apply (bool_decide_unpack _); by vm_compute).
  split; [exact Htable|]. split; [apply Hfeeds|].
  exact (extraction_progress_is_shown_on_its_item "/tmp/zeal.x" "go" (mkTmp "/tmp/zeal.x")
           goMetadata 1 2 extracting Htable eq_refl Hunique (or_intror Hfeeds)).
Defined.

Lemma extraction_of_an_unknown_file_witness :
  m_userFeeds (exec (extractionCompleted "/tmp/other") opened)
  = <["" := DocsetMetadata_default]> (m_userFeeds opened).
Proof.
  destruct (extraction_of_an_unknown_file "/tmp/other" 1 2 opened (map_Forall_empty _)
              eq_refl eq_refl)
    as (_ & _ & Hfeeds & _).
  exact Hfeeds.
Defined.

Lemma percent_of_all_and_of_nothing_witness :
  percent 3 3 = 100%Z ∧ percent 0 3 = 0%Z.
Proof. apply (percent_of_all_and_of_nothing 3). lia. Defined.

End MoreAtWork.

Section TmpFilesAtWork.
Import Sample Cases.

Lemma stars_inj n m : stars n = stars m → n = m.
Proof.
  revert m. induction n as [|n IH]; intros [|m] Heq; try done.
  injection Heq as Heq. f_equal. by apply IH.
Qed.

Lemma append_inv_head (p a b : string) : p +:+ a = p +:+ b → a = b.
Proof. induction p as [|c p IH]; cbn; [done|]. intros Heq. injection Heq as Heq. auto. Qed.

Lemma tempFileName_inj n m : tempFileName n = tempFileName m → n = m.
Proof.
  unfold tempFileName, platform. intros Heq%append_inv_head.
  apply stars_inj in Heq. lia.
Qed.

(** Without temporary files the table is in order. *)
Lemma tmpFilesOk_empty `{Platform} s : m_tmpFiles s = ∅ → tmpFilesOk s.
Proof.
  intros Hempty. split; intros key; intros; rewrite Hempty in *; by rewrite lookup_empty in *.
Qed.

Lemma temporary_files_stay_in_order_witness :
  tmpFilesOk opened
  ∧ tmpFilesOk
      (exec (run [AddFeedButtonClicked "" (λ _, "http://feeds.example/go.xml");
                  Finished 0%nat (ok ";http://x/go.tgz");
                  Finished 1%nat (ok "BYTES");
                  ExtractionProgress "/tmp/zeal.x" 1 2;
                  ExtractionCompleted "/tmp/zeal.x"])
            opened).
Proof.
  split; [by apply tmpFilesOk_empty|].
  apply temporary_files_stay_in_order; [exact tempFileName_inj|by apply tmpFilesOk_empty].
Defined.

Lemma progress_bar_appears_with_the_first_report_witness :
  replies opened = []
  ∧ docsetsProgress_visible
      (ui (exec (startDownload (urlOf "http://feeds.example/go.xml")) opened)) = false
  ∧ docsetsProgress_visible
      (ui (exec (on_downloadProgress (nextReply opened) 20480 40960)
                (exec (startDownload (urlOf "http://feeds.example/go.xml")) opened))) = true
  ∧ docsetsProgress_value
      (ui (exec (on_downloadProgress (nextReply opened) 20480 40960)
                (exec (startDownload (urlOf "http://feeds.example/go.xml")) opened))) = 50
  ∧ docsetsProgress_value
      (ui (exec (on_downloadProgress (nextReply opened) 20480 10240)
                (exec (startDownload (urlOf "http://feeds.example/go.xml")) opened))) = 0.
Proof.
  split; [reflexivity|].
  destruct (progress_bar_appears_with_the_first_report (urlOf "http://feeds.example/go.xml")
              20480 40960 opened eq_refl eq_refl)
    as (Hhidden & Hshown & _ & Hvalue & _).
  destruct (progress_bar_appears_with_the_first_report (urlOf "http://feeds.example/go.xml")
              20480 10240 opened eq_refl eq_refl)
    as (_ & _ & _ & Hignored & _).
  split; [exact Hhidden|]. split; [exact Hshown|].
  split.
  - rewrite Hvalue. by vm_compute.
  - rewrite Hignored. by vm_compute.
Defined.

Lemma reset_forgets_the_total_witness :
  objects downloading !! 0%nat
    = Some (reply_setPreviousReceived (Some 20480) goFeed)
  ∧ m_combinedTotal
      (exec (on_downloadProgress 0%nat 30000 40960) (exec resetProgress downloading)) = 0
  ∧ m_combinedReceived
      (exec (on_downloadProgress 0%nat 30000 40960) (exec resetProgress downloading)) = 9520
  ∧ docsetsProgress_value
      (ui (exec (on_downloadProgress 0%nat 30000 40960) (exec resetProgress downloading))) = 0.
Proof.
  split; [reflexivity|].
  destruct (reset_forgets_the_total 0%nat (reply_setPreviousReceived (Some 20480) goFeed)
              20480 30000 40960 downloading eq_refl eq_refl eq_refl)
    as (Htotal & _ & Hreceived & Hbar).
  split; [exact Htotal|]. split; [|exact Hbar].
  apply Hreceived; vm_compute; [split; [discriminate|reflexivity]|reflexivity].
Defined.

Lemma corrupted_catalog_can_be_loaded_again_witness :
  fromJson (rsp_body (ok "!")) = inl "illegal value"
  ∧ replies (exec (downloadCompleted 0%nat (ok "!")) (exec downloadDocsetList opened)) = []
  ∧ downloadButton_visible
      (ui (exec (downloadCompleted 0%nat (ok "!")) (exec downloadDocsetList opened))) = true
  ∧ downloadButton_enabled
      (ui (exec (downloadCompleted 0%nat (ok "!")) (exec downloadDocsetList opened))) = true.
Proof.
  assert (Hjson : fromJson (rsp_body (ok "!")) = inl "illegal value") by reflexivity.
  split; [exact Hjson|].
  destruct (corrupted_catalog_can_be_loaded_again (ok "!") "illegal value" opened
              eq_refl eq_refl Hjson)
    as (_ & _ & _ & Hidle & _).
  exact (Hidle eq_refl).
Defined.

End TmpFilesAtWork.
